(** * RAG assistant: retrieval and conversational-grounding pipeline

    A shallow embedding of the Python sources of the service
    (chunker, vector adapter, retrieval engine, memory policy, source
    filter, title resolution and prompt builder) together with the
    properties the design document states about them.

    Conventions.
    - A Python [str] is a list of Unicode code points ([pstr]); [len]
      counts code points, as Python does.  String literals of the source
      are written as UTF-8 literals and decoded by [py].
    - Python integers are [Z]; indexing and slicing follow Python
      (negative indices count from the end, slices clip).
    - Similarity scores are exact rationals ([Q]); the thresholds of the
      source (0.9, 0.8, 0.7, 0.6, 0.5, 0.3 ...) are the corresponding
      fractions.
    - Code that can raise or loop returns a [res]: [Ret v], [Raise e], or
      [OutOfFuel] when the fuel given to a [while] loop did not suffice. *)

From Stdlib Require Import Strings.String Strings.Ascii.
From Stdlib Require Import List ZArith NArith QArith Lia Bool Arith.
From Stdlib Require Import Permutation Lqa.
Import ListNotations.

(* ================================================================== *)
(** * Python strings, indices and slices *)
(* ================================================================== *)

Module PyStr.

Definition pchar := N.
Definition pstr := list pchar.

Definition len {A : Type} (s : list A) : Z := Z.of_nat (length s).

(** Decoding of the UTF-8 bytes of a literal into code points. *)
Fixpoint utf8_decode (bs : list N) : pstr :=
  match bs with
  | [] => []
  | b0 :: r0 =>
    if (b0 <? 128)%N then b0 :: utf8_decode r0
    else match r0 with
    | [] => [b0]
    | b1 :: r1 =>
      if (b0 <? 224)%N
      then (N.land b0 31 * 64 + N.land b1 63)%N :: utf8_decode r1
      else match r1 with
      | [] => [b0; b1]
      | b2 :: r2 =>
        if (b0 <? 240)%N
        then (N.land b0 15 * 4096 + N.land b1 63 * 64 + N.land b2 63)%N
               :: utf8_decode r2
        else match r2 with
        | [] => [b0; b1; b2]
        | b3 :: r3 =>
          (N.land b0 7 * 262144 + N.land b1 63 * 4096
           + N.land b2 63 * 64 + N.land b3 63)%N :: utf8_decode r3
        end
      end
    end
  end.

Definition py (s : string) : pstr :=
  utf8_decode (map N_of_ascii (list_ascii_of_string s)).

(** [str.isspace] for one character: the code points Python treats as
    whitespace ([str.strip()] removes exactly these). *)
Definition isspace (c : pchar) : bool :=
  ((9 <=? c) && (c <=? 13) || (28 <=? c) && (c <=? 32)
   || (c =? 133) || (c =? 160) || (c =? 5760)
   || (8192 <=? c) && (c <=? 8202)
   || (c =? 8232) || (c =? 8233) || (c =? 8239) || (c =? 8287)
   || (c =? 12288))%N.

Fixpoint lstrip (s : pstr) : pstr :=
  match s with
  | [] => []
  | c :: r => if isspace c then lstrip r else s
  end.

Definition rstrip (s : pstr) : pstr := rev (lstrip (rev s)).

(** [s.strip()] *)
Definition strip (s : pstr) : pstr := rstrip (lstrip s).

(** Truthiness of a string or list: non-empty. *)
Definition truthy {A : Type} (s : list A) : bool :=
  match s with [] => false | _ :: _ => true end.

Definition pstr_eqb (a b : pstr) : bool :=
  if list_eq_dec N.eq_dec a b then true else false.

(** [c in s] for a one-character [c]. *)
Definition char_in (c : pchar) (s : pstr) : bool := existsb (N.eqb c) s.

(** [s[i]]: negative indices count from the end; out of range is an
    [IndexError], rendered as [None]. *)
Definition py_index {A : Type} (s : list A) (i : Z) : option A :=
  if (0 <=? i)%Z then nth_error s (Z.to_nat i)
  else if (- len s <=? i)%Z then nth_error s (Z.to_nat (len s + i))
  else None.

(** Normalisation of one slice bound, as [PySlice_AdjustIndices]. *)
Definition clip (n i : Z) : Z :=
  if (i <? 0)%Z then Z.max (n + i) 0 else Z.min i n.

(** [s[a:b]] *)
Definition py_slice {A : Type} (s : list A) (a b : Z) : list A :=
  let a' := clip (len s) a in
  let b' := clip (len s) b in
  firstn (Z.to_nat (b' - a')) (skipn (Z.to_nat a') s).

(** [s[:b]] *)
Definition py_take {A : Type} (s : list A) (b : Z) : list A := py_slice s 0 b.

(** [s[a:]] *)
Definition py_drop {A : Type} (s : list A) (a : Z) : list A :=
  py_slice s a (len s).

(** [range(hi, lo, -1)]: hi, hi-1, ..., lo+1. *)
Definition range_down (hi lo : Z) : list Z :=
  map (fun k => (hi - Z.of_nat k)%Z) (seq 0 (Z.to_nat (hi - lo))).

(** [str(n)] for an integer. *)
Fixpoint digits_pos (fuel : nat) (n : N) (acc : pstr) : pstr :=
  match fuel with
  | O => acc
  | S f =>
    let acc' := (48 + n mod 10)%N :: acc in
    if (n <? 10)%N then acc' else digits_pos f (n / 10)%N acc'
  end.

Definition str_of_N (n : N) : pstr := digits_pos (S (N.to_nat (N.log2 n))) n [].

Definition str_of_Z (z : Z) : pstr :=
  if (z <? 0)%Z then 45%N :: str_of_N (Z.to_N (- z)) else str_of_N (Z.to_N z).

End PyStr.
Export PyStr.

(** A few evaluations of the string primitives. *)
Example py_ascii : py "a.b" = [97; 46; 98]%N.
Proof. reflexivity. Qed.

Example py_cyrillic : py "Да" = [1044; 1072]%N.
Proof. reflexivity. Qed.

Example strip_both_sides : strip (10 :: py "  a b  ")%N = py "a b".
Proof. reflexivity. Qed.

Example slice_negative_start : py_slice (py "abcdef") (-2) 100 = py "ef".
Proof. reflexivity. Qed.

Example index_from_the_end : py_index (py "abc") (-1) = Some 99%N.
Proof. reflexivity. Qed.

Example range_down_example : range_down 5 2 = [5; 4; 3]%Z.
Proof. reflexivity. Qed.

Example str_of_negative : str_of_Z (-120) = py "-120".
Proof. reflexivity. Qed.

(** Results of code that may raise or may not terminate. *)
Inductive exn : Type := IndexError | ProviderError.

Inductive res (A : Type) : Type :=
| Ret (a : A)
| Raise (e : exn)
| OutOfFuel.

Arguments Ret {A} a.
Arguments Raise {A} e.
Arguments OutOfFuel {A}.

Definition bind {A B : Type} (m : res A) (k : A -> res B) : res B :=
  match m with
  | Ret a => k a
  | Raise e => Raise e
  | OutOfFuel => OutOfFuel
  end.

Notation "x <- m ;; k" := (bind m (fun x => k))
  (at level 61, m at next level, right associativity).

(* ================================================================== *)
(** * Scores and ordered lists *)
(* ================================================================== *)

Module Scores.

Open Scope Q_scope.

(** [a < b] on scores. *)
Definition Qltb (a b : Q) : bool := negb (Qle_bool b a).

(** [max(a, b)]: the first argument unless the second is larger. *)
Definition py_max (a b : Q) : Q := if Qltb a b then b else a.

(** [sorted(l, key=key, reverse=True)]: stable, largest key first. *)
Fixpoint insert_desc {A : Type} (key : A -> Q) (x : A) (l : list A) : list A :=
  match l with
  | [] => [x]
  | y :: r => if Qltb (key x) (key y) then y :: insert_desc key x r else x :: l
  end.

Definition sorted_desc {A : Type} (key : A -> Q) (l : list A) : list A :=
  fold_right (insert_desc key) [] l.

End Scores.
Export Scores.

(** Equal keys keep their order, larger keys come first. *)
Example sorted_desc_stable :
  sorted_desc (fun p => inject_Z (fst p)) [(1, 10); (2, 20); (1, 30); (2, 40)]%Z
  = [(2, 20); (2, 40); (1, 10); (1, 30)]%Z.
Proof. reflexivity. Qed.

(* ================================================================== *)
(** * Chunker ([services/document_processor.py]) *)
(* ================================================================== *)

Module Chunker.

Open Scope Z_scope.

(** The [for i in range(...): if <test text[i]>: end = i + 1; break]
    loops: the first index of the range whose character passes [test],
    if any. *)
Fixpoint find_break (text : pstr) (test : pchar -> bool) (idx : list Z)
  : res (option Z) :=
  match idx with
  | [] => Ret None
  | i :: rest =>
    match py_index text i with
    | None => Raise IndexError
    | Some c => if test c then Ret (Some i) else find_break text test rest
    end
  end.

(** [text[i] in '.!?'] *)
Definition is_sentence_end (c : pchar) : bool := char_in c (py ".!?").

(** [text[i] == '\n'] *)
Definition is_newline (c : pchar) : bool := (c =? 10)%N.

(** The value of [end] when the chunk is cut, for one iteration of the
    [while] loop started at [start]. *)
Definition chunk_end (text : pstr) (max_chunk_size start : Z) : res Z :=
  let end0 := start + max_chunk_size in
  if end0 <? len text then
    let idx := range_down end0 (Z.max (start + max_chunk_size - 100) start) in
    b1 <- find_break text is_sentence_end idx ;;
    let end1 := match b1 with Some i => i + 1 | None => end0 end in
    if end1 =? start + max_chunk_size then
      b2 <- find_break text is_newline idx ;;
      Ret (match b2 with Some i => i + 1 | None => end1 end)
    else Ret end1
  else Ret end0.

(** [chunk = text[start:end].strip(); if chunk: chunks.append(chunk)] *)
Definition push_chunk (text : pstr) (start e : Z) (chunks : list pstr)
  : list pstr :=
  let chunk := strip (py_slice text start e) in
  if truthy chunk then chunks ++ [chunk] else chunks.

(** The [while start < len(text)] loop. *)
Fixpoint split_loop (fuel : nat) (text : pstr) (max_chunk_size overlap : Z)
  (start : Z) (chunks : list pstr) : res (list pstr) :=
  match fuel with
  | O => OutOfFuel
  | S fuel' =>
    if start <? len text then
      e <- chunk_end text max_chunk_size start ;;
      let chunks' := push_chunk text start e chunks in
      let start' := e - overlap in
      if len text <=? start' then Ret chunks'
      else split_loop fuel' text max_chunk_size overlap start' chunks'
    else Ret chunks
  end.

Definition _split_text_into_chunks_fuel (fuel : nat) (text : pstr)
  (max_chunk_size overlap : Z) : res (list pstr) :=
  if len text <=? max_chunk_size then Ret [text]
  else split_loop fuel text max_chunk_size overlap 0 [].

(** The splitter with its default arguments, as the processor calls it.
    One unit of fuel per character is always enough: every iteration
    moves [start] forward. *)
Definition _split_text_into_chunks (text : pstr) : res (list pstr) :=
  _split_text_into_chunks_fuel (S (length text)) text 500 50.

(** The slices [(start, end)] cut by the successive iterations of the
    loop: the same loop, recording the bounds instead of the chunks. *)
Fixpoint split_bounds (fuel : nat) (text : pstr) (max_chunk_size overlap : Z)
  (start : Z) : res (list (Z * Z)) :=
  match fuel with
  | O => OutOfFuel
  | S fuel' =>
    if start <? len text then
      e <- chunk_end text max_chunk_size start ;;
      let start' := e - overlap in
      if len text <=? start' then Ret [(start, e)]
      else
        rest <- split_bounds fuel' text max_chunk_size overlap start' ;;
        Ret ((start, e) :: rest)
    else Ret []
  end.

(** Number of iterations the [while] loop performs on [text]. *)
Definition split_iterations (text : pstr) : res Z :=
  if len text <=? 500 then Ret 0
  else bs <- split_bounds (S (length text)) text 500 50 0 ;; Ret (len bs).

(** The chunks obtained from a list of slices. *)
Definition chunks_of_bounds (text : pstr) (bs : list (Z * Z)) : list pstr :=
  fold_left (fun acc b => push_chunk text (fst b) (snd b) acc) bs [].

(** *** [_create_chunks_from_content] *)

(** A content block of the parse result, after the [.get] defaults of
    the source have been applied. *)
Record ContentItem : Type := {
  ci_content : pstr;
  ci_type : pstr;
  ci_section_name : pstr;
  ci_page : option Z;
  ci_sheet_name : pstr
}.

Record ChunkData (Embedding : Type) : Type := {
  cd_document_id : Z;
  cd_chunk_id : pstr;
  cd_content : pstr;
  cd_section : pstr;
  cd_access_level : pstr;
  cd_chunk_type : pstr;
  cd_section_name : pstr;
  cd_chunk_index : Z;
  cd_embedding : Embedding;
  cd_page_number : option Z;
  cd_sheet_name : pstr;
  cd_chunk_sub_index : Z
}.

Definition MAX_CHUNKS_PER_DOCUMENT : Z := 200.

(** [enumerate(l)] *)
Definition enumerate {A : Type} (l : list A) : list (Z * A) :=
  combine (map Z.of_nat (seq 0 (length l))) l.

Section CreateChunks.

Variable Embedding : Type.
(** The embedding provider; [None] when the call raises. *)
Variable get_embeddings : pstr -> option Embedding.

Variables (document_id : Z) (section access_level : pstr).

(** The inner loop [for i, text_chunk in enumerate(text_chunks)]. *)
Fixpoint chunk_item (item : ContentItem) (tcs : list (Z * pstr))
  (chunks : list (ChunkData Embedding)) (chunk_index : Z)
  : list (ChunkData Embedding) * Z :=
  match tcs with
  | [] => (chunks, chunk_index)
  | (i, text_chunk) :: rest =>
    if MAX_CHUNKS_PER_DOCUMENT <=? chunk_index then (chunks, chunk_index)
    else if negb (truthy (strip text_chunk))
    then chunk_item item rest chunks chunk_index
    else match get_embeddings text_chunk with
    | None => chunk_item item rest chunks chunk_index
    | Some embedding =>
      let chunk_data := {|
        cd_document_id := document_id;
        cd_chunk_id := str_of_Z document_id ++ py "_" ++ str_of_Z chunk_index;
        cd_content := text_chunk;
        cd_section := section;
        cd_access_level := access_level;
        cd_chunk_type := ci_type item;
        cd_section_name := ci_section_name item;
        cd_chunk_index := chunk_index;
        cd_embedding := embedding;
        cd_page_number := ci_page item;
        cd_sheet_name := ci_sheet_name item;
        cd_chunk_sub_index := i |} in
      chunk_item item rest (chunks ++ [chunk_data]) (chunk_index + 1)
    end
  end.

(** The outer loop [for content_item in content]; [None] when the
    splitter fails, which the surrounding handler turns into the
    [None] result of the method. *)
Fixpoint chunk_content (content : list ContentItem)
  (chunks : list (ChunkData Embedding)) (chunk_index : Z)
  : option (list (ChunkData Embedding) * Z) :=
  match content with
  | [] => Some (chunks, chunk_index)
  | item :: rest =>
    if MAX_CHUNKS_PER_DOCUMENT <=? chunk_index then Some (chunks, chunk_index)
    else if negb (truthy (strip (ci_content item)))
    then chunk_content rest chunks chunk_index
    else match _split_text_into_chunks (ci_content item) with
    | Ret text_chunks =>
      let '(chunks', chunk_index') :=
        chunk_item item (enumerate text_chunks) chunks chunk_index in
      chunk_content rest chunks' chunk_index'
    | _ => None
    end
  end.

Definition _create_chunks_from_content (content : list ContentItem)
  : option (list (ChunkData Embedding)) :=
  if negb (truthy content) then None
  else option_map fst (chunk_content content [] 0).

End CreateChunks.

(** *** The splitter of the parser module ([services/document_parser.py]) *)

Definition MAX_ITERATIONS : nat := 1000.
Definition MAX_CHUNKS : Z := 100.

(** The same loop with the two safety checks of the parser module;
    [remaining] is [MAX_ITERATIONS - iteration_count]. *)
Fixpoint parser_split_loop (remaining : nat) (text : pstr)
  (max_chunk_size overlap : Z) (start : Z) (chunks : list pstr)
  (iteration_count : Z) : res (list pstr * Z) :=
  match remaining with
  | O => Ret (chunks, iteration_count)
  | S remaining' =>
    if start <? len text then
      e <- chunk_end text max_chunk_size start ;;
      let chunks' := push_chunk text start e chunks in
      let start' := e - overlap in
      if (len text <=? start') || (start' <=? 0)
      then Ret (chunks', iteration_count + 1)
      else if truthy chunks' && (start' <? len text)
              && Qltb (inject_Z start' / inject_Z (len text)) 0.01
      then Ret (chunks', iteration_count + 1)
      else parser_split_loop remaining' text max_chunk_size overlap start'
             chunks' (iteration_count + 1)
    else Ret (chunks, iteration_count)
  end.

(** The chunks and the number of iterations performed. *)
Definition parser_split_text_into_chunks (text : pstr)
  (max_chunk_size overlap : Z) : res (list pstr * Z) :=
  if len text <=? max_chunk_size then Ret ([text], 0)
  else
    r <- parser_split_loop MAX_ITERATIONS text max_chunk_size overlap 0 [] 0 ;;
    Ret (if MAX_CHUNKS <? len (fst r) then py_take (fst r) MAX_CHUNKS else fst r,
         snd r).

(** A single text block of 451001 letters [a]: what the text parser
    hands over for a plain-text file of that size without line breaks. *)
Definition long_block : pstr := repeat 97%N (Z.to_nat 451001).

(** A 1050-character block: one letter followed by blanks. *)
Definition padded_block : pstr := 97%N :: repeat 32%N 1049.

End Chunker.

(* ------------------------------------------------------------------ *)
(** ** Properties of the chunker *)

Module ChunkerFacts.
Import Chunker.
Open Scope Z_scope.

Lemma len_nonneg : forall {A : Type} (s : list A), 0 <= len s.
Proof. intros; unfold len; lia. Qed.

Lemma py_index_in_range : forall (A : Type) (s : list A) i,
  0 <= i < len s -> exists c, py_index s i = Some c.
Proof.
  intros A s i Hi. unfold py_index.
  destruct (0 <=? i) eqn:E; [|apply Z.leb_gt in E; lia].
  destruct (nth_error s (Z.to_nat i)) eqn:N; [eauto|].
  apply nth_error_None in N. unfold len in Hi. lia.
Qed.

Lemma range_down_bounds : forall hi lo i,
  In i (range_down hi lo) -> lo < i <= hi.
Proof.
  intros hi lo i H. unfold range_down in H.
  apply in_map_iff in H. destruct H as [k [<- Hk]].
  apply in_seq in Hk. lia.
Qed.

Lemma find_break_spec : forall text test idx,
  (forall i, In i idx -> 0 <= i < len text) ->
  find_break text test idx = Ret None \/
  exists i, In i idx /\ find_break text test idx = Ret (Some i).
Proof.
  intros text test idx. induction idx as [|i rest IH]; intros Hr; simpl.
  - now left.
  - destruct (py_index_in_range _ text i) as [c Hc];
      [apply Hr; now left|].
    rewrite Hc. destruct (test c).
    + right. exists i. split; [now left|reflexivity].
    + destruct IH as [IH|[j [Hj IH]]].
      * intros j Hj. apply Hr. now right.
      * now left.
      * right. exists j. split; [now right|assumption].
Qed.

(** One iteration with the default target of 500: the cut never raises;
    away from the end of the text it lies within 402..501 characters of
    [start], and on the final stretch it is [start + 500]. *)
Lemma chunk_end_bounds : forall text start,
  0 <= start ->
  exists e, chunk_end text 500 start = Ret e /\
    (start + 500 < len text -> start + 402 <= e <= start + 501) /\
    (len text <= start + 500 -> e = start + 500).
Proof.
  intros text start Hs. unfold chunk_end.
  destruct (start + 500 <? len text) eqn:E.
  - apply Z.ltb_lt in E.
    set (idx := range_down (start + 500) (Z.max (start + 500 - 100) start)).
    assert (Hidx : forall i, In i idx -> start + 400 < i <= start + 500).
    { intros i Hi. apply range_down_bounds in Hi. lia. }
    assert (Hin : forall i, In i idx -> 0 <= i < len text).
    { intros i Hi. apply Hidx in Hi. lia. }
    destruct (find_break_spec text is_sentence_end idx Hin) as [H1|[i [Hi H1]]];
      rewrite H1; simpl.
    + rewrite Z.eqb_refl.
      destruct (find_break_spec text is_newline idx Hin) as [H2|[j [Hj H2]]];
        rewrite H2; simpl.
      * eexists; split; [reflexivity|]. lia.
      * apply Hidx in Hj. eexists; split; [reflexivity|]. lia.
    + apply Hidx in Hi.
      destruct (i + 1 =? start + 500) eqn:E1.
      * destruct (find_break_spec text is_newline idx Hin) as [H2|[j [Hj H2]]];
          rewrite H2; simpl.
        -- eexists; split; [reflexivity|]. lia.
        -- apply Hidx in Hj. eexists; split; [reflexivity|]. lia.
      * eexists; split; [reflexivity|]. lia.
  - apply Z.ltb_ge in E. eexists; split; [reflexivity|]. lia.
Qed.

Lemma split_loop_mono : forall fuel text mcs ov start chunks r,
  split_loop fuel text mcs ov start chunks = Ret r ->
  forall fuel', (fuel <= fuel')%nat ->
  split_loop fuel' text mcs ov start chunks = Ret r.
Proof.
  induction fuel as [|fuel IH]; intros text mcs ov start chunks r H fuel' Hle.
  - discriminate.
  - destruct fuel' as [|fuel']; [lia|].
    simpl in *. destruct (start <? len text); [|assumption].
    destruct (chunk_end text mcs start) as [e| |]; simpl in *; try discriminate.
    destruct (len text <=? e - ov); [assumption|].
    apply IH with (fuel' := fuel') in H; [assumption|lia].
Qed.

Lemma split_loop_total : forall fuel text start chunks,
  0 <= start <= len text -> len text - start < Z.of_nat fuel ->
  exists r, split_loop fuel text 500 50 start chunks = Ret r.
Proof.
  induction fuel as [|fuel IH]; intros text start chunks [Hs Hl] Hf.
  - simpl in Hf. lia.
  - simpl. destruct (start <? len text) eqn:E; [|eauto].
    apply Z.ltb_lt in E.
    destruct (chunk_end_bounds text start Hs) as [e [He [Hfar Hnear]]].
    rewrite He. simpl.
    destruct (len text <=? e - 50) eqn:E2; [eauto|].
    apply Z.leb_gt in E2.
    apply IH.
    + destruct (Z_lt_le_dec (start + 500) (len text)) as [L|L];
        [specialize (Hfar L)|specialize (Hnear L)]; lia.
    + destruct (Z_lt_le_dec (start + 500) (len text)) as [L|L];
        [specialize (Hfar L)|specialize (Hnear L)]; lia.
Qed.

(** The chunk loop and the slice loop run in lock step. *)
Lemma split_loop_bounds : forall fuel text mcs ov start chunks,
  split_loop fuel text mcs ov start chunks =
  (bs <- split_bounds fuel text mcs ov start ;;
   Ret (fold_left (fun acc b => push_chunk text (fst b) (snd b) acc) bs chunks)).
Proof.
  induction fuel as [|fuel IH]; intros text mcs ov start chunks; simpl.
  - reflexivity.
  - destruct (start <? len text); [|reflexivity].
    destruct (chunk_end text mcs start) as [e| |]; simpl; try reflexivity.
    destruct (len text <=? e - ov); [reflexivity|].
    rewrite IH.
    destruct (split_bounds fuel text mcs ov (e - ov)); reflexivity.
Qed.

(** Every iteration moves [start] forward by at most 451 characters, so
    a text of [n] characters needs at least [n / 451] iterations. *)
Lemma split_bounds_count : forall fuel text start bs,
  0 <= start ->
  split_bounds fuel text 500 50 start = Ret bs ->
  len text <= start + 451 * len bs.
Proof.
  induction fuel as [|fuel IH]; intros text start bs Hs H; simpl in H.
  - discriminate.
  - destruct (start <? len text) eqn:E.
    + apply Z.ltb_lt in E.
      destruct (chunk_end_bounds text start Hs) as [e [He [Hfar Hnear]]].
      rewrite He in H. simpl in H.
      assert (Hb : start + 352 <= e - 50 <= start + 451).
      { destruct (Z_lt_le_dec (start + 500) (len text)) as [L|L];
          [specialize (Hfar L)|specialize (Hnear L)]; lia. }
      destruct (len text <=? e - 50) eqn:E2.
      * apply Z.leb_le in E2. injection H as <-. unfold len in *. simpl. lia.
      * destruct (split_bounds fuel text 500 50 (e - 50)) as [rest| |] eqn:R;
          simpl in H; try discriminate.
        injection H as <-.
        apply IH in R; [|lia].
        unfold len in *. simpl length. lia.
    + apply Z.ltb_ge in E. injection H as <-. unfold len in *. simpl. lia.
Qed.

Lemma split_bounds_total : forall fuel text start,
  0 <= start <= len text -> len text - start < Z.of_nat fuel ->
  exists bs, split_bounds fuel text 500 50 start = Ret bs.
Proof.
  intros fuel text start Hs Hf.
  destruct (split_loop_total fuel text start [] Hs Hf) as [r Hr].
  rewrite split_loop_bounds in Hr.
  destruct (split_bounds fuel text 500 50 start); try discriminate. eauto.
Qed.

(** With the defaults, a text of exactly 1050 characters is cut by
    exactly three iterations; each slice starts 50 characters before the
    end of the previous one and the last one runs to the end of the
    text. *)
Lemma split_bounds_1050 : forall text,
  len text = 1050 ->
  exists e1 e2,
    402 <= e1 <= 501 /\ e1 + 352 <= e2 <= e1 + 451 /\
    forall fuel, (3 <= fuel)%nat ->
      split_bounds fuel text 500 50 0 =
      Ret [(0, e1); (e1 - 50, e2); (e2 - 50, e2 + 450)].
Proof.
  intros text L.
  destruct (chunk_end_bounds text 0 ltac:(lia)) as [e1 [H1 [F1 _]]].
  specialize (F1 ltac:(lia)).
  destruct (chunk_end_bounds text (e1 - 50) ltac:(lia)) as [e2 [H2 [F2 _]]].
  specialize (F2 ltac:(lia)).
  destruct (chunk_end_bounds text (e2 - 50) ltac:(lia)) as [e3 [H3 [_ N3]]].
  specialize (N3 ltac:(lia)).
  exists e1, e2. split; [lia|]. split; [lia|].
  intros fuel Hf.
  destruct fuel as [|[|[|fuel]]]; try lia.
  cbn [split_bounds].
  replace (0 <? len text) with true by (symmetry; apply Z.ltb_lt; lia).
  rewrite H1. cbn [bind].
  replace (len text <=? e1 - 50) with false by (symmetry; apply Z.leb_gt; lia).
  replace (e1 - 50 <? len text) with true by (symmetry; apply Z.ltb_lt; lia).
  rewrite H2. cbn [bind].
  replace (len text <=? e2 - 50) with false by (symmetry; apply Z.leb_gt; lia).
  replace (e2 - 50 <? len text) with true by (symmetry; apply Z.ltb_lt; lia).
  rewrite H3. cbn [bind].
  replace (len text <=? e3 - 50) with true by (symmetry; apply Z.leb_le; lia).
  cbn [bind]. subst e3. do 4 f_equal. f_equal. lia.
Qed.

(** Stripping leaves a string without whitespace unchanged. *)
Definition no_space (s : pstr) : bool := forallb (fun c => negb (isspace c)) s.

Lemma lstrip_no_space : forall s, no_space s = true -> lstrip s = s.
Proof.
  intros [|c r] H; [reflexivity|]. simpl in *.
  apply andb_true_iff in H. destruct H as [Hc _].
  destruct (isspace c); [discriminate|reflexivity].
Qed.

Lemma no_space_rev : forall s, no_space s = true -> no_space (rev s) = true.
Proof.
  intros s H. unfold no_space in *. rewrite forallb_forall in *.
  intros c Hc. apply H. now apply in_rev.
Qed.

Lemma strip_no_space : forall s, no_space s = true -> strip s = s.
Proof.
  intros s H. unfold strip, rstrip.
  rewrite (lstrip_no_space s H).
  rewrite (lstrip_no_space (rev s) (no_space_rev s H)).
  apply rev_involutive.
Qed.

Lemma in_firstn : forall (A : Type) n (l : list A) x,
  In x (firstn n l) -> In x l.
Proof.
  intros A n l x H. rewrite <- (firstn_skipn n l). apply in_or_app. now left.
Qed.

Lemma in_skipn : forall (A : Type) n (l : list A) x,
  In x (skipn n l) -> In x l.
Proof.
  intros A n l x H. rewrite <- (firstn_skipn n l). apply in_or_app. now right.
Qed.

Lemma no_space_slice : forall s a b,
  no_space s = true -> no_space (py_slice s a b) = true.
Proof.
  intros s a b H. unfold no_space in *. rewrite forallb_forall in *.
  intros c Hc. apply H. unfold py_slice in Hc.
  apply in_firstn in Hc. now apply in_skipn in Hc.
Qed.

Lemma py_slice_nonempty : forall (s : pstr) a b,
  0 <= a -> a < b -> a < len s -> truthy (py_slice s a b) = true.
Proof.
  intros s a b Ha Hab Hl.
  assert (Hlen : (0 < length (py_slice s a b))%nat).
  { unfold py_slice. rewrite length_firstn, length_skipn.
    unfold clip, len in *.
    destruct (a <? 0) eqn:A; [apply Z.ltb_lt in A; lia|].
    destruct (b <? 0) eqn:B; [apply Z.ltb_lt in B; lia|].
    lia. }
  destruct (py_slice s a b); [simpl in Hlen; lia|reflexivity].
Qed.

Lemma push_chunk_no_space : forall text a b chunks,
  no_space text = true -> 0 <= a -> a < b -> a < len text ->
  push_chunk text a b chunks = chunks ++ [py_slice text a b].
Proof.
  intros text a b chunks H Ha Hab Hl. unfold push_chunk.
  rewrite (strip_no_space _ (no_space_slice text a b H)).
  now rewrite py_slice_nonempty.
Qed.

Lemma chunk_item_cap : forall E ge d sec al item tcs chunks idx,
  idx = len chunks -> idx <= MAX_CHUNKS_PER_DOCUMENT ->
  snd (chunk_item E ge d sec al item tcs chunks idx)
    = len (fst (chunk_item E ge d sec al item tcs chunks idx)) /\
  snd (chunk_item E ge d sec al item tcs chunks idx) <= MAX_CHUNKS_PER_DOCUMENT.
Proof.
  intros E ge d sec al item tcs.
  induction tcs as [|[i tc] rest IH]; intros chunks idx Hi Hc; simpl.
  - now split.
  - destruct (MAX_CHUNKS_PER_DOCUMENT <=? idx) eqn:E1; [now split|].
    apply Z.leb_gt in E1.
    destruct (negb (truthy (strip tc))); [now apply IH|].
    destruct (ge tc); [|now apply IH].
    apply IH; [|lia].
    unfold len in *. rewrite length_app. simpl. lia.
Qed.

Lemma chunk_content_cap : forall E ge d sec al content chunks idx r,
  idx = len chunks -> idx <= MAX_CHUNKS_PER_DOCUMENT ->
  chunk_content E ge d sec al content chunks idx = Some r ->
  len (fst r) <= MAX_CHUNKS_PER_DOCUMENT.
Proof.
  intros E ge d sec al content.
  induction content as [|item rest IH]; intros chunks idx r Hi Hc H; simpl in H.
  - injection H as <-. simpl. lia.
  - destruct (MAX_CHUNKS_PER_DOCUMENT <=? idx); [injection H as <-; simpl; lia|].
    destruct (negb (truthy (strip (ci_content item)))); [eapply IH; eauto|].
    destruct (_split_text_into_chunks (ci_content item)) as [tcs| |];
      try discriminate.
    pose proof (chunk_item_cap E ge d sec al item (enumerate tcs) chunks idx Hi Hc)
      as [P1 P2].
    destruct (chunk_item E ge d sec al item (enumerate tcs) chunks idx)
      as [chunks' idx'].
    simpl in P1, P2. eapply IH; eauto.
Qed.

(** The per-document cap: chunk creation never returns more than 200
    chunks. *)
Lemma create_chunks_cap : forall E ge d sec al content chunks,
  _create_chunks_from_content E ge d sec al content = Some chunks ->
  len chunks <= 200.
Proof.
  intros E ge d sec al content chunks H.
  unfold _create_chunks_from_content in H.
  destruct (negb (truthy content)); [discriminate|].
  destruct (chunk_content E ge d sec al content [] 0) as [r|] eqn:R;
    [|discriminate].
  simpl in H. injection H as <-.
  eapply chunk_content_cap in R; [exact R|reflexivity|].
  unfold MAX_CHUNKS_PER_DOCUMENT. lia.
Qed.

(** The splitter of the parser module does enforce the iteration cap. *)
Lemma parser_split_loop_capped :
  forall remaining text mcs ov start chunks it r,
  parser_split_loop remaining text mcs ov start chunks it = Ret r ->
  snd r <= it + Z.of_nat remaining.
Proof.
  induction remaining as [|remaining IH]; intros text mcs ov start chunks it r H;
    simpl in H.
  - injection H as <-. simpl. lia.
  - destruct (start <? len text); [|injection H as <-; simpl; lia].
    destruct (chunk_end text mcs start) as [e| |]; simpl in H; try discriminate.
    destruct ((len text <=? e - ov) || (e - ov <=? 0));
      [injection H as <-; simpl; lia|].
    match type of H with (if ?c then _ else _) = _ => destruct c end;
      [injection H as <-; simpl; lia|].
    apply IH in H. lia.
Qed.

Lemma parser_split_capped : forall text mcs ov chunks n,
  parser_split_text_into_chunks text mcs ov = Ret (chunks, n) ->
  n <= 1000.
Proof.
  intros text mcs ov chunks n H. unfold parser_split_text_into_chunks in H.
  destruct (len text <=? mcs); [injection H as _ <-; lia|].
  destruct (parser_split_loop MAX_ITERATIONS text mcs ov 0 [] 0) as [r| |] eqn:R;
    simpl in H; try discriminate.
  injection H as _ <-.
  apply parser_split_loop_capped in R. unfold MAX_ITERATIONS in R. lia.
Qed.

Lemma len_long_block : len long_block = 451001.
Proof.
  unfold len, long_block. rewrite repeat_length. apply Z2Nat.id. lia.
Qed.

(** C7 (the iteration cap is missing on this path): on a parsed
    document whose single text block has 451001 characters, the split
    loop of the processor runs through more than 1000 iterations; it has
    neither the 1000-iteration cap nor the minimal-progress abort that
    the splitter of the parser module carries. *)
Theorem split_iterations_exceed_cap :
  exists n, split_iterations long_block = Ret n /\ 1000 < n.
Proof.
  pose proof len_long_block as L.
  destruct (split_bounds_total (S (length long_block)) long_block 0)
    as [bs Hbs].
  - lia.
  - unfold len in *. lia.
  - unfold split_iterations.
    replace (len long_block <=? 500) with false
      by (symmetry; apply Z.leb_gt; lia).
    rewrite Hbs. cbn [bind].
    exists (len bs). split; [reflexivity|].
    apply split_bounds_count in Hbs; lia.
Qed.

(** C9: the split loop needs no iteration counter.  From every start
    position an iteration yields a cut (it never raises) that moves
    [start] forward by at least 351 characters, and by at least 450 on
    the final stretch; consequently the splitter returns a result on
    every input, the same for every amount of fuel above the length of
    the text. *)
Theorem split_total_without_counter : forall text : pstr,
  (forall s : nat, exists e,
     chunk_end text 500 (Z.of_nat s) = Ret e /\
     Z.of_nat s + 351 <= e - 50 /\
     (len text <= Z.of_nat s + 500 -> Z.of_nat s + 450 <= e - 50)) /\
  (exists chunks,
     _split_text_into_chunks text = Ret chunks /\
     forall fuel, (length text < fuel)%nat ->
       _split_text_into_chunks_fuel fuel text 500 50 = Ret chunks).
Proof.
  intros text. split.
  - intros s.
    destruct (chunk_end_bounds text (Z.of_nat s) ltac:(lia)) as [e [He [F N]]].
    exists e. split; [exact He|].
    destruct (Z_lt_le_dec (Z.of_nat s + 500) (len text)) as [L|L].
    + specialize (F L). lia.
    + specialize (N L). lia.
  - unfold _split_text_into_chunks, _split_text_into_chunks_fuel.
    destruct (len text <=? 500) eqn:E.
    + exists [text]. split; [reflexivity|]. intros; reflexivity.
    + pose proof (len_nonneg text) as Hn.
      destruct (split_loop_total (S (length text)) text 0 []) as [r Hr].
      * lia.
      * unfold len. lia.
      * exists r. split; [exact Hr|].
        intros fuel Hf. eapply split_loop_mono; [exact Hr|lia].
Qed.

Lemma split_total_without_counter_witness :
  exists e,
    chunk_end padded_block 500 (Z.of_nat 900) = Ret e /\
    Z.of_nat 900 + 450 <= e - 50.
Proof.
  destruct (proj1 (split_total_without_counter padded_block) 900%nat)
    as [e [H1 [_ H3]]].
  exists e. split; [exact H1|]. apply H3. vm_compute. discriminate.
Defined.

(** C6, as amended: with the defaults a 499-character text comes back
    as one chunk equal to the input; a 1050-character text is cut into
    exactly three slices, each starting 50 characters before the end of
    the previous one, and the result is the list of the stripped
    non-empty slices in order: at most three chunks, and exactly the
    three slices when the text holds no whitespace. *)
Theorem split_499_one_chunk_1050_three_slices : forall t1 t2 : pstr,
  len t1 = 499 -> len t2 = 1050 ->
  _split_text_into_chunks t1 = Ret [t1] /\
  exists e1 e2,
    402 <= e1 <= 501 /\ e1 + 352 <= e2 <= e1 + 451 /\
    split_bounds (S (length t2)) t2 500 50 0
      = Ret [(0, e1); (e1 - 50, e2); (e2 - 50, e2 + 450)] /\
    _split_text_into_chunks t2
      = Ret (chunks_of_bounds t2 [(0, e1); (e1 - 50, e2); (e2 - 50, e2 + 450)]) /\
    len (chunks_of_bounds t2 [(0, e1); (e1 - 50, e2); (e2 - 50, e2 + 450)]) <= 3 /\
    (no_space t2 = true ->
     chunks_of_bounds t2 [(0, e1); (e1 - 50, e2); (e2 - 50, e2 + 450)]
       = [py_slice t2 0 e1; py_slice t2 (e1 - 50) e2;
          py_slice t2 (e2 - 50) (e2 + 450)]).
Proof.
  intros t1 t2 L1 L2. split.
  - unfold _split_text_into_chunks, _split_text_into_chunks_fuel.
    replace (len t1 <=? 500) with true by (symmetry; apply Z.leb_le; lia).
    reflexivity.
  - destruct (split_bounds_1050 t2 L2) as [e1 [e2 [B1 [B2 Hb]]]].
    exists e1, e2. split; [exact B1|]. split; [exact B2|].
    assert (Hf : (3 <= S (length t2))%nat) by (unfold len in L2; lia).
    split; [apply Hb, Hf|].
    split.
    + unfold _split_text_into_chunks, _split_text_into_chunks_fuel.
      replace (len t2 <=? 500) with false by (symmetry; apply Z.leb_gt; lia).
      rewrite split_loop_bounds, (Hb _ Hf). reflexivity.
    + split.
      * unfold chunks_of_bounds, push_chunk. cbn [fold_left fst snd].
        repeat match goal with
        | |- context [if truthy ?c then _ else _] => destruct (truthy c)
        end; unfold len; repeat rewrite length_app; simpl; lia.
      * intros Hs. unfold chunks_of_bounds. cbn [fold_left fst snd].
        rewrite !push_chunk_no_space by (auto; lia). reflexivity.
Qed.

Lemma split_499_one_chunk_1050_three_slices_witness :
  _split_text_into_chunks (repeat 97%N 499) = Ret [repeat 97%N 499].
Proof.
  exact (proj1 (split_499_one_chunk_1050_three_slices
                  (repeat 97%N 499) (repeat 97%N 1050) eq_refl eq_refl)).
Defined.

(** C6, counterexample: a 1050-character text made of one letter and
    1049 blanks yields a single chunk, fewer than three. *)
Lemma split_1050_padded_one_chunk :
  exists chunks,
    _split_text_into_chunks padded_block = Ret chunks /\
    len padded_block = 1050 /\ len chunks < 3.
Proof.
  exists [[97%N]]. split; [vm_compute; reflexivity|].
  split; [reflexivity|reflexivity].
Qed.

End ChunkerFacts.

(* ================================================================== *)
(** * Vector adapter ([services/vector_service.py]) *)
(* ================================================================== *)

Module VectorService.

Open Scope Q_scope.

(** A scored point: the payload written by the indexer together with
    the similarity score of the point for the query at hand. *)
Record Hit : Type := {
  h_score : Q;
  h_document_id : Z;
  h_chunk_id : pstr;
  h_content : pstr;
  h_section : pstr;
  h_access_level : pstr;
  h_chunk_type : pstr;
  h_page_number : option Z;
  h_section_name : option pstr;
  h_has_metadata : bool;
  h_content_length : Z
}.

(** The [filters] dictionary, restricted to the keys the retrieval
    engine sets. *)
Record Filters : Type := {
  f_section : option pstr;
  f_access_level : option pstr
}.

Definition no_filters : Filters :=
  {| f_section := None; f_access_level := None |}.

Definition match_field (want : option pstr) (have : pstr) : bool :=
  match want with
  | None => true
  | Some v => pstr_eqb v have
  end.

(** The conjunction of exact-match conditions built from [filters]. *)
Definition matches (flt : Filters) (h : Hit) : bool :=
  match_field (f_section flt) (h_section h)
  && match_field (f_access_level flt) (h_access_level h).

Section Adapter.

(** Query vectors and the store.  [ann_candidates qv flt] is what the
    index proposes for a query, best first, or a failure of the call;
    the store then answers with the candidates that satisfy the
    [must] conditions and the score threshold, cut to the limit. *)
Variable Vector : Type.
Variable ann_candidates : Vector -> Filters -> res (list Hit).

(** [str.isalnum] for one character (Unicode database). *)
Variable isalnum : pchar -> bool.

Definition client_search (qv : Vector) (limit : Z) (score_threshold : Q)
  (flt : Filters) : res (list Hit) :=
  cands <- ann_candidates qv flt ;;
  Ret (firstn (Z.to_nat limit)
         (filter (fun h => matches flt h && Qle_bool score_threshold (h_score h))
                 cands)).

(** [sum(1 for c in content if not c.isalnum() and not c.isspace())] *)
Definition special_chars (content : pstr) : Z :=
  len (filter (fun c => negb (isalnum c) && negb (isspace c)) content).

(** Step 1 of the smart filter: the three [continue] tests. *)
Definition keep_result (score_threshold : Q) (h : Hit) : bool :=
  if (len (strip (h_content h)) <? 20)%Z then false
  else if Qltb (h_score h) (score_threshold * 0.9) then false
  else if Qltb (inject_Z (len (h_content h)) * 0.3)
               (inject_Z (special_chars (h_content h))) then false
  else true.

(** Step 2: [document_chunks], a dictionary in insertion order. *)
Fixpoint group_add (h : Hit) (groups : list (Z * list Hit))
  : list (Z * list Hit) :=
  match groups with
  | [] => [(h_document_id h, [h])]
  | (d, hs) :: rest =>
    if (d =? h_document_id h)%Z then (d, hs ++ [h]) :: rest
    else (d, hs) :: group_add h rest
  end.

Definition group_by_document (hs : list Hit) : list (Z * list Hit) :=
  fold_left (fun groups h => group_add h groups) hs [].

Definition best_three (groups : list (Z * list Hit)) : list Hit :=
  flat_map (fun g => firstn 3 (sorted_desc h_score (snd g))) groups.

(** Step 3: [calculate_quality_score]. *)
Definition calculate_quality_score (h : Hit) : Q :=
  let length_bonus :=
    if ((100 <=? h_content_length h) && (h_content_length h <=? 500))%Z then 0.1
    else if (500 <? h_content_length h)%Z then - 0.05
    else 0 in
  let type_bonus := if pstr_eqb (h_chunk_type h) (py "text") then 0.05 else 0 in
  let metadata_bonus := if h_has_metadata h then 0.02 else 0 in
  h_score h + length_bonus + type_bonus + metadata_bonus.

Definition _smart_filter_and_rank_results (search_result : list Hit)
  (limit : Z) (score_threshold : Q) : list Hit :=
  if negb (truthy search_result) then []
  else
    let filtered_results := filter (keep_result score_threshold) search_result in
    let deduplicated_results := best_three (group_by_document filtered_results) in
    py_take (sorted_desc calculate_quality_score deduplicated_results) limit.

Definition search_similar (qv : Vector) (limit : Z) (score_threshold : Q)
  (flt : Filters) : res (list Hit) :=
  let initial_limit := Z.min (limit * 3) 50 in
  search_result <- client_search qv initial_limit (score_threshold * 0.8) flt ;;
  Ret (_smart_filter_and_rank_results search_result limit score_threshold).

End Adapter.

End VectorService.

(* ================================================================== *)
(** * Access evaluation ([config.py], [services/access_control_service.py]) *)
(* ================================================================== *)

Module AccessControl.

Definition restaurant_ops : pstr := py "restaurant_ops".
Definition procedures : pstr := py "procedures".
Definition standards : pstr := py "standards".

Definition restaurant_management : pstr := py "restaurant_management".
Definition kitchen_management : pstr := py "kitchen_management".
Definition concepts_recipes : pstr := py "concepts_recipes".

(** [dict.get(key)] on an association list. *)
Fixpoint lookup {V : Type} (key : pstr) (d : list (pstr * V)) : option V :=
  match d with
  | [] => None
  | (k, v) :: rest => if pstr_eqb k key then Some v else lookup key rest
  end.

(** [settings.access_levels] *)
Definition access_levels : list (pstr * list pstr) :=
  [ (restaurant_management, [restaurant_ops; procedures; standards]);
    (kitchen_management, [restaurant_ops; procedures; standards]);
    (concepts_recipes, [restaurant_ops; procedures; standards]) ].

(** [settings.detailed_access_levels] *)
Definition detailed_access_levels : list (pstr * list (pstr * pstr)) :=
  [ (restaurant_management,
       [ (restaurant_ops, py "full"); (standards, py "read_only");
         (procedures, py "read_only") ]);
    (kitchen_management,
       [ (restaurant_ops, py "none"); (standards, py "full");
         (procedures, py "full") ]);
    (concepts_recipes,
       [ (restaurant_ops, py "none"); (standards, py "read_only");
         (procedures, py "full") ]) ].

Definition check_section_access (subscription_type section required_access : pstr)
  : bool :=
  match lookup subscription_type detailed_access_levels with
  | None => false
  | Some user_access =>
    match lookup section user_access with
    | None => false
    | Some section_access =>
      if pstr_eqb section_access (py "none") then false
      else if pstr_eqb section_access (py "full") then true
      else if pstr_eqb section_access (py "read_only")
      then pstr_eqb required_access (py "read_only")
           || pstr_eqb required_access (py "read")
      else false
    end
  end.

Definition get_user_sections (subscription_type : pstr) : list pstr :=
  match lookup subscription_type access_levels with
  | Some sections => sections
  | None => []
  end.

End AccessControl.

(* ================================================================== *)
(** * Retrieval engine ([main.py]) *)
(* ================================================================== *)

Module Retrieval.
Import VectorService AccessControl.

Open Scope Q_scope.

(** The response record.  [chunk_id] carries the payload value; the
    integer coercion applied by the response schema is injective on the
    ids the indexer assigns within one document and is not modelled. *)
Record DocumentSearchResult : Type := {
  document_id : Z;
  chunk_id : pstr;
  content : pstr;
  score : Q;
  section : pstr;
  access_level : pstr;
  chunk_type : pstr;
  page_number : option Z;
  section_name : option pstr;
  has_metadata : bool
}.

Definition to_search_result (h : Hit) : DocumentSearchResult :=
  {| document_id := h_document_id h;
     chunk_id := h_chunk_id h;
     content := h_content h;
     score := h_score h;
     section := h_section h;
     access_level := h_access_level h;
     chunk_type := h_chunk_type h;
     page_number := h_page_number h;
     section_name := h_section_name h;
     has_metadata := h_has_metadata h |}.

(** Truthiness of an [Optional[str]]. *)
Definition opt_truthy (s : option pstr) : bool :=
  match s with
  | Some (_ :: _) => true
  | _ => false
  end.

(** [x in l] for strings. *)
Definition str_in (x : pstr) (l : list pstr) : bool := existsb (pstr_eqb x) l.

(** [filters['access_level'] = access_level] when [access_level] is
    truthy. *)
Definition with_access_level (al : option pstr) (flt : Filters) : Filters :=
  if opt_truthy al
  then {| f_section := f_section flt; f_access_level := al |}
  else flt.

Definition with_section (s : pstr) (flt : Filters) : Filters :=
  {| f_section := Some s; f_access_level := f_access_level flt |}.

(** A [try: ... except Exception: return []] around a pass. *)
Definition or_empty {A : Type} (r : res (list A)) : list A :=
  match r with
  | Ret l => l
  | _ => []
  end.

Section Engine.

Variable Vector : Type.
(** The embedding provider; [None] when the call raises. *)
Variable get_embeddings : pstr -> option Vector.
Variable ann_candidates : Vector -> Filters -> res (list Hit).
Variable isalnum : pchar -> bool.

Definition embed (query : pstr) : res Vector :=
  match get_embeddings query with
  | Some v => Ret v
  | None => Raise ProviderError
  end.

Definition _perform_section_search (query target_section : pstr)
  (al : option pstr) (limit : Z) (score_threshold : Q)
  : list DocumentSearchResult :=
  or_empty (
    query_embedding <- embed query ;;
    let filters := with_access_level al (with_section target_section no_filters) in
    let adjusted_score_threshold := py_max score_threshold 0.6 in
    raw_results <- search_similar Vector ann_candidates isalnum query_embedding
                     (limit * 2) adjusted_score_threshold filters ;;
    let search_results := map to_search_result raw_results in
    Ret (py_take (sorted_desc score search_results) limit)).

(** The body of [for section in user_sections] in the fallback pass: a
    failing search is skipped. *)
Definition fallback_one (query_embedding : Vector) (filters : Filters)
  (per_section_limit : Z) (score_threshold : Q) (s : pstr)
  : list DocumentSearchResult :=
  or_empty (
    section_results <- search_similar Vector ann_candidates isalnum query_embedding
                         per_section_limit score_threshold
                         (with_section s filters) ;;
    Ret (map to_search_result section_results)).

Definition _perform_fallback_search (query : pstr) (al : option pstr)
  (limit : Z) (score_threshold : Q) (user_sections : list pstr)
  : list DocumentSearchResult :=
  or_empty (
    query_embedding <- embed query ;;
    let filters := with_access_level al no_filters in
    if truthy user_sections then
      let all_results :=
        flat_map (fallback_one query_embedding filters
                    (limit / len user_sections)%Z score_threshold)
                 user_sections in
      Ret (py_take (sorted_desc score all_results) limit)
    else
      raw_results <- search_similar Vector ann_candidates isalnum query_embedding
                       limit score_threshold filters ;;
      Ret (map to_search_result raw_results)).

(** [unique_results]: a dictionary keyed by [(document_id, chunk_id)],
    in insertion order, keeping the result with the larger score. *)
Definition same_key (a b : DocumentSearchResult) : bool :=
  (document_id a =? document_id b)%Z && pstr_eqb (chunk_id a) (chunk_id b).

Fixpoint unique_add (r : DocumentSearchResult)
  (unique_results : list DocumentSearchResult) : list DocumentSearchResult :=
  match unique_results with
  | [] => [r]
  | u :: rest =>
    if same_key u r then (if Qltb (score u) (score r) then r else u) :: rest
    else u :: unique_add r rest
  end.

Definition deduplicate (all_results : list DocumentSearchResult)
  : list DocumentSearchResult :=
  fold_left (fun unique_results r => unique_add r unique_results) all_results [].

(** [any(result.score > score_threshold * 0.8 for result in results)] *)
Definition any_good (score_threshold : Q) (results : list DocumentSearchResult)
  : bool :=
  existsb (fun r => Qltb (score_threshold * 0.8) (score r)) results.

(** Steps 2 and 3 of [search_documents_internal], reached with the
    current values of [section] and [section_results]. *)
Definition fallback_and_merge (query : pstr) (section : option pstr)
  (section_results : list DocumentSearchResult) (al : option pstr)
  (limit : Z) (score_threshold : Q) (user_sections : list pstr)
  (strict_section_search : bool) : list DocumentSearchResult :=
  if negb strict_section_search && truthy user_sections then
    let fallback_results :=
      _perform_fallback_search query al (limit * 2) (score_threshold * 0.6)
        user_sections in
    let all_results := section_results ++ fallback_results in
    py_take (sorted_desc score (deduplicate all_results)) limit
  else
    if strict_section_search
       && match section with
          | Some s => opt_truthy section && negb (str_in s user_sections)
          | None => false
          end
    then []
    else
      let all_results := section_results in
      py_take (sorted_desc score (deduplicate all_results)) limit.

Definition search_documents_internal (query : pstr) (section : option pstr)
  (al : option pstr) (limit : Z) (score_threshold : Q)
  (user_sections : list pstr) (strict_section_search : bool)
  : list DocumentSearchResult :=
  match section with
  | Some s =>
    if opt_truthy section then
      if str_in s user_sections then
        let section_results :=
          _perform_section_search query s al limit score_threshold in
        if negb (truthy section_results) then
          if strict_section_search then []
          else fallback_and_merge query None section_results al limit
                 score_threshold user_sections strict_section_search
        else
          if strict_section_search then py_take section_results limit
          else if any_good score_threshold section_results
          then py_take section_results limit
          else fallback_and_merge query section section_results al limit
                 score_threshold user_sections strict_section_search
      else
        if strict_section_search then []
        else fallback_and_merge query None [] al limit score_threshold
               user_sections strict_section_search
    else fallback_and_merge query section [] al limit score_threshold
           user_sections strict_section_search
  | None => fallback_and_merge query None [] al limit score_threshold
              user_sections strict_section_search
  end.

(** *** The two endpoints that call the engine *)

(** The fields of a search request the retrieval step reads. *)
Record DocumentSearchRequest : Type := {
  sr_query : pstr;
  sr_section : option pstr;
  sr_access_level : option pstr;
  sr_limit : Z;
  sr_score_threshold : Q;
  sr_strict_section_search : bool
}.

(** [a or b] on optional strings. *)
Definition opt_or (a b : option pstr) : option pstr :=
  if opt_truthy a then a else b.

(** The retrieval step of [POST /search] for a valid token whose access
    level is [token_access_level]. *)
Definition search_documents (request : DocumentSearchRequest)
  (token_access_level : option pstr) : list DocumentSearchResult :=
  let user_sections :=
    match token_access_level with
    | Some level => get_user_sections level
    | None => []
    end in
  let strict_search :=
    sr_strict_section_search request || opt_truthy (sr_section request) in
  search_documents_internal (sr_query request) (sr_section request)
    (opt_or (sr_access_level request) token_access_level)
    (sr_limit request) (sr_score_threshold request)
    user_sections strict_search.

(** The sections every role may read on the chat path. *)
Definition chat_user_sections : list pstr :=
  [restaurant_ops; procedures; standards].

(** The retrieval step of [POST /chat] on the branch that performs a
    new search (no context reuse), for a message without images. *)
Definition chat_new_search (message : pstr)
  (request_section request_context : option pstr)
  (token_access_level : option pstr) : list DocumentSearchResult :=
  let user_sections := chat_user_sections in
  let target_section :=
    if opt_truthy request_section then request_section
    else match request_context with
         | Some c => if opt_truthy request_context && str_in c user_sections
                     then request_context else None
         | None => None
         end in
  let '(strict_search, score_threshold, limit) :=
    if opt_truthy request_section then (false, 0.5, 8%Z)
    else (false, 0.6, 6%Z) in
  search_documents_internal message target_section token_access_level
    limit score_threshold user_sections strict_search.

End Engine.

(** *** A small index used in the examples *)

(** [str.isalnum] restricted to ASCII letters and digits; the example
    contents below are ASCII. *)
Definition ascii_isalnum (c : pchar) : bool :=
  ((48 <=? c) && (c <=? 57) || (65 <=? c) && (c <=? 90)
   || (97 <=? c) && (c <=? 122))%N.

Definition mk_hit (s : Q) (doc : Z) (cid text sec level : pstr) : Hit :=
  {| h_score := s; h_document_id := doc; h_chunk_id := cid;
     h_content := text; h_section := sec; h_access_level := level;
     h_chunk_type := py "text"; h_page_number := Some 1%Z;
     h_section_name := None; h_has_metadata := true;
     h_content_length := len text |}.

(** A chunk uploaded by a restaurant manager into [restaurant_ops]. *)
Definition ops_manual : Hit :=
  mk_hit 0.9 1 (py "1_0")
    (py "Opening checklist for the dining room and the bar")
    restaurant_ops restaurant_management.

(** A chunk uploaded by a kitchen manager into [procedures]. *)
Definition storage_rules : Hit :=
  mk_hit 0.65 2 (py "2_0")
    (py "Milk is stored at two to four degrees")
    procedures kitchen_management.

Definition demo_index (_ : unit) (_ : Filters) : res (list Hit) :=
  Ret [ops_manual; storage_rules].

(** A chunk of [restaurant_ops] indexed with access level
    [kitchen_management], and an index that holds it. *)
Definition ops_note : Hit :=
  mk_hit 0.8 3 (py "3_0")
    (py "Closing routine for the terrace and the cash desk")
    restaurant_ops kitchen_management.

Definition mixed_index (_ : unit) (_ : Filters) : res (list Hit) :=
  Ret [ops_manual; storage_rules; ops_note].

Definition demo_embed (_ : pstr) : option unit := Some tt.

(** A search request without target section, strictness off, asking
    for the chunks of access level [restaurant_management]. *)
Definition open_request : DocumentSearchRequest :=
  {| sr_query := py "opening checklist";
     sr_section := None;
     sr_access_level := Some restaurant_management;
     sr_limit := 10%Z;
     sr_score_threshold := 0.7;
     sr_strict_section_search := false |}.

End Retrieval.

(* ------------------------------------------------------------------ *)
(** ** Properties of the adapter and of the engine *)

Module RetrievalFacts.
Import VectorService AccessControl Retrieval ChunkerFacts.

Open Scope Q_scope.

Lemma pstr_eqb_true : forall a b, pstr_eqb a b = true -> a = b.
Proof.
  intros a b H. unfold pstr_eqb in H.
  destruct (list_eq_dec N.eq_dec a b); [assumption|discriminate].
Qed.

Lemma pstr_eqb_refl : forall a, pstr_eqb a a = true.
Proof.
  intros a. unfold pstr_eqb.
  destruct (list_eq_dec N.eq_dec a a); [reflexivity|contradiction].
Qed.

Lemma str_in_In : forall x l, str_in x l = true -> In x l.
Proof.
  intros x l H. unfold str_in in H. apply existsb_exists in H.
  destruct H as [y [Hy E]]. apply pstr_eqb_true in E. now subst.
Qed.

(** *** Sorting, slicing and de-duplication only rearrange or drop *)

Lemma in_insert_desc : forall (A : Type) (key : A -> Q) x y l,
  In x (insert_desc key y l) -> x = y \/ In x l.
Proof.
  intros A key x y l. induction l as [|z r IH]; simpl; intros H.
  - destruct H as [H|[]]; auto.
  - destruct (Qltb (key y) (key z)); simpl in H.
    + destruct H as [H|H]; [auto|]. apply IH in H. tauto.
    + destruct H as [H|H]; auto.
Qed.

Lemma in_sorted_desc : forall (A : Type) (key : A -> Q) x l,
  In x (sorted_desc key l) -> In x l.
Proof.
  intros A key x l. induction l as [|y r IH]; simpl; intros H; [assumption|].
  apply in_insert_desc in H. destruct H as [H|H]; auto.
Qed.

Lemma in_py_slice : forall (A : Type) (l : list A) a b x,
  In x (py_slice l a b) -> In x l.
Proof.
  intros A l a b x H. unfold py_slice in H.
  apply in_firstn in H. now apply in_skipn in H.
Qed.

Lemma in_py_take : forall (A : Type) (l : list A) n x,
  In x (py_take l n) -> In x l.
Proof. intros A l n x. apply in_py_slice. Qed.

Lemma py_take_nil : forall (A : Type) n, py_take (@nil A) n = [].
Proof.
  intros A n. unfold py_take, py_slice.
  rewrite skipn_nil. apply firstn_nil.
Qed.

Lemma in_unique_add : forall r u x,
  In x (unique_add r u) -> x = r \/ In x u.
Proof.
  intros r u x. induction u as [|v rest IH]; simpl; intros H.
  - destruct H as [H|[]]; auto.
  - destruct (same_key v r); simpl in H.
    + destruct (Qltb (score v) (score r)); destruct H as [H|H]; auto.
    + destruct H as [H|H]; [auto|]. apply IH in H. tauto.
Qed.

Lemma in_fold_unique_add : forall l acc x,
  In x (fold_left (fun u r => unique_add r u) l acc) -> In x acc \/ In x l.
Proof.
  induction l as [|r l IH]; simpl; intros acc x H; [auto|].
  apply IH in H. destruct H as [H|H]; [|auto].
  apply in_unique_add in H. destruct H as [H|H]; auto.
Qed.

Lemma in_deduplicate : forall l x, In x (deduplicate l) -> In x l.
Proof.
  intros l x H. unfold deduplicate in H.
  apply in_fold_unique_add in H. destruct H as [[]|H]; assumption.
Qed.

(** *** The smart filter *)

Lemma in_group_add : forall h groups g x,
  In g (group_add h groups) -> In x (snd g) ->
  x = h \/ exists g', In g' groups /\ In x (snd g').
Proof.
  intros h groups. induction groups as [|[d hs] rest IH]; simpl; intros g x Hg Hx.
  - destruct Hg as [<-|[]]. simpl in Hx. destruct Hx as [Hx|[]]; auto.
  - destruct (d =? h_document_id h)%Z; simpl in Hg.
    + destruct Hg as [<-|Hg].
      * simpl in Hx. apply in_app_or in Hx. destruct Hx as [Hx|[Hx|[]]]; auto.
        right. exists (d, hs). auto.
      * right. exists g. auto.
    + destruct Hg as [<-|Hg].
      * right. exists (d, hs). auto.
      * destruct (IH g x Hg Hx) as [E|[g' [Hg' Hx']]]; [auto|].
        right. exists g'. auto.
Qed.

Lemma in_fold_group_add : forall hs acc g x,
  In g (fold_left (fun groups h => group_add h groups) hs acc) ->
  In x (snd g) ->
  In x hs \/ exists g', In g' acc /\ In x (snd g').
Proof.
  induction hs as [|h hs IH]; simpl; intros acc g x Hg Hx.
  - right. exists g. auto.
  - destruct (IH _ g x Hg Hx) as [H|[g' [Hg' Hx']]]; [auto|].
    destruct (in_group_add h acc g' x Hg' Hx') as [E|H]; auto.
Qed.

Lemma in_best_three : forall hs x,
  In x (best_three (group_by_document hs)) -> In x hs.
Proof.
  intros hs x H. unfold best_three in H. apply in_flat_map in H.
  destruct H as [g [Hg Hx]].
  apply in_firstn in Hx. apply in_sorted_desc in Hx.
  unfold group_by_document in Hg.
  destruct (in_fold_group_add hs [] g x Hg Hx) as [H|[g' [[] _]]].
  assumption.
Qed.

Lemma in_smart_filter : forall isalnum search_result limit t x,
  In x (_smart_filter_and_rank_results isalnum search_result limit t) ->
  In x search_result /\ keep_result isalnum t x = true.
Proof.
  intros isalnum sr limit t x H. unfold _smart_filter_and_rank_results in H.
  destruct (negb (truthy sr)); [destruct H|].
  apply in_py_take, in_sorted_desc, in_best_three in H.
  now apply filter_In in H.
Qed.

Lemma in_search_similar : forall V ann isalnum qv limit t flt hits x,
  search_similar V ann isalnum qv limit t flt = Ret hits ->
  In x hits ->
  matches flt x = true /\ keep_result isalnum t x = true.
Proof.
  intros V ann isalnum qv limit t flt hits x H Hx.
  unfold search_similar, client_search in H.
  destruct (ann qv flt) as [cands| |]; simpl in H; try discriminate.
  injection H as <-.
  apply in_smart_filter in Hx. destruct Hx as [Hx Hk]. split; [|exact Hk].
  apply in_firstn in Hx. apply filter_In in Hx. destruct Hx as [_ Hx].
  now apply andb_true_iff in Hx.
Qed.


Lemma lstrip_length : forall s, (length (lstrip s) <= length s)%nat.
Proof.
  induction s as [|c r IH]; simpl; [lia|].
  destruct (isspace c); simpl; lia.
Qed.

Lemma strip_length : forall s, (len (strip s) <= len s)%Z.
Proof.
  intros s. unfold strip, rstrip, len.
  rewrite length_rev.
  pose proof (lstrip_length (rev (lstrip s))) as H1.
  rewrite length_rev in H1.
  pose proof (lstrip_length s). lia.
Qed.



(** *** Sections of the results of the two passes *)

Lemma with_access_level_section : forall al flt,
  f_section (with_access_level al flt) = f_section flt.
Proof. intros al flt. unfold with_access_level. now destruct (opt_truthy al). Qed.

Lemma matches_section : forall flt s h,
  f_section flt = Some s -> matches flt h = true -> h_section h = s.
Proof.
  intros flt s h E H. unfold matches in H. rewrite E in H. simpl in H.
  apply andb_true_iff in H. destruct H as [H _].
  symmetry. now apply pstr_eqb_true.
Qed.

Lemma section_search_section : forall V ge ann isalnum q s al limit t r,
  In r (_perform_section_search V ge ann isalnum q s al limit t) ->
  section r = s.
Proof.
  intros V ge ann isalnum q s al limit t r H.
  unfold _perform_section_search, embed in H.
  destruct (ge q) as [qv|]; simpl in H; [|destruct H].
  match type of H with context [search_similar ?a ?b ?c ?d ?e ?f ?g] =>
    destruct (search_similar a b c d e f g) as [raw| |] eqn:S
  end; simpl in H; try destruct H.
  apply in_py_take, in_sorted_desc, in_map_iff in H.
  destruct H as [h [<- Hh]].
  destruct (in_search_similar _ _ _ _ _ _ _ _ h S Hh) as [M _].
  simpl. eapply matches_section; [|exact M].
  now rewrite with_access_level_section.
Qed.

Lemma fallback_one_section : forall V ann isalnum qv flt lim t s r,
  In r (fallback_one V ann isalnum qv flt lim t s) -> section r = s.
Proof.
  intros V ann isalnum qv flt lim t s r H. unfold fallback_one in H.
  match type of H with context [search_similar ?a ?b ?c ?d ?e ?f ?g] =>
    destruct (search_similar a b c d e f g) as [raw| |] eqn:S
  end; simpl in H; try destruct H.
  apply in_map_iff in H. destruct H as [h [<- Hh]].
  destruct (in_search_similar _ _ _ _ _ _ _ _ h S Hh) as [M _].
  simpl. eapply matches_section; [|exact M]. reflexivity.
Qed.

Lemma fallback_search_sections : forall V ge ann isalnum q al limit t us r,
  truthy us = true ->
  In r (_perform_fallback_search V ge ann isalnum q al limit t us) ->
  In (section r) us.
Proof.
  intros V ge ann isalnum q al limit t us r T H.
  unfold _perform_fallback_search, embed in H.
  destruct (ge q) as [qv|]; simpl in H; [|destruct H].
  rewrite T in H. simpl in H.
  apply in_py_take, in_sorted_desc, in_flat_map in H.
  destruct H as [s [Hs Hr]].
  apply fallback_one_section in Hr. now subst.
Qed.

Lemma merge_nil : forall limit,
  py_take (sorted_desc score (deduplicate [])) limit = [].
Proof. intros limit. apply py_take_nil. Qed.

(** Without section results and with strictness off, everything the
    merge returns comes from the per-section fallback. *)
Lemma fallback_and_merge_sections :
  forall V ge ann isalnum q sec al limit t us r,
  In r (fallback_and_merge V ge ann isalnum q sec [] al limit t us false) ->
  In (section r) us.
Proof.
  intros V ge ann isalnum q sec al limit t us r H.
  unfold fallback_and_merge in H. simpl in H.
  destruct (truthy us) eqn:T.
  - apply in_py_take, in_sorted_desc, in_deduplicate in H.
    eapply fallback_search_sections; eauto.
  - rewrite merge_nil in H. destruct H.
Qed.

(** C3: with [strict_section_search] on and target section [s], every
    returned chunk has section [s]; the result is empty unless [s] is a
    non-empty section among the allowed ones, and it is empty when no
    target section is given. *)
Theorem strict_search_stays_in_section :
  forall V ge ann isalnum q (s : pstr) al limit t us,
  Forall (fun r => section r = s)
    (search_documents_internal V ge ann isalnum q (Some s) al limit t us true) /\
  (search_documents_internal V ge ann isalnum q (Some s) al limit t us true = []
   \/ (In s us /\ s <> [])) /\
  search_documents_internal V ge ann isalnum q None al limit t us true = [].
Proof.
  intros V ge ann isalnum q s al limit t us.
  assert (Hnone : forall sec,
    opt_truthy sec = false ->
    fallback_and_merge V ge ann isalnum q sec [] al limit t us true = []).
  { intros sec Hsec. unfold fallback_and_merge. simpl.
    destruct sec as [x|]; [rewrite Hsec|]; simpl; apply merge_nil. }
  split; [|split].
  - apply Forall_forall. intros r H.
    unfold search_documents_internal in H.
    destruct (opt_truthy (Some s)) eqn:T.
    + destruct (str_in s us); [|destruct H].
      destruct (negb (truthy (_perform_section_search V ge ann isalnum q s al limit t)));
        [destruct H|].
      apply in_py_take in H. eapply section_search_section; eauto.
    + rewrite (Hnone _ T) in H. destruct H.
  - unfold search_documents_internal.
    destruct (opt_truthy (Some s)) eqn:T.
    + destruct (str_in s us) eqn:I; [|now left].
      right. split; [now apply str_in_In|].
      intros ->. discriminate.
    + left. apply Hnone, T.
  - unfold search_documents_internal. now apply Hnone.
Qed.

End RetrievalFacts.

(* ================================================================== *)
(** * Session memory policy ([services/session_context_service.py]) *)
(* ================================================================== *)

Module Memory.

Open Scope Q_scope.

Record Message : Type := {
  m_role : pstr;
  m_content : pstr
}.

(** The strategy names returned by the policy. *)
Inductive Strategy : Type := context_reuse | hybrid_context | new_search.

Section Policy.

(** A snapshot of [document_context]; the policy hands the list back
    unchanged. *)
Variable Doc : Type.

Record ConversationContext : Type := {
  messages : list Message;
  document_context : list Doc
}.

Variable Vector : Type.
(** The embedding provider; [None] when the call raises. *)
Variable get_embeddings : pstr -> option Vector.
(** [np.dot] and [np.linalg.norm]. *)
Variable np_dot : Vector -> Vector -> Q.
Variable np_norm : Vector -> Q.
(** The lexical classifier of clarifying questions. *)
Variable _is_clarifying_question : pstr -> pstr -> bool.

Definition _calculate_query_similarity (query1 query2 : pstr) : Q :=
  match get_embeddings query1 with
  | None => 0
  | Some vec1 =>
    match get_embeddings query2 with
    | None => 0
    | Some vec2 =>
      let dot_product := np_dot vec1 vec2 in
      let norm1 := np_norm vec1 in
      let norm2 := np_norm vec2 in
      if Qeq_bool norm1 0 || Qeq_bool norm2 0 then 0
      else dot_product / (norm1 * norm2)
    end
  end.

(** [for msg in reversed(messages): if msg['role'] == 'user': ...; break] *)
Definition last_user_message (msgs : list Message) : option pstr :=
  match find (fun m => pstr_eqb (m_role m) (py "user")) (rev msgs) with
  | Some m => Some (m_content m)
  | None => None
  end.

Definition should_use_existing_context (context : ConversationContext)
  (new_query : pstr) (threshold : Q) : bool * list Doc * Strategy :=
  if negb (truthy (document_context context)) then (false, [], new_search)
  else if (len (messages context) <? 2)%Z then (false, [], new_search)
  else
    match last_user_message (messages context) with
    | None => (false, [], new_search)
    | Some previous =>
      if negb (truthy previous) then (false, [], new_search)
      else if _is_clarifying_question new_query previous
      then (true, document_context context, context_reuse)
      else
        let similarity := _calculate_query_similarity previous new_query in
        if Qltb threshold similarity
        then (true, document_context context, context_reuse)
        else if Qltb 0.3 similarity
        then (true, document_context context, hybrid_context)
        else (false, [], new_search)
    end.

End Policy.

Arguments messages {Doc} c.
Arguments document_context {Doc} c.
Arguments Build_ConversationContext {Doc} messages document_context.
Arguments _calculate_query_similarity {Vector} get_embeddings np_dot np_norm
  query1 query2.
Arguments should_use_existing_context {Doc Vector} get_embeddings np_dot np_norm
  _is_clarifying_question context new_query threshold.

(** *** A one-dimensional embedding used in the examples *)

Definition demo_vector (q : pstr) : option Q := Some (inject_Z (len q)).
Definition demo_dot (a b : Q) : Q := a * b.
Definition demo_norm (a : Q) : Q := if Qltb a 0 then - a else a.
Definition never_clarifying (_ _ : pstr) : bool := false.

Definition demo_context : ConversationContext unit :=
  {| messages := [ {| m_role := py "user"; m_content := py "how to wash vegetables" |};
                   {| m_role := py "assistant"; m_content := py "Rinse them." |} ];
     document_context := [tt] |}.

End Memory.

Module MemoryFacts.
Import Memory.
Open Scope Q_scope.

Lemma Qltb_true_lt : forall a b, Qltb a b = true <-> a < b.
Proof.
  intros a b. unfold Qltb. rewrite negb_true_iff.
  split; intros H.
  - apply Qnot_le_lt. intros L. apply Qle_bool_iff in L. congruence.
  - destruct (Qle_bool b a) eqn:E; [|reflexivity].
    apply Qle_bool_iff in E. exfalso. now apply (Qlt_not_le a b).
Qed.

Lemma Qltb_false_iff : forall a b, Qltb a b = false <-> b <= a.
Proof.
  intros a b. unfold Qltb. rewrite negb_false_iff. apply Qle_bool_iff.
Qed.

(** C4: for a turn whose session has document context, at least two
    messages and a non-empty last user message, and whose query is not
    classified as clarifying, the policy answers by the similarity of
    the two queries: above 0.6 it reuses the context, in (0.3, 0.6] it
    is hybrid, at most 0.3 it is a new search.  The similarity is the
    cosine of the two embeddings whenever both exist with non-zero
    norm. *)
Theorem memory_policy_thresholds :
  forall (Doc Vector : Type) (ge : pstr -> option Vector) dot norm clar
         (ctx : ConversationContext Doc) (q q' : pstr),
  truthy (document_context ctx) = true ->
  (2 <= len (messages ctx))%Z ->
  last_user_message (messages ctx) = Some q' ->
  truthy q' = true ->
  clar q q' = false ->
  (0.6 < _calculate_query_similarity ge dot norm q' q ->
   should_use_existing_context ge dot norm clar ctx q 0.6
     = (true, document_context ctx, context_reuse)) /\
  (0.3 < _calculate_query_similarity ge dot norm q' q /\
   _calculate_query_similarity ge dot norm q' q <= 0.6 ->
   should_use_existing_context ge dot norm clar ctx q 0.6
     = (true, document_context ctx, hybrid_context)) /\
  (_calculate_query_similarity ge dot norm q' q <= 0.3 ->
   should_use_existing_context ge dot norm clar ctx q 0.6
     = (false, [], new_search)) /\
  (forall v' v, ge q' = Some v' -> ge q = Some v ->
     ~ norm v' == 0 -> ~ norm v == 0 ->
     _calculate_query_similarity ge dot norm q' q
       = dot v' v / (norm v' * norm v)).
Proof.
  intros Doc Vector ge dot norm clar ctx q q' Hdc Hlen Hlast Hq' Hclar.
  assert (U : should_use_existing_context ge dot norm clar ctx q 0.6 =
    let similarity := _calculate_query_similarity ge dot norm q' q in
    if Qltb 0.6 similarity then (true, document_context ctx, context_reuse)
    else if Qltb 0.3 similarity then (true, document_context ctx, hybrid_context)
    else (false, [], new_search)).
  { unfold should_use_existing_context.
    rewrite Hdc. simpl negb. cbv iota.
    replace (len (messages ctx) <? 2)%Z with false
      by (symmetry; apply Z.ltb_ge; lia).
    rewrite Hlast, Hq', Hclar. reflexivity. }
  rewrite U. cbv zeta.
  set (sigma := _calculate_query_similarity ge dot norm q' q).
  split; [|split; [|split]].
  - intros H. apply Qltb_true_lt in H. now rewrite H.
  - intros [H1 H2]. apply Qltb_true_lt in H1. apply Qltb_false_iff in H2.
    now rewrite H2, H1.
  - intros H.
    assert (H6 : Qltb 0.6 sigma = false).
    { apply Qltb_false_iff. eapply Qle_trans; [exact H|]. discriminate. }
    apply Qltb_false_iff in H. now rewrite H6, H.
  - intros v' v E' E N' N. subst sigma.
    unfold _calculate_query_similarity. rewrite E', E.
    destruct (Qeq_bool (norm v') 0) eqn:B1;
      [apply Qeq_bool_iff in B1; contradiction|].
    destruct (Qeq_bool (norm v) 0) eqn:B2;
      [apply Qeq_bool_iff in B2; contradiction|].
    reflexivity.
Qed.

Lemma memory_policy_thresholds_witness :
  should_use_existing_context demo_vector demo_dot demo_norm never_clarifying
    demo_context (py "wash fruit") 0.6
  = (true, [tt], context_reuse).
Proof.
  refine (proj1 (memory_policy_thresholds unit Q demo_vector demo_dot demo_norm
                   never_clarifying demo_context (py "wash fruit")
                   (py "how to wash vegetables") _ _ _ _ _) _);
    vm_compute; solve [reflexivity | discriminate].
Defined.

End MemoryFacts.

(* ================================================================== *)
(** * Citations: titles and the source filter ([main.py]) *)
(* ================================================================== *)

Module Sources.

Open Scope Q_scope.

(** ** Title resolution *)

(** The columns of a document row that title resolution reads. *)
Record Document : Type := {
  d_id : Z;
  d_title : option pstr;
  d_original_filename : option pstr;
  d_filename : option pstr
}.

Definition placeholder : pstr := py "string".

(** [title.rsplit('.', 1)[0]]: everything before the last dot (the
    whole string when there is none). *)
Fixpoint drop_through_dot (s : pstr) : option pstr :=
  match s with
  | [] => None
  | c :: r => if (c =? 46)%N then Some r else drop_through_dot r
  end.

Definition rsplit_dot_head (s : pstr) : pstr :=
  match drop_through_dot (rev s) with
  | Some r => rev r
  | None => s
  end.

(** [if '.' in title: title = title.rsplit('.', 1)[0]] *)
Definition strip_extension (title : pstr) : pstr :=
  if char_in 46%N title then rsplit_dot_head title else title.

(** [f"Документ {document_id}"] *)
Definition fallback_name (document_id : Z) : pstr :=
  py "Документ " ++ str_of_Z document_id.

(** One alternative of the title cascade:
    [field and field != "string" and field.strip()]. *)
Definition usable (field : option pstr) : option pstr :=
  match field with
  | Some f =>
    if truthy f && negb (pstr_eqb f placeholder) && truthy (strip f)
    then Some (strip f) else None
  | None => None
  end.

(** The title computed by [get_document_info] for a row. *)
Definition document_title (document : Document) : pstr :=
  let chosen :=
    match usable (d_title document) with
    | Some t => t
    | None =>
      match usable (d_original_filename document) with
      | Some t => t
      | None =>
        match usable (d_filename document) with
        | Some t => t
        | None => fallback_name (d_id document)
        end
      end
    end in
  if truthy chosen then strip_extension chosen else chosen.

(** The part of the dictionary returned by [get_document_info] that the
    citation code reads. *)
Record SourceInfo : Type := {
  si_id : Z;
  si_title : pstr
}.

Definition get_document_info (db : list Document) (document_id : Z)
  : option SourceInfo :=
  if (document_id <=? 0)%Z then None
  else match find (fun d => (d_id d =? document_id)%Z) db with
       | Some document =>
         Some {| si_id := d_id document; si_title := document_title document |}
       | None => None
       end.

Definition get_better_document_name (source_info : option SourceInfo)
  (document_id : Z) : pstr :=
  match source_info with
  | Some info =>
    if truthy (si_title info) then
      let title := si_title info in
      if negb (truthy title) || pstr_eqb title placeholder
         || pstr_eqb (strip title) []
      then fallback_name document_id
      else strip_extension title
    else fallback_name document_id
  | None => fallback_name document_id
  end.

(** The name shown for a search hit by [POST /search]:
    [source_info.get("title", ...) if source_info else ...]. *)
Definition search_hit_title (db : list Document) (document_id : Z) : pstr :=
  match get_document_info db document_id with
  | Some info => si_title info
  | None => fallback_name document_id
  end.

(** Rows whose stored title is a file name with two extensions. *)
Definition archive_row : Document :=
  {| d_id := 7; d_title := Some (py "string.tar.gz");
     d_original_filename := Some (py "string.tar.gz");
     d_filename := Some (py "0b5c.gz") |}.

Definition dotfile_row : Document :=
  {| d_id := 8; d_title := Some (py ".env.txt");
     d_original_filename := Some (py ".env.txt");
     d_filename := Some (py "77aa.txt") |}.

(** Rows whose title is the placeholder, or nothing, plus an extension. *)
Definition placeholder_row : Document :=
  {| d_id := 9; d_title := Some (py "string.pdf");
     d_original_filename := Some (py "string.pdf");
     d_filename := Some (py "1c2d.pdf") |}.

Definition bare_extension_row : Document :=
  {| d_id := 10; d_title := Some (py ".txt");
     d_original_filename := Some (py "notes.txt");
     d_filename := Some (py "3e4f.txt") |}.

Definition demo_db : list Document :=
  [archive_row; dotfile_row; placeholder_row; bare_extension_row].

(** ** Source filter *)

(** What the filter reads of a context chunk. *)
Record ContextChunk : Type := {
  cc_document_id : option Z;
  cc_score : Q;
  cc_content : pstr
}.

Record UsageInfo : Type := {
  ui_chunks_used : Z;
  ui_max_score : Q;
  ui_total_content_length : Z;
  ui_fallback_included : bool
}.

(** A citation entry; [s_usage_info] is the key the filter adds. *)
Record Source : Type := {
  s_document_id : option Z;
  s_document_name : pstr;
  s_usage_info : option UsageInfo
}.

(** One value of the [document_usage] dictionary. *)
Record Usage : Type := {
  u_chunks : list ContextChunk;
  u_total_score : Q;
  u_max_score : Q;
  u_content_length : Z
}.

Definition empty_usage : Usage :=
  {| u_chunks := []; u_total_score := 0; u_max_score := 0;
     u_content_length := 0 |}.

Definition record_chunk (chunk : ContextChunk) (u : Usage) : Usage :=
  {| u_chunks := u_chunks u ++ [chunk];
     u_total_score := u_total_score u + cc_score chunk;
     u_max_score := py_max (u_max_score u) (cc_score chunk);
     u_content_length := (u_content_length u + len (cc_content chunk))%Z |}.

(** [document_usage[doc_id]] updated for one chunk, creating the entry
    when the key is new. *)
Fixpoint usage_update (doc_id : Z) (chunk : ContextChunk)
  (document_usage : list (Z * Usage)) : list (Z * Usage) :=
  match document_usage with
  | [] => [(doc_id, record_chunk chunk empty_usage)]
  | (k, u) :: rest =>
    if (k =? doc_id)%Z then (k, record_chunk chunk u) :: rest
    else (k, u) :: usage_update doc_id chunk rest
  end.

(** Truthiness of a document id: present and non-zero. *)
Definition id_truthy (doc_id : option Z) : option Z :=
  match doc_id with
  | Some z => if (z =? 0)%Z then None else Some z
  | None => None
  end.

Definition analyse_chunk (document_usage : list (Z * Usage))
  (chunk : ContextChunk) : list (Z * Usage) :=
  match id_truthy (cc_document_id chunk) with
  | Some doc_id => usage_update doc_id chunk document_usage
  | None => document_usage
  end.

Definition build_usage (context_chunks : list ContextChunk) : list (Z * Usage) :=
  fold_left analyse_chunk context_chunks [].

Fixpoint usage_get (doc_id : Z) (document_usage : list (Z * Usage))
  : option Usage :=
  match document_usage with
  | [] => None
  | (k, u) :: rest => if (k =? doc_id)%Z then Some u else usage_get doc_id rest
  end.

(** [document_usage[doc_id]] when [doc_id in document_usage]. *)
Definition usage_of (doc_id : option Z) (document_usage : list (Z * Usage))
  : option Usage :=
  match doc_id with
  | Some z => usage_get z document_usage
  | None => None
  end.

Definition is_relevant (u : Usage) : bool :=
  Qltb 0.7 (u_max_score u)
  || (Qltb 0.5 (u_max_score u)
      && (200 <? u_content_length u)%Z
      && (1 <? len (u_chunks u))%Z).

Definition with_usage (source : Source) (u : Usage) (fallback : bool) : Source :=
  {| s_document_id := s_document_id source;
     s_document_name := s_document_name source;
     s_usage_info := Some {| ui_chunks_used := len (u_chunks u);
                             ui_max_score := u_max_score u;
                             ui_total_content_length := u_content_length u;
                             ui_fallback_included := fallback |} |}.

(** The body of [for source in sources]. *)
Definition keep_source (document_usage : list (Z * Usage)) (source : Source)
  : list Source :=
  match usage_of (s_document_id source) document_usage with
  | Some u => if is_relevant u then [with_usage source u false] else []
  | None => []
  end.

(** [max(l, key=key)] for a non-empty list: the first maximal element. *)
Fixpoint py_max_by {A : Type} (key : A -> Q) (best : A) (l : list A) : A :=
  match l with
  | [] => best
  | x :: r => if Qltb (key best) (key x) then py_max_by key x r
              else py_max_by key best r
  end.

(** [document_usage.get(s.get('document_id', 0), {}).get('max_score', 0)] *)
Definition fallback_key (document_usage : list (Z * Usage)) (s : Source) : Q :=
  match usage_of (s_document_id s) document_usage with
  | Some u => u_max_score u
  | None => 0
  end.

Definition _filter_relevant_sources (sources : list Source) (ai_response : pstr)
  (context_chunks : list ContextChunk) : list Source :=
  match sources with
  | [] => sources
  | first :: others =>
    if negb (truthy context_chunks) then sources
    else
      let document_usage := build_usage context_chunks in
      let filtered_sources := flat_map (keep_source document_usage) sources in
      if negb (truthy filtered_sources) then
        let best_source := py_max_by (fallback_key document_usage) first others in
        match id_truthy (s_document_id best_source) with
        | Some best_doc_id =>
          match usage_get best_doc_id document_usage with
          | Some u => [with_usage best_source u true]
          | None => filtered_sources
          end
        | None => filtered_sources
        end
      else filtered_sources
  end.

(** The truthy document ids of the context chunks (the ids the filter
    files chunks under). *)
Definition context_document_ids (context_chunks : list ContextChunk) : list Z :=
  flat_map (fun c => match id_truthy (cc_document_id c) with
                     | Some z => [z]
                     | None => []
                     end) context_chunks.

(** Number of distinct document ids among the context chunks. *)
Definition distinct_documents (context_chunks : list ContextChunk) : Z :=
  len (nodup Z.eq_dec (context_document_ids context_chunks)).

Definition option_Z_eq_dec : forall a b : option Z, {a = b} + {a <> b}.
Proof. decide equality. apply Z.eq_dec. Defined.

(** The shape of the sources the filter is called with: one entry per
    document, each with a non-zero id that occurs among the context
    chunks. *)
Fixpoint distinct_ids (ids : list (option Z)) : bool :=
  match ids with
  | [] => true
  | i :: r => negb (existsb (fun j => if option_Z_eq_dec i j then true else false) r)
              && distinct_ids r
  end.

Definition id_in_context (context_chunks : list ContextChunk) (s : Source) : bool :=
  match id_truthy (s_document_id s) with
  | Some z =>
    existsb (fun c => if option_Z_eq_dec (cc_document_id c) (Some z)
                      then true else false) context_chunks
  | None => false
  end.

Definition one_source_per_document (sources : list Source)
  (context_chunks : list ContextChunk) : bool :=
  distinct_ids (map s_document_id sources)
  && forallb (id_in_context context_chunks) sources.

(** ** The call site in [chat_with_ai] *)

(** What the citation code reads of one retrieval result (a search
    result object, or a dictionary on the context-reuse paths, where the
    chunk id is derived from the document id). *)
Record ChatResult : Type := {
  cr_document_id : option Z;
  cr_chunk_id : Z;
  cr_content : pstr;
  cr_score : Q
}.

(** [context_chunks]: one entry per result. *)
Definition chat_context_chunks (search_results : list ChatResult)
  : list ContextChunk :=
  map (fun r => {| cc_document_id := cr_document_id r;
                   cc_score := cr_score r;
                   cc_content := cr_content r |}) search_results.

(** An entry of [sources] before compaction. *)
Record SourceEntry : Type := {
  se_document_id : Z;
  se_chunk_id : Z;
  se_document_name : pstr
}.

(** The name given to a source, with the two re-checks of the chat
    endpoint. *)
Definition chat_document_name (db : list Document) (document_id : Z) : pstr :=
  let document_name :=
    get_better_document_name (get_document_info db document_id) document_id in
  let document_name :=
    if pstr_eqb document_name placeholder then fallback_name document_id
    else document_name in
  if negb (truthy document_name) || pstr_eqb (strip document_name) []
  then fallback_name document_id
  else document_name.

(** [sources]: results without a document id are skipped. *)
Definition chat_sources (db : list Document) (search_results : list ChatResult)
  : list SourceEntry :=
  flat_map (fun r =>
              match id_truthy (cr_document_id r) with
              | Some z => [{| se_document_id := z;
                              se_chunk_id := cr_chunk_id r;
                              se_document_name := chat_document_name db z |}]
              | None => []
              end) search_results.

(** [sorted(sources, key=lambda x: (document_id, chunk_id))]: a stable
    ascending sort. *)
Definition source_key_ltb (a b : SourceEntry) : bool :=
  ((se_document_id a <? se_document_id b)
   || ((se_document_id a =? se_document_id b)
       && (se_chunk_id a <? se_chunk_id b)))%Z.

Fixpoint insert_asc (x : SourceEntry) (l : list SourceEntry)
  : list SourceEntry :=
  match l with
  | [] => [x]
  | y :: r => if source_key_ltb x y then x :: y :: r else y :: insert_asc x r
  end.

Definition sorted_sources (sources : list SourceEntry) : list SourceEntry :=
  fold_left (fun acc x => insert_asc x acc) sources [].

(** [unique_sources]: the first entry of every [(document_id, chunk_id)]. *)
Definition seen_key (seen : list (Z * Z)) (x : SourceEntry) : bool :=
  existsb (fun k => (fst k =? se_document_id x)%Z && (snd k =? se_chunk_id x)%Z)
          seen.

Fixpoint unique_sources (seen_combinations : list (Z * Z))
  (sorted : list SourceEntry) : list SourceEntry :=
  match sorted with
  | [] => []
  | x :: r =>
    if seen_key seen_combinations x then unique_sources seen_combinations r
    else x :: unique_sources ((se_document_id x, se_chunk_id x)
                                :: seen_combinations) r
  end.

(** [document_groups], a dictionary in insertion order. *)
Fixpoint group_source (x : SourceEntry) (groups : list (Z * list SourceEntry))
  : list (Z * list SourceEntry) :=
  match groups with
  | [] => [(se_document_id x, [x])]
  | (d, xs) :: rest =>
    if (d =? se_document_id x)%Z then (d, xs ++ [x]) :: rest
    else (d, xs) :: group_source x rest
  end.

Definition document_groups (unique : list SourceEntry)
  : list (Z * list SourceEntry) :=
  fold_left (fun groups x => group_source x groups) unique [].

(** [compact_sources]: the first entry of every group. *)
Definition compact_source (group : Z * list SourceEntry) : list Source :=
  match snd group with
  | representative :: _ =>
    [{| s_document_id := Some (se_document_id representative);
        s_document_name := se_document_name representative;
        s_usage_info := None |}]
  | [] => []
  end.

Definition compact_sources (db : list Document) (search_results : list ChatResult)
  : list Source :=
  flat_map compact_source
    (document_groups (unique_sources [] (sorted_sources
                                           (chat_sources db search_results)))).

(** The citations of a chat answer: the call of the filter in
    [chat_with_ai]. *)
Definition chat_filtered_sources (db : list Document)
  (search_results : list ChatResult) (ai_response : pstr) : list Source :=
  _filter_relevant_sources (compact_sources db search_results) ai_response
    (chat_context_chunks search_results).

(** Example inputs: three results of two documents, none of which
    passes the relevance rule. *)
Definition knife_result : ChatResult :=
  {| cr_document_id := Some 3%Z; cr_chunk_id := 30;
     cr_content := py "Knives are sharpened weekly."; cr_score := 0.4 |}.

Definition board_result : ChatResult :=
  {| cr_document_id := Some 5%Z; cr_chunk_id := 50;
     cr_content := py "Boards are colour coded."; cr_score := 0.3 |}.

Definition demo_results : list ChatResult :=
  [board_result; knife_result; knife_result].

End Sources.

Module SourcesFacts.
Import Sources RetrievalFacts MemoryFacts.
Open Scope Q_scope.

(** C8 (the check precedes the stripping of the extension): for a row
    titled [string.tar.gz] the name resolved for a citation is the
    placeholder [string], and for a row titled [.env.txt] it is the
    empty string; the title shown for a search hit is [string] for a row
    titled [string.pdf] and empty for a row titled [.txt]. *)
Theorem title_resolution_placeholder_and_empty :
  get_better_document_name (get_document_info demo_db 7) 7 = py "string" /\
  get_better_document_name (get_document_info demo_db 8) 8 = [] /\
  search_hit_title demo_db 9 = py "string" /\
  search_hit_title demo_db 10 = [].
Proof. repeat split; vm_compute; reflexivity. Qed.

(** *** The usage dictionary *)

Lemma usage_update_get_same : forall z c d,
  usage_get z (usage_update z c d) <> None.
Proof.
  intros z c d. induction d as [|[k u] rest IH]; simpl.
  - rewrite Z.eqb_refl. discriminate.
  - destruct (k =? z)%Z eqn:E; simpl; rewrite E; [discriminate|assumption].
Qed.

Lemma usage_update_get_keep : forall z z' c d,
  usage_get z d <> None -> usage_get z (usage_update z' c d) <> None.
Proof.
  intros z z' c d. induction d as [|[k u] rest IH]; simpl; intros H.
  - contradiction.
  - destruct (k =? z')%Z eqn:E'; simpl; destruct (k =? z)%Z eqn:E;
      try discriminate; auto.
Qed.

Lemma analyse_chunk_keep : forall z c d,
  usage_get z d <> None -> usage_get z (analyse_chunk d c) <> None.
Proof.
  intros z c d H. unfold analyse_chunk.
  destruct (id_truthy (cc_document_id c)); [|assumption].
  now apply usage_update_get_keep.
Qed.

Lemma fold_analyse_keep : forall ctx z d,
  usage_get z d <> None -> usage_get z (fold_left analyse_chunk ctx d) <> None.
Proof.
  induction ctx as [|c ctx IH]; simpl; intros z d H; [assumption|].
  apply IH. now apply analyse_chunk_keep.
Qed.

Lemma fold_analyse_present : forall ctx z d c,
  In c ctx -> id_truthy (cc_document_id c) = Some z ->
  usage_get z (fold_left analyse_chunk ctx d) <> None.
Proof.
  induction ctx as [|c0 ctx IH]; simpl; intros z d c Hin Hid; [contradiction|].
  destruct Hin as [->|Hin].
  - apply fold_analyse_keep. unfold analyse_chunk. rewrite Hid.
    apply usage_update_get_same.
  - eapply IH; eauto.
Qed.

(** *** Sources as the chat endpoint builds them *)

Lemma distinct_ids_NoDup : forall ids, distinct_ids ids = true -> NoDup ids.
Proof.
  induction ids as [|i r IH]; simpl; intros H; [constructor|].
  apply andb_true_iff in H. destruct H as [H1 H2].
  constructor; [|auto].
  intros Hin. apply negb_true_iff in H1.
  assert (E : existsb (fun j => if option_Z_eq_dec i j then true else false) r
              = true).
  { apply existsb_exists. exists i. split; [assumption|].
    destruct (option_Z_eq_dec i i); [reflexivity|contradiction]. }
  congruence.
Qed.

Lemma id_in_context_spec : forall ctx s,
  id_in_context ctx s = true ->
  exists z c, s_document_id s = Some z /\ id_truthy (Some z) = Some z /\
              In c ctx /\ cc_document_id c = Some z.
Proof.
  intros ctx s H. unfold id_in_context in H.
  destruct (s_document_id s) as [z'|] eqn:Es; simpl in H; [|discriminate].
  destruct (z' =? 0)%Z eqn:E0; [discriminate|].
  apply existsb_exists in H. destruct H as [c [Hc Hd]].
  destruct (option_Z_eq_dec (cc_document_id c) (Some z')); [|discriminate].
  exists z', c. simpl. rewrite E0. auto.
Qed.

Lemma keep_source_ids : forall d s x,
  In x (keep_source d s) -> s_document_id x = s_document_id s.
Proof.
  intros d s x H. unfold keep_source in H.
  destruct (usage_of (s_document_id s) d); [|destruct H].
  destruct (is_relevant u); [|destruct H].
  destruct H as [<-|[]]. reflexivity.
Qed.

Lemma filtered_ids_incl : forall d sources x,
  In x (flat_map (keep_source d) sources) ->
  In (s_document_id x) (map s_document_id sources).
Proof.
  intros d sources x H. apply in_flat_map in H. destruct H as [s [Hs Hx]].
  apply keep_source_ids in Hx. rewrite Hx. now apply in_map.
Qed.

Lemma filtered_ids_NoDup : forall d sources,
  NoDup (map s_document_id sources) ->
  NoDup (map s_document_id (flat_map (keep_source d) sources)).
Proof.
  intros d sources. induction sources as [|s r IH]; simpl; intros H;
    [constructor|].
  inversion H as [|? ? Hnot Hr]; subst.
  rewrite map_app. specialize (IH Hr).
  unfold keep_source at 1.
  destruct (usage_of (s_document_id s) d); [|exact IH].
  destruct (is_relevant u); [|exact IH].
  simpl. constructor; [|exact IH].
  intros Hin. apply Hnot.
  apply in_map_iff in Hin. destruct Hin as [x [Ex Hx]].
  rewrite <- Ex. eapply filtered_ids_incl; eauto.
Qed.

Lemma py_max_by_in : forall (A : Type) (key : A -> Q) l best,
  In (py_max_by key best l) (best :: l).
Proof.
  intros A key l. induction l as [|x r IH]; intros best; simpl; [auto|].
  destruct (Qltb (key best) (key x)).
  - right. apply IH.
  - destruct (IH best) as [H|H]; auto.
Qed.

Lemma py_max_by_max : forall (A : Type) (key : A -> Q) l best x,
  In x (best :: l) -> key x <= key (py_max_by key best l).
Proof.
  intros A key l. induction l as [|y r IH]; intros best x Hx; simpl.
  - destruct Hx as [->|[]]. apply Qle_refl.
  - destruct (Qltb (key best) (key y)) eqn:E.
    + apply Qltb_true_lt in E.
      destruct Hx as [->|[->|Hx]].
      * eapply Qle_trans; [apply Qlt_le_weak, E|]. apply IH. now left.
      * apply IH. now left.
      * apply IH. now right.
    + apply Qltb_false_iff in E.
      destruct Hx as [->|[->|Hx]].
      * apply IH. now left.
      * eapply Qle_trans; [exact E|]. apply IH. now left.
      * apply IH. now right.
Qed.

Lemma bounded_by_distinct_documents : forall ctx out,
  NoDup (map s_document_id out) ->
  (forall x, In x out ->
     exists z, s_document_id x = Some z /\ In z (context_document_ids ctx)) ->
  (len out <= distinct_documents ctx)%Z.
Proof.
  intros ctx out Hnd Hin. unfold distinct_documents, len.
  apply inj_le. rewrite <- (length_map s_document_id out).
  rewrite <- (length_map Some (nodup Z.eq_dec (context_document_ids ctx))).
  apply NoDup_incl_length; [exact Hnd|].
  intros i Hi. apply in_map_iff in Hi. destruct Hi as [x [<- Hx]].
  destruct (Hin x Hx) as [z [-> Hz]].
  apply in_map. now apply nodup_In.
Qed.

(** What [one_source_per_document] gives for each source. *)
Lemma source_in_usage : forall sources ctx s,
  forallb (id_in_context ctx) sources = true -> In s sources ->
  exists z u, s_document_id s = Some z /\ id_truthy (Some z) = Some z /\
              usage_get z (build_usage ctx) = Some u /\
              In z (context_document_ids ctx).
Proof.
  intros sources ctx s Hf Hs.
  rewrite forallb_forall in Hf. specialize (Hf s Hs).
  apply id_in_context_spec in Hf.
  destruct Hf as [z [c [E1 [E2 [Hc E3]]]]].
  assert (P : usage_get z (build_usage ctx) <> None).
  { unfold build_usage. eapply fold_analyse_present; [exact Hc|].
    now rewrite E3. }
  destruct (usage_get z (build_usage ctx)) as [u|] eqn:U; [|contradiction].
  exists z, u. repeat split; auto.
  unfold context_document_ids. apply in_flat_map. exists c.
  split; [exact Hc|]. rewrite E3, E2. now left.
Qed.

(** The filter on sources of the shape [one_source_per_document]: at
    most one citation per document of the context, only documents of
    the source list, non-empty for a non-empty source list, and the
    best source alone when none passes the relevance rule. *)
Lemma filter_on_one_source_per_document : forall sources ai_response ctx,
  one_source_per_document sources ctx = true ->
  (len (_filter_relevant_sources sources ai_response ctx)
     <= distinct_documents ctx)%Z /\
  Forall (fun s => In (s_document_id s) (map s_document_id sources))
         (_filter_relevant_sources sources ai_response ctx) /\
  (truthy sources = true ->
   truthy (_filter_relevant_sources sources ai_response ctx) = true) /\
  (truthy sources = true ->
   flat_map (keep_source (build_usage ctx)) sources = [] ->
   exists best u,
     In best sources /\
     usage_of (s_document_id best) (build_usage ctx) = Some u /\
     (forall s, In s sources ->
        fallback_key (build_usage ctx) s <= u_max_score u) /\
     _filter_relevant_sources sources ai_response ctx
       = [with_usage best u true]).
Proof.
  intros sources ai_response ctx H.
  unfold one_source_per_document in H. apply andb_true_iff in H.
  destruct H as [Hd Hf]. apply distinct_ids_NoDup in Hd.
  destruct sources as [|first others].
  { simpl. repeat split; try discriminate.
    - unfold distinct_documents. apply ChunkerFacts.len_nonneg.
    - constructor. }
  destruct ctx as [|c0 ctx0].
  { destruct (source_in_usage _ _ first Hf (or_introl eq_refl))
      as [z [u [_ [_ [_ []]]]]]. }
  set (ctx := c0 :: ctx0) in *. set (sources := first :: others) in *.
  assert (Hbest : exists best z u,
            best = py_max_by (fallback_key (build_usage ctx)) first others /\
            In best sources /\ s_document_id best = Some z /\
            id_truthy (Some z) = Some z /\
            usage_get z (build_usage ctx) = Some u /\
            In z (context_document_ids ctx)).
  { pose proof (py_max_by_in _ (fallback_key (build_usage ctx)) others first)
      as Hin.
    destruct (source_in_usage sources ctx _ Hf Hin) as [z [u [E1 [E2 [E3 E4]]]]].
    eexists _, z, u. repeat split; eauto. }
  destruct Hbest as [best [z [u [Eb [Hin [E1 [E2 [E3 E4]]]]]]]].
  assert (Hout : _filter_relevant_sources sources ai_response ctx =
            if negb (truthy (flat_map (keep_source (build_usage ctx)) sources))
            then [with_usage best u true]
            else flat_map (keep_source (build_usage ctx)) sources).
  { unfold _filter_relevant_sources, sources, ctx. cbn [truthy negb].
    fold ctx. fold sources. rewrite <- Eb.
    destruct (negb (truthy (flat_map (keep_source (build_usage ctx)) sources)));
      [|reflexivity].
    rewrite E1, E2, E3. reflexivity. }
  rewrite Hout.
  destruct (flat_map (keep_source (build_usage ctx)) sources) as [|f fs] eqn:F;
    cbn [truthy negb].
  - split; [|split; [|split]].
    + apply bounded_by_distinct_documents.
      * simpl. constructor; [intros []|constructor].
      * intros x [<-|[]]. exists z. simpl. split; [exact E1|exact E4].
    + constructor; [|constructor].
      exact (in_map s_document_id sources best Hin).
    + reflexivity.
    + intros _ _. exists best, u. split; [exact Hin|].
      split; [rewrite E1; exact E3|].
      split; [|reflexivity].
      intros s Hs.
      assert (K : fallback_key (build_usage ctx) best = u_max_score u).
      { unfold fallback_key. rewrite E1. simpl. now rewrite E3. }
      rewrite <- K, Eb. apply py_max_by_max. exact Hs.
  - rewrite <- F.
    split; [|split; [|split]].
    + apply bounded_by_distinct_documents.
      * now apply filtered_ids_NoDup.
      * intros x Hx. apply filtered_ids_incl in Hx.
        apply in_map_iff in Hx. destruct Hx as [s [Es Hs]].
        destruct (source_in_usage sources ctx s Hf Hs) as [z' [u' [A1 [_ [_ A4]]]]].
        exists z'. rewrite <- Es. split; [exact A1|exact A4].
    + apply Forall_forall. intros x Hx. eapply filtered_ids_incl; eauto.
    + intros _. rewrite ?F. reflexivity.
    + intros _ Hnil. rewrite ?F in Hnil. discriminate.
Qed.

(** *** The sources built by the chat endpoint *)

Lemma in_insert_asc : forall x y l, In x (insert_asc y l) <-> y = x \/ In x l.
Proof.
  intros x y l. induction l as [|z r IH]; simpl; [tauto|].
  destruct (source_key_ltb y z); simpl; [tauto|]. rewrite IH. tauto.
Qed.

Lemma in_sorted_sources : forall l x, In x (sorted_sources l) <-> In x l.
Proof.
  intros l x. unfold sorted_sources.
  assert (G : forall l acc,
            In x (fold_left (fun acc y => insert_asc y acc) l acc)
            <-> In x acc \/ In x l).
  { induction l0 as [|y r IH]; intros acc; simpl; [tauto|].
    rewrite IH, in_insert_asc. tauto. }
  rewrite G. simpl. tauto.
Qed.

Lemma in_unique_sources : forall l seen x,
  In x (unique_sources seen l) -> In x l.
Proof.
  induction l as [|y r IH]; intros seen x H; simpl in H; [destruct H|].
  destruct (seen_key seen y).
  - right. eapply IH; eauto.
  - destruct H as [->|H]; [now left|]. right. eapply IH; eauto.
Qed.

Lemma unique_sources_nonempty : forall l,
  l <> [] -> unique_sources [] l <> [].
Proof. intros [|x r] H; [contradiction|]. simpl. discriminate. Qed.

(** The grouping dictionary: distinct keys, no empty group, every entry
    filed under its own document id. *)
Definition source_groups_ok (input : list SourceEntry)
  (groups : list (Z * list SourceEntry)) : Prop :=
  NoDup (map fst groups) /\
  forall g, In g groups ->
    snd g <> [] /\
    forall x, In x (snd g) -> In x input /\ se_document_id x = fst g.

Lemma group_source_keys : forall x groups k,
  In k (map fst (group_source x groups)) ->
  k = se_document_id x \/ In k (map fst groups).
Proof.
  intros x groups. induction groups as [|[d xs] rest IH]; simpl; intros k H.
  - destruct H as [H|[]]; auto.
  - destruct (d =? se_document_id x)%Z; simpl in H.
    + destruct H as [H|H]; auto.
    + destruct H as [H|H]; [auto|]. apply IH in H. tauto.
Qed.

Lemma group_source_ok : forall input x groups,
  In x input -> source_groups_ok input groups ->
  source_groups_ok input (group_source x groups).
Proof.
  intros input x groups Hx. induction groups as [|[d xs] rest IH];
    intros [Hn Hg].
  - simpl. split; [constructor; [intros []|constructor]|].
    intros g [<-|[]]. simpl. split; [discriminate|].
    intros y [<-|[]]. now split.
  - simpl. destruct (d =? se_document_id x)%Z eqn:E.
    + apply Z.eqb_eq in E. split; [exact Hn|].
      intros g [<-|Hin].
      * simpl. destruct (Hg (d, xs) (or_introl eq_refl)) as [_ G].
        split; [destruct xs; discriminate|].
        intros y Hy. apply in_app_or in Hy. destruct Hy as [Hy|[<-|[]]].
        -- now apply G.
        -- split; [exact Hx|now symmetry].
      * apply Hg. now right.
    + apply Z.eqb_neq in E.
      inversion Hn as [|? ? Hnot Hrest]; subst.
      destruct IH as [IHn IHg].
      { split; [exact Hrest|]. intros g Hin. apply Hg. now right. }
      split.
      * simpl. constructor; [|exact IHn].
        intros Hin. apply group_source_keys in Hin. simpl in *.
        destruct Hin as [Hin|Hin]; [congruence|contradiction].
      * intros g [<-|Hin]; [apply Hg; now left|now apply IHg].
Qed.

Lemma group_source_nonempty : forall x groups, group_source x groups <> [].
Proof.
  intros x [|[d xs] rest]; simpl; [discriminate|].
  destruct (d =? se_document_id x)%Z; discriminate.
Qed.

Lemma document_groups_ok : forall l,
  source_groups_ok l (document_groups l) /\
  (l <> [] -> document_groups l <> []).
Proof.
  intros l. unfold document_groups.
  assert (G : forall todo acc,
    (forall x, In x todo -> In x l) -> source_groups_ok l acc ->
    source_groups_ok l (fold_left (fun g x => group_source x g) todo acc) /\
    (acc <> [] \/ todo <> [] ->
     fold_left (fun g x => group_source x g) todo acc <> [])).
  { induction todo as [|x r IH]; intros acc Hin Hok; simpl.
    - split; [exact Hok|]. intros [H|H]; [exact H|contradiction].
    - destruct (IH (group_source x acc)) as [I1 I2].
      + intros y Hy. apply Hin. now right.
      + apply group_source_ok; [apply Hin; now left|exact Hok].
      + split; [exact I1|]. intros _. apply I2. left.
        apply group_source_nonempty. }
  destruct (G l []) as [G1 G2].
  - auto.
  - split; [constructor|intros g []].
  - split; [exact G1|]. intros H. apply G2. now right.
Qed.

Lemma NoDup_distinct_ids : forall ids, NoDup ids -> distinct_ids ids = true.
Proof.
  induction ids as [|i r IH]; intros H; [reflexivity|].
  inversion H as [|? ? Hnot Hr]; subst. simpl.
  rewrite (IH Hr), andb_true_r. apply negb_true_iff.
  destruct (existsb (fun j => if option_Z_eq_dec i j then true else false) r)
    eqn:E; [|reflexivity].
  apply existsb_exists in E. destruct E as [j [Hj Ej]].
  destruct (option_Z_eq_dec i j); [subst; contradiction|discriminate].
Qed.

Lemma NoDup_map_Some : forall l : list Z, NoDup l -> NoDup (map Some l).
Proof.
  induction l as [|z r IH]; intros H; simpl; [constructor|].
  inversion H as [|? ? Hnot Hr]; subst. constructor; [|auto].
  intros Hin. apply in_map_iff in Hin. destruct Hin as [y [E Hy]].
  injection E as ->. contradiction.
Qed.

Lemma compact_ids : forall input groups,
  source_groups_ok input groups ->
  map s_document_id (flat_map compact_source groups) = map Some (map fst groups).
Proof.
  intros input groups [_ Hg]. induction groups as [|[d xs] rest IH];
    [reflexivity|].
  simpl. rewrite map_app, IH by (intros g Hin; apply Hg; now right).
  destruct (Hg (d, xs) (or_introl eq_refl)) as [Hne Hx].
  unfold compact_source. simpl.
  destruct xs as [|rep xs']; [contradiction|]. simpl.
  destruct (Hx rep (or_introl eq_refl)) as [_ ->]. reflexivity.
Qed.

Lemma in_chat_sources : forall db results x,
  In x (chat_sources db results) ->
  exists r, In r results /\ cr_document_id r = Some (se_document_id x) /\
            se_document_id x <> 0%Z.
Proof.
  intros db results x H. unfold chat_sources in H.
  apply in_flat_map in H. destruct H as [r [Hr Hx]].
  unfold id_truthy in Hx.
  destruct (cr_document_id r) as [z|] eqn:E; [|destruct Hx].
  destruct (z =? 0)%Z eqn:E0; [destruct Hx|].
  destruct Hx as [<-|[]]. simpl. exists r.
  apply Z.eqb_neq in E0. auto.
Qed.

Lemma chat_sources_nonempty : forall db results r,
  In r results -> id_truthy (cr_document_id r) <> None ->
  chat_sources db results <> [].
Proof.
  intros db results r Hr Hid Hnil.
  destruct (id_truthy (cr_document_id r)) as [z|] eqn:E; [|contradiction].
  assert (Hin : In {| se_document_id := z; se_chunk_id := cr_chunk_id r;
                      se_document_name := chat_document_name db z |}
                   (chat_sources db results)).
  { unfold chat_sources. apply in_flat_map. exists r.
    split; [exact Hr|]. rewrite E. now left. }
  rewrite Hnil in Hin. destruct Hin.
Qed.

(** The sources handed to the filter are one entry per document of the
    results, each with a non-zero id that occurs among the context
    chunks. *)
Lemma compact_sources_shape : forall db results,
  one_source_per_document (compact_sources db results)
    (chat_context_chunks results) = true.
Proof.
  intros db results. unfold one_source_per_document, compact_sources.
  set (unique := unique_sources [] (sorted_sources (chat_sources db results))).
  destruct (document_groups_ok unique) as [Hok _].
  apply andb_true_iff. split.
  - apply NoDup_distinct_ids. rewrite (compact_ids unique _ Hok).
    apply NoDup_map_Some, Hok.
  - apply forallb_forall. intros s Hs.
    apply in_flat_map in Hs. destruct Hs as [[d xs] [Hg Hs]].
    destruct Hok as [_ Hok]. destruct (Hok _ Hg) as [_ Hx].
    unfold compact_source in Hs. simpl in Hs, Hx.
    destruct xs as [|rep xs']; [destruct Hs|].
    destruct Hs as [<-|[]].
    destruct (Hx rep (or_introl eq_refl)) as [Hin _].
    unfold unique in Hin. apply in_unique_sources in Hin.
    apply (proj1 (in_sorted_sources _ _)) in Hin.
    apply in_chat_sources in Hin. destruct Hin as [r [Hr [Er Hz]]].
    unfold id_in_context. simpl.
    apply Z.eqb_neq in Hz. rewrite Hz.
    apply existsb_exists.
    exists {| cc_document_id := cr_document_id r; cc_score := cr_score r;
              cc_content := cr_content r |}.
    split.
    + unfold chat_context_chunks.
      exact (in_map (fun r0 => {| cc_document_id := cr_document_id r0;
                                  cc_score := cr_score r0;
                                  cc_content := cr_content r0 |}) results r Hr).
    + simpl. rewrite Er.
      destruct (option_Z_eq_dec (Some (se_document_id rep))
                  (Some (se_document_id rep))); [reflexivity|contradiction].
Qed.

Lemma compact_sources_nonempty : forall db results r,
  In r results -> id_truthy (cr_document_id r) <> None ->
  compact_sources db results <> [].
Proof.
  intros db results r Hr Hid. unfold compact_sources.
  set (unique := unique_sources [] (sorted_sources (chat_sources db results))).
  assert (Hu : unique <> []).
  { apply unique_sources_nonempty.
    pose proof (chat_sources_nonempty db results r Hr Hid) as Hs.
    destruct (chat_sources db results) as [|x l] eqn:E; [contradiction|].
    intros Hnil.
    assert (Hin : In x (sorted_sources (x :: l)))
      by (apply in_sorted_sources; now left).
    rewrite Hnil in Hin. destruct Hin. }
  destruct (document_groups_ok unique) as [[_ Hok] Hne].
  specialize (Hne Hu).
  destruct (document_groups unique) as [|[d xs] rest]; [contradiction|].
  simpl. destruct (Hok (d, xs) (or_introl eq_refl)) as [Hxs _].
  unfold compact_source at 1. simpl.
  destruct xs as [|rep xs']; [contradiction|]. discriminate.
Qed.

(** C5: on every call of the source filter made by the chat endpoint
    for results that all carry a document id, the citation list has at
    most as many entries as there are distinct document ids among the
    context chunks, and it is non-empty whenever the context chunk list
    is non-empty: if no source passes the relevance rule, the list is
    the single source whose document has the highest maximum score. *)
Theorem chat_source_filter_bounds : forall db search_results ai_response,
  Forall (fun r => id_truthy (cr_document_id r) <> None) search_results ->
  (len (chat_filtered_sources db search_results ai_response)
     <= distinct_documents (chat_context_chunks search_results))%Z /\
  (truthy (chat_context_chunks search_results) = true ->
   truthy (chat_filtered_sources db search_results ai_response) = true) /\
  (truthy (chat_context_chunks search_results) = true ->
   flat_map (keep_source (build_usage (chat_context_chunks search_results)))
            (compact_sources db search_results) = [] ->
   exists best u,
     In best (compact_sources db search_results) /\
     usage_of (s_document_id best)
       (build_usage (chat_context_chunks search_results)) = Some u /\
     (forall s, In s (compact_sources db search_results) ->
        fallback_key (build_usage (chat_context_chunks search_results)) s
          <= u_max_score u) /\
     chat_filtered_sources db search_results ai_response
       = [with_usage best u true]).
Proof.
  intros db results ai_response Hids.
  destruct (filter_on_one_source_per_document (compact_sources db results)
              ai_response (chat_context_chunks results)
              (compact_sources_shape db results)) as [B [_ [N F]]].
  assert (S : truthy (chat_context_chunks results) = true ->
              truthy (compact_sources db results) = true).
  { intros T. destruct results as [|r rest]; [discriminate|].
    inversion Hids as [|? ? Hr _]; subst.
    pose proof (compact_sources_nonempty db (r :: rest) r
                  (or_introl eq_refl) Hr) as Hne.
    destruct (compact_sources db (r :: rest)); [contradiction|reflexivity]. }
  unfold chat_filtered_sources.
  split; [exact B|]. split.
  - intros T. apply N, S, T.
  - intros T E. apply F; [apply S, T|exact E].
Qed.

Lemma chat_source_filter_bounds_witness :
  chat_filtered_sources demo_db demo_results (py "Weekly.")
    = [with_usage {| s_document_id := Some 3%Z;
                     s_document_name := fallback_name 3;
                     s_usage_info := None |}
                  {| u_chunks := [ {| cc_document_id := Some 3%Z;
                                      cc_score := 0.4;
                                      cc_content := py "Knives are sharpened weekly." |};
                                   {| cc_document_id := Some 3%Z;
                                      cc_score := 0.4;
                                      cc_content := py "Knives are sharpened weekly." |} ];
                     u_total_score := 0.4 + 0.4;
                     u_max_score := 0.4;
                     u_content_length := 56 |} true] /\
  (len (chat_filtered_sources demo_db demo_results (py "Weekly."))
     <= distinct_documents (chat_context_chunks demo_results))%Z /\
  truthy (chat_filtered_sources demo_db demo_results (py "Weekly.")) = true.
Proof.
  assert (Hids : Forall (fun r => id_truthy (cr_document_id r) <> None)
                   demo_results)
    by (repeat constructor; discriminate).
  destruct (chat_source_filter_bounds demo_db demo_results (py "Weekly.") Hids)
    as [B [N _]].
  split; [vm_compute; reflexivity|]. split; [exact B|].
  apply N. reflexivity.
Defined.

End SourcesFacts.

(* ================================================================== *)
(** * Prompt builder ([services/rag_service.py]) *)
(* ================================================================== *)

Module Prompt.

Open Scope Q_scope.

(** The dictionaries below always carry their keys when the chat
    endpoint builds them; a value that is [None] prints as [None]. *)
Record SessionDoc : Type := {
  sd_document_id : option Z;
  sd_section : option pstr;
  sd_query : option pstr
}.

Record SessionContext : Type := {
  sc_document_context : list SessionDoc;
  sc_current_section : option pstr
}.

Record HistoryMessage : Type := {
  hm_role : pstr;
  hm_content : pstr
}.

Record ContextChunk : Type := {
  ck_content : pstr;
  ck_document_id : option Z;
  ck_section : option pstr;
  ck_score : Q
}.

Record QuestionAnalysis : Type := {
  qa_suggested_strategy : pstr;
  qa_is_follow_up : bool;
  qa_is_clarification : bool;
  qa_is_practical : bool
}.

Definition nl : pstr := [10%N].

(** [str(x)] inside an f-string for values that may be [None]. *)
Definition str_opt_Z (d : option Z) : pstr :=
  match d with Some z => str_of_Z z | None => py "None" end.

Definition str_opt (s : option pstr) : pstr :=
  match s with Some v => v | None => py "None" end.

(** [enumerate(l, 1)] *)
Definition enumerate1 {A : Type} (l : list A) : list (Z * A) :=
  combine (map (fun k => Z.of_nat (S k)) (seq 0 (length l))) l.

Definition base_system_prompt : pstr := py "Ты - эксперт по кулинарным вопросам и ресторанному менеджменту. Твоя задача - вести естественный диалог с пользователями.

ВАЖНО: ВСЕГДА отвечай ТОЛЬКО НА РУССКОМ ЯЗЫКЕ, независимо от языка вопроса пользователя.

РЕЖИМЫ ОТВЕТОВ:
1. **ДОКУМЕНТНЫЙ РЕЖИМ** - когда есть релевантная информация в документах
2. **ГИБРИДНЫЙ РЕЖИМ** - комбинируй документы с общими знаниями  
3. **ОБЩИЙ РЕЖИМ** - используй общие знания для поддержания диалога

СТРАТЕГИЯ ДИАЛОГА:
- Если вопрос связан с найденными документами - используй их как основу
- Если вопрос выходит за рамки документов - используй общие знания
- Если это продолжение диалога - поддерживай контекст и естественность
- Задавай уточняющие вопросы для лучшего понимания потребностей
- Предлагай связанные темы для углубления разговора

ПРАВИЛА ОТВЕТОВ:
1. Отвечай ТОЛЬКО на русском языке
2. Приоритет - найденным документам, но не ограничивайся только ими
3. Если информации недостаточно в документах - используй общие знания
4. Поддерживай естественный диалог и контекст разговора
5. Задавай уточняющие вопросы для лучшего понимания
6. Предлагай связанные темы для продолжения разговора

ФОРМАТ ОТВЕТА:
- Начинай с прямого ответа на вопрос
- Подкрепляй ответы данными из документов (если есть)
- Добавляй полезную информацию из общих знаний
- Завершай предложением для продолжения диалога

ПОМНИ: Ты не просто поисковик, а собеседник-эксперт!".

(** The text appended by the [else] clause of the loop over the
    context chunks. *)
Definition no_documents_notice : pstr :=
  nl ++ nl ++ py "КОНТЕКСТ: В данный момент нет найденных документов по запросу. Используй общие знания для ответа и предложи, какие документы могут быть полезны.".

Section Builder.

(** [f"{x:.2f}"] *)
Variable format_2f : Q -> pstr.

Definition session_line (entry : Z * SessionDoc) : pstr :=
  let '(i, doc) := entry in
  str_of_Z i ++ py ". Документ " ++ str_opt_Z (sd_document_id doc)
  ++ py " (раздел: " ++ str_opt (sd_section doc)
  ++ py ") - найден по запросу: '" ++ str_opt (sd_query doc) ++ py "'" ++ nl.

Definition add_session_context (session_context : option SessionContext)
  (prompt : pstr) : pstr :=
  match session_context with
  | Some sc =>
    if truthy (sc_document_context sc) then
      let recent_docs := py_drop (sc_document_context sc) (-5) in
      let p1 := prompt ++ nl ++ nl ++ py "ПРЕДЫДУЩИЙ КОНТЕКСТ СЕССИИ:" ++ nl in
      let p2 := p1 ++ py "В этой сессии уже обсуждались следующие документы:" ++ nl in
      let p3 := fold_left (fun p entry => p ++ session_line entry)
                          (enumerate1 recent_docs) p2 in
      match sc_current_section sc with
      | Some (c :: cs) =>
        p3 ++ nl ++ py "ТЕКУЩИЙ ФОКУС РАЗДЕЛА: " ++ (c :: cs) ++ nl
      | _ => p3
      end
    else prompt
  | None => prompt
  end.

Definition history_line (msg : HistoryMessage) : pstr :=
  if pstr_eqb (hm_role msg) (py "user")
  then py "Пользователь: " ++ hm_content msg ++ nl
  else py "Предыдущий ответ: " ++ hm_content msg ++ nl.

Definition add_history (conversation_history : list HistoryMessage)
  (prompt : pstr) : pstr :=
  if truthy conversation_history then
    let recent_history := py_drop conversation_history (-5) in
    let p1 := prompt ++ nl ++ nl ++ py "ИСТОРИЯ ДИАЛОГА (последние "
              ++ str_of_Z (len recent_history) ++ py " сообщений):" ++ nl in
    fold_left (fun p msg => p ++ history_line msg) recent_history p1
  else prompt.

Definition chunk_lines (entry : Z * ContextChunk) : pstr :=
  let '(i, chunk) := entry in
  py "Фрагмент " ++ str_of_Z i ++ py ":" ++ nl
  ++ py "Содержание: " ++ ck_content chunk ++ nl
  ++ py "Источник: Документ " ++ str_opt_Z (ck_document_id chunk)
  ++ py ", Раздел: " ++ str_opt (ck_section chunk) ++ nl
  ++ py "Релевантность: " ++ format_2f (ck_score chunk) ++ nl ++ nl.

(** [if context_chunks: ...] followed by the [for ... else] statement;
    the loop has no [break], so the [else] clause runs after it. *)
Definition add_context (context_chunks : list ContextChunk) (prompt : pstr)
  : pstr :=
  let p1 :=
    if truthy context_chunks then
      prompt ++ nl ++ nl ++ py "ТЕКУЩИЙ КОНТЕКСТ ДОКУМЕНТОВ:" ++ nl
      ++ py "Вот найденные релевантные фрагменты документов (используй их как основу, но не ограничивайся только ими):" ++ nl ++ nl
    else prompt in
  let p2 := fold_left (fun p entry => p ++ chunk_lines entry)
                      (enumerate1 context_chunks) p1 in
  p2 ++ no_documents_notice.

Definition strategy_document_heavy : pstr :=
  nl ++ nl ++ py "СТРАТЕГИЯ ОТВЕТА: У тебя есть релевантные документы. Сделай акцент на них, но можешь дополнить общими знаниями для более полного ответа.".

Definition strategy_context_aware : pstr :=
  nl ++ nl ++ py "СТРАТЕГИЯ ОТВЕТА: Это продолжение диалога. Используй контекст предыдущих сообщений и найденные документы для связного ответа.".

Definition strategy_general_knowledge : pstr :=
  nl ++ nl ++ py "СТРАТЕГИЯ ОТВЕТА: Документов не найдено. Используй общие знания и предложи, как можно найти нужную информацию.".

Definition strategy_hybrid : pstr :=
  nl ++ nl ++ py "СТРАТЕГИЯ ОТВЕТА: У тебя есть релевантные документы. Начни с них, но можешь дополнить общими знаниями для более полного ответа.".

Definition strategy_guidance (question_analysis : option QuestionAnalysis)
  (context_chunks : list ContextChunk) : pstr :=
  match question_analysis with
  | Some qa =>
    let strategy := qa_suggested_strategy qa in
    if pstr_eqb strategy (py "document_heavy") then strategy_document_heavy
    else if pstr_eqb strategy (py "context_aware") then strategy_context_aware
    else if pstr_eqb strategy (py "general_knowledge")
    then strategy_general_knowledge
    else strategy_hybrid
  | None =>
    if truthy context_chunks then strategy_hybrid
    else strategy_general_knowledge
  end.

Definition follow_up_instructions : pstr :=
  nl ++ nl ++ py "ОСОБЫЕ ИНСТРУКЦИИ ДЛЯ FOLLOW-UP ВОПРОСА:" ++ nl
  ++ py "- Это продолжение диалога, поэтому поддерживай естественность" ++ nl
  ++ py "- Ссылайся на предыдущие ответы и найденные документы" ++ nl
  ++ py "- Если нужно, задавай уточняющие вопросы" ++ nl
  ++ py "- Предлагай связанные темы для углубления разговора".

Definition clarification_instructions : pstr :=
  nl ++ nl ++ py "ОСОБЫЕ ИНСТРУКЦИИ ДЛЯ УТОЧНЯЮЩЕГО ВОПРОСА:" ++ nl
  ++ py "- Объясни простыми и понятными словами" ++ nl
  ++ py "- Используй примеры и аналогии" ++ nl
  ++ py "- Разбивай сложные концепции на простые части" ++ nl
  ++ py "- Проверяй понимание пользователя".

Definition practical_instructions : pstr :=
  nl ++ nl ++ py "ОСОБЫЕ ИНСТРУКЦИИ ДЛЯ ПРАКТИЧЕСКОГО ВОПРОСА:" ++ nl
  ++ py "- Давай пошаговые инструкции" ++ nl
  ++ py "- Указывай важные детали и нюансы" ++ nl
  ++ py "- Предупреждай о возможных проблемах" ++ nl
  ++ py "- Предлагай альтернативные варианты".

Definition flag (question_analysis : option QuestionAnalysis)
  (f : QuestionAnalysis -> bool) : bool :=
  match question_analysis with
  | Some qa => f qa
  | None => false
  end.

(** The content of the system message. *)
Definition system_prompt (query : pstr) (context_chunks : list ContextChunk)
  (conversation_history : list HistoryMessage)
  (session_context : option SessionContext)
  (question_analysis : option QuestionAnalysis) : pstr :=
  let p1 := add_session_context session_context base_system_prompt in
  let p2 := add_history conversation_history p1 in
  let p3 := add_context context_chunks p2 in
  let p4 := p3 ++ py "ВОПРОС ПОЛЬЗОВАТЕЛЯ:" ++ nl ++ query ++ nl ++ nl in
  let p5 := p4 ++ strategy_guidance question_analysis context_chunks in
  let p6 := p5 ++ nl ++ nl
            ++ py "ОТВЕТ (обязательно на русском языке, поддерживай диалог):" in
  let p7 := if flag question_analysis qa_is_follow_up
            then p6 ++ follow_up_instructions else p6 in
  let p8 := if flag question_analysis qa_is_clarification
            then p7 ++ clarification_instructions else p7 in
  if flag question_analysis qa_is_practical
  then p8 ++ practical_instructions else p8.

(** The list of [(role, content)] messages handed to the model. *)
Definition _prepare_conversation_messages (query : pstr)
  (context_chunks : list ContextChunk)
  (conversation_history : list HistoryMessage)
  (session_context : option SessionContext)
  (question_analysis : option QuestionAnalysis) : list (pstr * pstr) :=
  [(py "system",
    system_prompt query context_chunks conversation_history session_context
      question_analysis)].

End Builder.

(** [s] occurs in [t]. *)
Definition contains (s t : pstr) : Prop :=
  exists pre post, t = pre ++ s ++ post.

End Prompt.

Module PromptFacts.
Import Prompt.

Lemma contains_app_l : forall s t u, contains s t -> contains s (t ++ u).
Proof.
  intros s t u [pre [post ->]]. exists pre, (post ++ u).
  now rewrite <- !app_assoc.
Qed.

Lemma contains_tail : forall s t, contains s (t ++ s).
Proof. intros s t. exists t, []. now rewrite app_nil_r. Qed.

Lemma contains_if : forall s t u (b : bool),
  contains s t -> contains s (if b then t ++ u else t).
Proof. intros s t u [|] H; [now apply contains_app_l|assumption]. Qed.

(** C10: whatever the context chunks are (none or some), the system
    prompt built for the model contains the notice that no documents
    were found and general knowledge is to be used: the notice is the
    [else] clause of a loop without [break]. *)
Theorem notice_always_in_system_prompt :
  forall format_2f query context_chunks conversation_history session_context
         question_analysis,
  exists prompt,
    _prepare_conversation_messages format_2f query context_chunks
      conversation_history session_context question_analysis
      = [(py "system", prompt)] /\
    contains no_documents_notice prompt.
Proof.
  intros format_2f query context_chunks conversation_history session_context
         question_analysis.
  eexists. split; [reflexivity|].
  unfold system_prompt. cbv zeta.
  do 3 apply contains_if.
  do 3 apply contains_app_l.
  unfold add_context. apply contains_tail.
Qed.

End PromptFacts.

(* ================================================================== *)
(** * Further properties of the chunker *)
(* ================================================================== *)

Module ChunkerMore.
Import Chunker ChunkerFacts.
Open Scope Z_scope.

(** A string without whitespace at either end. *)
Definition starts_clean (s : pstr) : bool :=
  match s with
  | [] => true
  | c :: _ => negb (isspace c)
  end.

Definition trimmed (s : pstr) : bool := starts_clean s && starts_clean (rev s).

Lemma lstrip_starts_clean : forall s, starts_clean (lstrip s) = true.
Proof.
  induction s as [|c r IH]; simpl; [reflexivity|].
  destruct (isspace c) eqn:E; [assumption|]. simpl. now rewrite E.
Qed.

Lemma lstrip_fixed : forall s, starts_clean s = true -> lstrip s = s.
Proof.
  intros [|c r] H; [reflexivity|]. simpl in *.
  destruct (isspace c); [discriminate|reflexivity].
Qed.

(** [lstrip] removes a prefix made of whitespace. *)
Lemma lstrip_split : forall s,
  exists pre, s = pre ++ lstrip s /\ forallb isspace pre = true.
Proof.
  induction s as [|c r [pre [E F]]]; simpl.
  - exists []. now split.
  - destruct (isspace c) eqn:C.
    + exists (c :: pre). simpl. rewrite C, F. split; [now f_equal|reflexivity].
    + exists []. now split.
Qed.

Lemma rstrip_split : forall s,
  exists post, s = rstrip s ++ post /\ forallb isspace post = true.
Proof.
  intros s. destruct (lstrip_split (rev s)) as [pre [E F]].
  exists (rev pre). split.
  - unfold rstrip. rewrite <- rev_app_distr, <- E. now rewrite rev_involutive.
  - rewrite forallb_forall in *. intros x Hx. apply F. now apply in_rev.
Qed.

Lemma rstrip_starts_clean : forall s,
  starts_clean s = true -> starts_clean (rstrip s) = true.
Proof.
  intros s H. destruct (rstrip_split s) as [post [E _]].
  destruct (rstrip s) as [|c r]; [reflexivity|].
  rewrite E in H. exact H.
Qed.

Lemma strip_trimmed : forall s, trimmed (strip s) = true.
Proof.
  intros s. unfold trimmed, strip. apply andb_true_iff. split.
  - apply rstrip_starts_clean, lstrip_starts_clean.
  - unfold rstrip. rewrite rev_involutive. apply lstrip_starts_clean.
Qed.

Lemma strip_nonempty : forall c r,
  isspace c = false -> truthy (strip (c :: r)) = true.
Proof.
  intros c r H. unfold strip.
  rewrite (lstrip_fixed (c :: r)) by (simpl; now rewrite H).
  destruct (rstrip_split (c :: r)) as [post [E F]].
  destruct (rstrip (c :: r)) as [|c' r']; [|reflexivity].
  simpl in E. subst post. simpl in F. rewrite H in F. discriminate.
Qed.

Lemma py_slice_length : forall (A : Type) (s : list A) a b,
  0 <= a -> 0 <= b -> len (py_slice s a b) <= Z.max 0 (b - a).
Proof.
  intros A s a b Ha Hb. unfold py_slice, len.
  rewrite length_firstn, length_skipn. unfold clip.
  destruct (a <? 0) eqn:E; [apply Z.ltb_lt in E; lia|].
  destruct (b <? 0) eqn:E'; [apply Z.ltb_lt in E'; lia|].
  unfold len; lia.
Qed.

(** Every slice cut by the loop starts at a non-negative position and
    spans between 402 and 501 characters. *)
Lemma split_bounds_spans : forall fuel text start bs,
  0 <= start ->
  split_bounds fuel text 500 50 start = Ret bs ->
  Forall (fun b => 0 <= fst b /\ fst b + 402 <= snd b <= fst b + 501) bs.
Proof.
  induction fuel as [|fuel IH]; intros text start bs Hs H; simpl in H.
  - discriminate.
  - destruct (start <? len text) eqn:E; [|injection H as <-; constructor].
    destruct (chunk_end_bounds text start Hs) as [e [He [Hfar Hnear]]].
    rewrite He in H. simpl in H.
    assert (Hb : start + 402 <= e <= start + 501).
    { destruct (Z_lt_le_dec (start + 500) (len text)) as [L|L];
        [specialize (Hfar L)|specialize (Hnear L)]; lia. }
    destruct (len text <=? e - 50).
    + injection H as <-. constructor; [simpl; lia|constructor].
    + destruct (split_bounds fuel text 500 50 (e - 50)) as [rest| |] eqn:R;
        simpl in H; try discriminate.
      injection H as <-. constructor; [simpl; lia|].
      eapply IH; [|exact R]. lia.
Qed.

Definition good_chunk (c : pstr) : Prop :=
  truthy c = true /\ trimmed c = true /\ len c <= 501.

Lemma push_chunk_good : forall text s e chunks,
  0 <= s -> s <= e <= s + 501 ->
  Forall good_chunk chunks -> Forall good_chunk (push_chunk text s e chunks).
Proof.
  intros text s e chunks Hs He H. unfold push_chunk.
  destruct (truthy (strip (py_slice text s e))) eqn:T; [|assumption].
  apply Forall_app. split; [assumption|].
  constructor; [|constructor].
  split; [exact T|]. split; [apply strip_trimmed|].
  pose proof (RetrievalFacts.strip_length (py_slice text s e)).
  pose proof (py_slice_length _ text s e Hs ltac:(lia)). lia.
Qed.

Lemma fold_push_good : forall text bs chunks,
  Forall (fun b => 0 <= fst b /\ fst b + 402 <= snd b <= fst b + 501) bs ->
  Forall good_chunk chunks ->
  Forall good_chunk
    (fold_left (fun acc b => push_chunk text (fst b) (snd b) acc) bs chunks).
Proof.
  intros text bs. induction bs as [|b bs IH]; intros chunks Hb Hc; simpl.
  - assumption.
  - inversion Hb as [|? ? Hb1 Hb2]; subst.
    apply IH; [assumption|]. apply push_chunk_good; [lia|lia|assumption].
Qed.

(** X1: every chunk the splitter returns for a text longer than the
    target is non-empty, carries no whitespace at either end and has at
    most 501 characters; a text of at most 500 characters comes back
    unchanged as the only chunk. *)
Theorem split_chunks_bounded_and_trimmed : forall text chunks,
  _split_text_into_chunks text = Ret chunks ->
  (len text <= 500 -> chunks = [text]) /\
  (500 < len text -> Forall good_chunk chunks).
Proof.
  intros text chunks H.
  unfold _split_text_into_chunks, _split_text_into_chunks_fuel in H.
  destruct (len text <=? 500) eqn:E.
  - apply Z.leb_le in E. injection H as <-. split; [reflexivity|lia].
  - apply Z.leb_gt in E. split; [lia|]. intros _.
    rewrite split_loop_bounds in H.
    destruct (split_bounds (S (length text)) text 500 50 0) as [bs| |] eqn:B;
      simpl in H; try discriminate.
    injection H as <-.
    apply fold_push_good; [|constructor].
    eapply split_bounds_spans; [|exact B]. lia.
Qed.

Lemma split_chunks_bounded_and_trimmed_witness :
  Forall good_chunk [[97%N]].
Proof.
  refine (proj2 (split_chunks_bounded_and_trimmed padded_block [[97%N]] _) _).
  - vm_compute. reflexivity.
  - vm_compute. reflexivity.
Defined.

(** X2: the slices leave no gap: every position of a text longer than
    the target lies inside one of the slices cut by the loop. *)
Lemma split_bounds_cover : forall fuel text start bs,
  0 <= start ->
  split_bounds fuel text 500 50 start = Ret bs ->
  forall i, start <= i < len text ->
  exists b, In b bs /\ fst b <= i < snd b.
Proof.
  induction fuel as [|fuel IH]; intros text start bs Hs H i Hi; simpl in H.
  - discriminate.
  - destruct (start <? len text) eqn:E; [|apply Z.ltb_ge in E; lia].
    destruct (chunk_end_bounds text start Hs) as [e [He [Hfar Hnear]]].
    rewrite He in H. simpl in H.
    assert (Hb : start + 402 <= e <= start + 501).
    { destruct (Z_lt_le_dec (start + 500) (len text)) as [L|L];
        [specialize (Hfar L)|specialize (Hnear L)]; lia. }
    destruct (len text <=? e - 50) eqn:E2.
    + apply Z.leb_le in E2. injection H as <-.
      exists (start, e). split; [now left|simpl; lia].
    + apply Z.leb_gt in E2.
      destruct (split_bounds fuel text 500 50 (e - 50)) as [rest| |] eqn:R;
        simpl in H; try discriminate.
      injection H as <-.
      destruct (Z_lt_le_dec i e) as [L|L].
      * exists (start, e). split; [now left|simpl; lia].
      * destruct (IH text (e - 50) rest ltac:(lia) R i ltac:(lia))
          as [b [Hb1 Hb2]].
        exists b. split; [now right|assumption].
Qed.

Lemma fold_push_chunk : forall text bs acc,
  fold_left (fun acc b => push_chunk text (fst b) (snd b) acc) bs acc
  = acc ++ filter truthy
             (map (fun b => strip (py_slice text (fst b) (snd b))) bs).
Proof.
  intros text bs. induction bs as [|b r IH]; intros acc; simpl.
  - now rewrite app_nil_r.
  - rewrite IH. unfold push_chunk.
    destruct (truthy (strip (py_slice text (fst b) (snd b)))); simpl.
    + now rewrite <- app_assoc.
    + reflexivity.
Qed.

(** X2: for a text longer than the target the splitter returns; there
    are slices [text[s:e]], each spanning between 402 and 501
    characters from a non-negative start, that cover every position of
    the text, and the chunks returned are exactly these slices,
    stripped, in order, without the ones that are blank. *)
Theorem split_slices_cover_text : forall text,
  500 < len text ->
  exists bs,
    _split_text_into_chunks text
      = Ret (filter truthy
               (map (fun b => strip (py_slice text (fst b) (snd b))) bs)) /\
    Forall (fun b => 0 <= fst b /\ fst b + 402 <= snd b <= fst b + 501) bs /\
    forall i, 0 <= i < len text -> exists b, In b bs /\ fst b <= i < snd b.
Proof.
  intros text L.
  destruct (split_bounds_total (S (length text)) text 0) as [bs B].
  - lia.
  - unfold len. lia.
  - exists bs. split; [|split].
    + unfold _split_text_into_chunks, _split_text_into_chunks_fuel.
      replace (len text <=? 500) with false by (symmetry; apply Z.leb_gt; lia).
      rewrite split_loop_bounds, B. cbn [bind].
      now rewrite fold_push_chunk.
    + eapply split_bounds_spans; [|exact B]. lia.
    + intros i Hi. eapply split_bounds_cover; [|exact B|exact Hi]. lia.
Qed.

Lemma split_slices_cover_text_witness :
  exists bs,
    _split_text_into_chunks padded_block
      = Ret (filter truthy
               (map (fun b => strip (py_slice padded_block (fst b) (snd b))) bs)) /\
    Forall (fun b => 0 <= fst b /\ fst b + 402 <= snd b <= fst b + 501) bs /\
    forall i, 0 <= i < len padded_block ->
              exists b, In b bs /\ fst b <= i < snd b.
Proof.
  apply (split_slices_cover_text padded_block). vm_compute. reflexivity.
Defined.

(** *** Chunk creation *)

Section CreateChunksMore.

Variable E : Type.
Variable ge : pstr -> option E.
Variables (d : Z) (sec al : pstr).

(** What every chunk record of a document carries. *)
Definition chunk_record_ok (c : ChunkData E) : Prop :=
  cd_document_id E c = d /\ cd_section E c = sec /\
  cd_access_level E c = al /\
  truthy (strip (cd_content E c)) = true /\
  cd_chunk_id E c = str_of_Z d ++ py "_" ++ str_of_Z (cd_chunk_index E c).

(** The chunk indices are 0, 1, 2, ... in order. *)
Definition dense (chunks : list (ChunkData E)) : Prop :=
  map (cd_chunk_index E) chunks = map Z.of_nat (seq 0 (length chunks)).

Definition creation_state (chunks : list (ChunkData E)) (idx : Z) : Prop :=
  idx = len chunks /\ dense chunks /\ Forall chunk_record_ok chunks.

Lemma chunk_item_state : forall item tcs chunks idx,
  creation_state chunks idx ->
  creation_state (fst (chunk_item E ge d sec al item tcs chunks idx))
                 (snd (chunk_item E ge d sec al item tcs chunks idx)).
Proof.
  intros item tcs. induction tcs as [|[i tc] rest IH]; intros chunks idx H;
    simpl; [assumption|].
  destruct (MAX_CHUNKS_PER_DOCUMENT <=? idx); [assumption|].
  destruct (negb (truthy (strip tc))) eqn:T; [now apply IH|].
  destruct (ge tc) as [emb|]; [|now apply IH].
  apply IH. destruct H as [Hi [Hd Hf]]. split; [|split].
  - unfold len in *. rewrite length_app. simpl. lia.
  - unfold dense in *. rewrite map_app, length_app, Hd. simpl.
    rewrite Nat.add_1_r, seq_S, map_app. simpl.
    unfold len in Hi. now rewrite Hi.
  - apply Forall_app. split; [assumption|].
    constructor; [|constructor]. unfold chunk_record_ok. simpl.
    apply negb_false_iff in T. auto.
Qed.

Lemma chunk_content_state : forall content chunks idx r,
  creation_state chunks idx ->
  chunk_content E ge d sec al content chunks idx = Some r ->
  creation_state (fst r) (snd r).
Proof.
  induction content as [|item rest IH]; intros chunks idx r H R; simpl in R.
  - injection R as <-. assumption.
  - destruct (MAX_CHUNKS_PER_DOCUMENT <=? idx); [injection R as <-; assumption|].
    destruct (negb (truthy (strip (ci_content item)))); [eapply IH; eauto|].
    destruct (_split_text_into_chunks (ci_content item)) as [tcs| |];
      try discriminate.
    pose proof (chunk_item_state item (enumerate tcs) chunks idx H) as K.
    destruct (chunk_item E ge d sec al item (enumerate tcs) chunks idx)
      as [chunks' idx'].
    eapply IH; eauto.
Qed.

End CreateChunksMore.

(** X3: the chunks created for a document are numbered 0, 1, 2, ... in
    the order of the list, there are at most 200 of them, and each one
    carries the document id, section and access level of the call, a
    content that is not blank, and the id [<document_id>_<index>]. *)
Theorem create_chunks_dense_indices :
  forall (E : Type) (ge : pstr -> option E) d sec al content chunks,
  _create_chunks_from_content E ge d sec al content = Some chunks ->
  dense E chunks /\ len chunks <= 200 /\
  Forall (chunk_record_ok E d sec al) chunks.
Proof.
  intros E ge d sec al content chunks H.
  pose proof (create_chunks_cap E ge d sec al content chunks H) as Hcap.
  unfold _create_chunks_from_content in H.
  destruct (negb (truthy content)); [discriminate|].
  destruct (chunk_content E ge d sec al content [] 0) as [r|] eqn:R;
    [|discriminate].
  simpl in H. injection H as <-.
  apply chunk_content_state in R.
  - destruct R as [_ [Hd Hf]]. auto.
  - split; [reflexivity|]. split; [reflexivity|constructor].
Qed.

(** A block of two sentences, embedded by a provider that returns the
    length of the text. *)
Definition two_sentences : ContentItem :=
  {| ci_content := py "Wash hands.  Dry hands.";
     ci_type := py "text"; ci_section_name := py "Hygiene";
     ci_page := Some 1; ci_sheet_name := [] |}.

Definition length_embedding (t : pstr) : option Z := Some (len t).

Lemma create_chunks_dense_indices_witness :
  exists chunks,
    _create_chunks_from_content Z length_embedding 5 (py "procedures")
      (py "kitchen_management") [two_sentences; two_sentences] = Some chunks /\
    dense Z chunks /\ len chunks = 2.
Proof.
  destruct (_create_chunks_from_content Z length_embedding 5 (py "procedures")
              (py "kitchen_management") [two_sentences; two_sentences])
    as [chunks|] eqn:C; [|vm_compute in C; discriminate].
  exists chunks. split; [reflexivity|].
  split.
  - exact (proj1 (create_chunks_dense_indices Z length_embedding 5
                    (py "procedures") (py "kitchen_management")
                    [two_sentences; two_sentences] chunks C)).
  - vm_compute in C. injection C as <-. reflexivity.
Defined.

(** *** The splitter of the parser module *)

Lemma progress_below_one_percent : forall s n : Z,
  0 < n -> 100 * s < n ->
  Qltb (inject_Z s / inject_Z n) 0.01 = true.
Proof.
  intros s n Hn H. apply MemoryFacts.Qltb_true_lt.
  apply Qlt_shift_div_r.
  - unfold Qlt, inject_Z. cbn [Qnum Qden]. lia.
  - unfold Qlt, Qmult, inject_Z. cbn [Qnum Qden]. lia.
Qed.

Lemma parser_split_loop_step :
  forall remaining text max_chunk_size overlap start chunks iteration_count,
  parser_split_loop (S remaining) text max_chunk_size overlap start chunks
    iteration_count =
  if start <? len text then
    e <- chunk_end text max_chunk_size start ;;
    let chunks' := push_chunk text start e chunks in
    let start' := e - overlap in
    if (len text <=? start') || (start' <=? 0)
    then Ret (chunks', iteration_count + 1)
    else if truthy chunks' && (start' <? len text)
            && Qltb (inject_Z start' / inject_Z (len text)) 0.01
    then Ret (chunks', iteration_count + 1)
    else parser_split_loop remaining text max_chunk_size overlap start'
           chunks' (iteration_count + 1)
  else Ret (chunks, iteration_count).
Proof. reflexivity. Qed.

(** X4: with the default target and overlap, the splitter of the parser
    module stops after its first iteration on every text of more than
    45100 characters that starts with a non-blank character: the
    progress [start / len(text)] is then below one percent, and the
    result is a single chunk of at most 501 characters. *)
Theorem parser_split_long_text_single_chunk : forall c rest,
  isspace c = false ->
  45100 < len (c :: rest) ->
  exists chunk,
    parser_split_text_into_chunks (c :: rest) 500 50 = Ret ([chunk], 1) /\
    len chunk <= 501.
Proof.
  intros c rest Hc L. set (text := c :: rest) in *.
  destruct (chunk_end_bounds text 0 ltac:(lia)) as [e [He [Hfar _]]].
  specialize (Hfar ltac:(lia)).
  assert (T : truthy (strip (py_slice text 0 e)) = true).
  { assert (S : exists r', py_slice text 0 e = c :: r').
    { unfold py_slice, clip. cbn [Z.ltb Z.compare].
      replace (Z.min 0 (len text)) with 0 by lia.
      change (Z.to_nat 0) with 0%nat. rewrite skipn_O.
      destruct (e <? 0) eqn:E0; [apply Z.ltb_lt in E0; lia|].
      destruct (Z.to_nat (Z.min e (len text) - 0)) as [|k] eqn:K;
        [unfold len in *; lia|].
      unfold text. simpl. eauto. }
    destruct S as [r' ->]. now apply strip_nonempty. }
  exists (strip (py_slice text 0 e)). split.
  - unfold parser_split_text_into_chunks.
    replace (len text <=? 500) with false by (symmetry; apply Z.leb_gt; lia).
    assert (Step : parser_split_loop MAX_ITERATIONS text 500 50 0 [] 0
                   = Ret ([strip (py_slice text 0 e)], 1)).
    { unfold MAX_ITERATIONS. rewrite parser_split_loop_step.
      replace (0 <? len text) with true by (symmetry; apply Z.ltb_lt; lia).
      rewrite He. cbn [bind]. cbv zeta.
      replace ((len text <=? e - 50) || (e - 50 <=? 0)) with false.
      2:{ symmetry. apply orb_false_iff. split;
            [apply Z.leb_gt|apply Z.leb_gt]; lia. }
      unfold push_chunk. rewrite T. cbn [app truthy andb].
      replace (e - 50 <? len text) with true by (symmetry; apply Z.ltb_lt; lia).
      rewrite progress_below_one_percent by lia. reflexivity. }
    rewrite Step. reflexivity.
  - pose proof (RetrievalFacts.strip_length (py_slice text 0 e)).
    pose proof (py_slice_length _ text 0 e ltac:(lia) ltac:(lia)). lia.
Qed.

(** A text of 45101 letters. *)
Definition long_letters : pstr := repeat 97%N (Z.to_nat 45100).

Lemma parser_split_long_text_single_chunk_witness :
  exists chunk,
    parser_split_text_into_chunks (97%N :: long_letters) 500 50
      = Ret ([chunk], 1) /\
    len chunk <= 501.
Proof.
  apply (parser_split_long_text_single_chunk 97%N long_letters).
  - reflexivity.
  - vm_compute. reflexivity.
Defined.

End ChunkerMore.

(* ================================================================== *)
(** * Further properties of the vector adapter *)
(* ================================================================== *)

Module VectorMore.
Import VectorService ChunkerFacts RetrievalFacts.
Open Scope Z_scope.

(** Number of hits of a document in a list. *)
Definition hits_of (doc : Z) (hs : list Hit) : nat :=
  length (filter (fun h => h_document_id h =? doc) hs).

Lemma hits_of_app : forall doc a b,
  hits_of doc (a ++ b) = (hits_of doc a + hits_of doc b)%nat.
Proof. intros. unfold hits_of. now rewrite filter_app, length_app. Qed.

Lemma hits_of_le_length : forall doc hs, (hits_of doc hs <= length hs)%nat.
Proof. intros. unfold hits_of. apply filter_length_le. Qed.

Lemma hits_of_firstn : forall doc n hs,
  (hits_of doc (firstn n hs) <= hits_of doc hs)%nat.
Proof.
  intros doc n hs. rewrite <- (firstn_skipn n hs) at 2.
  rewrite hits_of_app. lia.
Qed.

Lemma hits_of_skipn : forall doc n hs,
  (hits_of doc (skipn n hs) <= hits_of doc hs)%nat.
Proof.
  intros doc n hs. rewrite <- (firstn_skipn n hs) at 2.
  rewrite hits_of_app. lia.
Qed.

Lemma hits_of_py_take : forall doc hs n,
  (hits_of doc (py_take hs n) <= hits_of doc hs)%nat.
Proof.
  intros doc hs n. unfold py_take, py_slice.
  eapply Nat.le_trans; [apply hits_of_firstn|apply hits_of_skipn].
Qed.

Lemma hits_of_insert_desc : forall doc (key : Hit -> Q) x l,
  hits_of doc (insert_desc key x l) = hits_of doc (x :: l).
Proof.
  intros doc key x l. induction l as [|y r IH]; [reflexivity|].
  simpl. destruct (Qltb (key x) (key y)); [|reflexivity].
  unfold hits_of in *. simpl in *.
  destruct (h_document_id y =? doc); destruct (h_document_id x =? doc);
    simpl in *; lia.
Qed.

Lemma hits_of_sorted_desc : forall doc (key : Hit -> Q) l,
  hits_of doc (sorted_desc key l) = hits_of doc l.
Proof.
  intros doc key l. induction l as [|x r IH]; [reflexivity|].
  simpl. rewrite hits_of_insert_desc.
  unfold hits_of in *. simpl. destruct (h_document_id x =? doc); simpl; lia.
Qed.

(** The grouping dictionary: distinct keys, and every hit filed under
    its own document id. *)
Definition groups_ok (groups : list (Z * list Hit)) : Prop :=
  NoDup (map fst groups) /\
  forall g h, In g groups -> In h (snd g) -> h_document_id h = fst g.

Lemma group_add_keys : forall h groups k,
  In k (map fst (group_add h groups)) ->
  k = h_document_id h \/ In k (map fst groups).
Proof.
  intros h groups. induction groups as [|[d hs] rest IH]; simpl; intros k H.
  - destruct H as [H|[]]; auto.
  - destruct (d =? h_document_id h); simpl in H.
    + destruct H as [H|H]; auto.
    + destruct H as [H|H]; [auto|]. apply IH in H. tauto.
Qed.

Lemma group_add_ok : forall h groups,
  groups_ok groups -> groups_ok (group_add h groups).
Proof.
  intros h groups. induction groups as [|[d hs] rest IH]; intros [Hn Hh].
  - simpl. split.
    + constructor; [intros []|constructor].
    + intros g x [<-|[]] Hx. simpl in *. destruct Hx as [<-|[]]. reflexivity.
  - simpl. destruct (d =? h_document_id h) eqn:E.
    + apply Z.eqb_eq in E. split; [exact Hn|].
      intros g x [<-|Hg] Hx.
      * simpl in *. apply in_app_or in Hx. destruct Hx as [Hx|[<-|[]]].
        -- apply (Hh (d, hs) x); [now left|assumption].
        -- now symmetry.
      * apply (Hh g x); [now right|assumption].
    + apply Z.eqb_neq in E.
      inversion Hn as [|? ? Hnot Hrest]; subst.
      destruct IH as [IHn IHh].
      { split; [assumption|]. intros g x Hg Hx. apply (Hh g x); [now right|assumption]. }
      split.
      * simpl. constructor; [|assumption].
        intros Hin. apply group_add_keys in Hin. simpl in *.
        destruct Hin as [Hin|Hin]; [congruence|contradiction].
      * intros g x [<-|Hg] Hx.
        -- apply (Hh (d, hs) x); [now left|assumption].
        -- now apply (IHh g x).
Qed.

Lemma group_by_document_ok : forall hs, groups_ok (group_by_document hs).
Proof.
  intros hs. unfold group_by_document.
  assert (G : forall l acc, groups_ok acc ->
            groups_ok (fold_left (fun groups h => group_add h groups) l acc)).
  { induction l as [|h l IH]; intros acc Ha; simpl; [assumption|].
    apply IH. now apply group_add_ok. }
  apply G. split; [constructor|intros g h []].
Qed.

Lemma hits_of_none : forall doc hs,
  (forall h, In h hs -> h_document_id h <> doc) -> hits_of doc hs = 0%nat.
Proof.
  intros doc hs H. unfold hits_of. induction hs as [|h r IH]; [reflexivity|].
  simpl. destruct (h_document_id h =? doc) eqn:E.
  - apply Z.eqb_eq in E. exfalso. apply (H h); [now left|assumption].
  - apply IH. intros x Hx. apply H. now right.
Qed.

Lemma best_three_per_document : forall doc groups,
  groups_ok groups -> (hits_of doc (best_three groups) <= 3)%nat.
Proof.
  intros doc groups. induction groups as [|[d hs] rest IH]; intros [Hn Hh].
  - simpl. unfold hits_of. simpl. lia.
  - unfold best_three in *. cbn [flat_map snd]. rewrite hits_of_app.
    inversion Hn as [|? ? Hnot Hrest]; subst.
    assert (Hok : groups_ok rest).
    { split; [assumption|]. intros g x Hg Hx. apply (Hh g x); [now right|assumption]. }
    destruct (Z.eq_dec d doc) as [->|Hne].
    + assert (Z0 : hits_of doc
                     (flat_map (fun g => firstn 3 (sorted_desc h_score (snd g))) rest)
                   = 0%nat).
      { apply hits_of_none. intros h Hin E.
        apply in_flat_map in Hin. destruct Hin as [g [Hg Hx]].
        apply in_firstn, in_sorted_desc in Hx.
        assert (K : h_document_id h = fst g) by (apply (Hh g h); [now right|assumption]).
        apply Hnot. simpl. rewrite <- E, K. now apply in_map. }
      rewrite Z0.
      pose proof (hits_of_le_length doc (firstn 3 (sorted_desc h_score hs))).
      pose proof (firstn_le_length 3 (sorted_desc h_score hs)). lia.
    + assert (Z0 : hits_of doc (firstn 3 (sorted_desc h_score hs)) = 0%nat).
      { apply hits_of_none. intros h Hin E.
        apply in_firstn, in_sorted_desc in Hin.
        assert (K : h_document_id h = d) by (apply (Hh (d, hs) h); [now left|assumption]).
        congruence. }
      rewrite Z0. simpl. now apply IH.
Qed.

(** X5: a similarity search never returns more than three hits of the
    same document. *)
Theorem search_similar_three_per_document :
  forall V ann isalnum qv limit t flt hits doc,
  search_similar V ann isalnum qv limit t flt = Ret hits ->
  (hits_of doc hits <= 3)%nat.
Proof.
  intros V ann isalnum qv limit t flt hits doc H.
  unfold search_similar in H.
  destruct (client_search V ann qv (Z.min (limit * 3) 50) (t * 0.8)%Q flt)
    as [found| |]; simpl in H; try discriminate.
  injection H as <-. unfold _smart_filter_and_rank_results.
  destruct (negb (truthy found)); [unfold hits_of; simpl; lia|].
  eapply Nat.le_trans; [apply hits_of_py_take|].
  rewrite hits_of_sorted_desc.
  apply best_three_per_document, group_by_document_ok.
Qed.

(** Five chunks of one document and one of another, all good enough to
    pass the filter. *)
Definition crowded_index (_ : unit) (_ : Filters) : res (list Hit) :=
  Ret (map (fun k =>
              Retrieval.mk_hit (inject_Z (80 + k) / 100) 4
                (py "4_" ++ str_of_Z k)
                (py "Stock rotation follows first in first out")
                AccessControl.procedures AccessControl.kitchen_management)
           [0; 1; 2; 3; 4]
       ++ [Retrieval.storage_rules]).

Lemma search_similar_three_per_document_witness :
  exists hits,
    search_similar unit crowded_index Retrieval.ascii_isalnum tt 10 0.5 no_filters
      = Ret hits /\
    (hits_of 4 hits <= 3)%nat /\ length hits = 4%nat.
Proof.
  destruct (search_similar unit crowded_index Retrieval.ascii_isalnum tt 10 0.5
              no_filters) as [hits| |] eqn:S;
    try (vm_compute in S; discriminate).
  exists hits. split; [reflexivity|]. split.
  - exact (search_similar_three_per_document unit crowded_index
             Retrieval.ascii_isalnum tt 10 0.5%Q no_filters hits 4 S).
  - vm_compute in S. injection S as <-. reflexivity.
Defined.

End VectorMore.

(* ================================================================== *)
(** * Indexing writes ([services/vector_service.py],
      [services/document_processor.py]) *)
(* ================================================================== *)

Module Indexer.
Open Scope Z_scope.

(** [range(start, stop, step)] for a positive step. *)
Definition py_range (start stop step : Z) : list Z :=
  map (fun k => start + Z.of_nat k * step)
      (seq 0 (Z.to_nat ((stop - start + step - 1) / step))).

(** The sequence of [upsert] calls of [add_embeddings]:
    [for i in range(0, len(points), batch_size): points[i:i + batch_size]]. *)
Definition upsert_batches {A : Type} (points : list A) (batch_size : Z)
  : list (list A) :=
  map (fun i => py_slice points i (i + batch_size))
      (py_range 0 (len points) batch_size).

Definition MAX_CHUNKS_FOR_VECTOR_DB : Z := 100.

(** The clamp of [_store_chunks_in_vector_db]. *)
Definition clamp_chunks {A : Type} (chunks : list A) : list A :=
  if MAX_CHUNKS_FOR_VECTOR_DB <? len chunks
  then py_take chunks MAX_CHUNKS_FOR_VECTOR_DB else chunks.

(** The upserts issued when the processor stores the chunks of a
    document ([batch_size = 100] in [add_embeddings]). *)
Definition store_upserts {A : Type} (chunks : list A) : list (list A) :=
  upsert_batches (clamp_chunks chunks) 100.

End Indexer.

Module IndexerFacts.
Import Indexer ChunkerFacts.
Open Scope Z_scope.

Lemma firstn_plus : forall (A : Type) x y (l : list A),
  firstn (x + y) l = firstn x l ++ firstn y (skipn x l).
Proof.
  intros A x. induction x as [|x IH]; intros y l; [reflexivity|].
  destruct l as [|a l]; simpl.
  - now rewrite firstn_nil.
  - now rewrite IH.
Qed.

Lemma py_slice_window : forall (A : Type) (l : list A) a b,
  0 <= a -> 0 <= b ->
  py_slice l a (a + b) = firstn (Z.to_nat b) (skipn (Z.to_nat a) l).
Proof.
  intros A l a b Ha Hb. unfold py_slice, clip.
  destruct (a <? 0) eqn:E1; [apply Z.ltb_lt in E1; lia|].
  destruct (a + b <? 0) eqn:E2; [apply Z.ltb_lt in E2; lia|].
  destruct (Z_le_gt_dec a (len l)) as [L|L].
  - replace (Z.min a (len l)) with a by lia.
    destruct (Z_le_gt_dec (a + b) (len l)) as [L2|L2].
    + replace (Z.min (a + b) (len l)) with (a + b) by lia.
      f_equal. lia.
    + replace (Z.min (a + b) (len l)) with (len l) by lia.
      rewrite !firstn_all2; [reflexivity| |];
        rewrite length_skipn; unfold len in *; lia.
  - replace (Z.min a (len l)) with (len l) by lia.
    rewrite (skipn_all2 l (n := Z.to_nat a)) by (unfold len in *; lia).
    rewrite (skipn_all2 l (n := Z.to_nat (len l))) by (unfold len in *; lia).
    now rewrite !firstn_nil.
Qed.

Lemma batches_prefix : forall (A : Type) (l : list A) b k,
  0 < b ->
  concat (map (fun i => py_slice l i (i + b))
              (map (fun j => 0 + Z.of_nat j * b) (seq 0 k)))
  = firstn (k * Z.to_nat b) l.
Proof.
  intros A l b k Hb. induction k as [|k IH]; [reflexivity|].
  rewrite seq_S, !map_app, concat_app, IH. simpl.
  rewrite app_nil_r, py_slice_window by lia.
  replace (Z.to_nat (Z.of_nat k * b)) with (k * Z.to_nat b)%nat by lia.
  rewrite <- firstn_plus. f_equal. lia.
Qed.

(** X6: the batches sent by [add_embeddings] are the list of points cut
    into consecutive pieces: concatenated they give back the points, in
    order, and no batch holds more than [batch_size] points. *)
Theorem upsert_batches_partition : forall (A : Type) (points : list A) b,
  0 < b ->
  concat (upsert_batches points b) = points /\
  Forall (fun batch => len batch <= b) (upsert_batches points b).
Proof.
  intros A points b Hb. unfold upsert_batches, py_range. split.
  - rewrite batches_prefix by assumption.
    apply firstn_all2.
    pose proof (len_nonneg points) as Hn. unfold len in *.
    assert (K : Z.of_nat (length points) <=
                ((Z.of_nat (length points) - 0 + b - 1) / b) * b).
    { pose proof (Z.div_mod (Z.of_nat (length points) - 0 + b - 1) b ltac:(lia)).
      pose proof (Z.mod_pos_bound (Z.of_nat (length points) - 0 + b - 1) b Hb).
      nia. }
    assert (P : 0 <= (Z.of_nat (length points) - 0 + b - 1) / b)
      by (apply Z.div_pos; lia).
    nia.
  - apply Forall_forall. intros batch Hin.
    apply in_map_iff in Hin. destruct Hin as [i [<- Hi]].
    apply in_map_iff in Hi. destruct Hi as [j [<- _]].
    pose proof (ChunkerMore.py_slice_length _ points (0 + Z.of_nat j * b)
                  (0 + Z.of_nat j * b + b) ltac:(nia) ltac:(nia)). lia.
Qed.

Lemma upsert_batches_partition_witness :
  concat (upsert_batches (seq 0 250) 100) = seq 0 250 /\
  Forall (fun batch => len batch <= 100) (upsert_batches (seq 0 250) 100).
Proof.
  apply (upsert_batches_partition nat (seq 0 250) 100). reflexivity.
Defined.

(** X7: when the processor stores the chunks of a document, the vector
    store receives at most one upsert, and it carries the first 100
    chunks of the list (all of them when there are no more than 100). *)
Theorem store_upserts_first_hundred : forall (A : Type) (c : A) (rest : list A),
  store_upserts (c :: rest) = [firstn 100 (c :: rest)].
Proof.
  intros A c rest. set (chunks := c :: rest).
  assert (Hpos : 0 < len chunks) by (unfold len, chunks; simpl; lia).
  assert (C : clamp_chunks chunks = firstn 100 chunks).
  { unfold clamp_chunks, MAX_CHUNKS_FOR_VECTOR_DB.
    destruct (100 <? len chunks) eqn:E.
    - apply Z.ltb_lt in E. unfold py_take.
      change 100 with (0 + 100) at 1. rewrite py_slice_window by lia.
      reflexivity.
    - apply Z.ltb_ge in E. symmetry. apply firstn_all2.
      unfold len in *. lia. }
  unfold store_upserts. rewrite C.
  set (kept := firstn 100 chunks).
  assert (Hk : 0 < len kept <= 100).
  { unfold kept, len. rewrite length_firstn. unfold len in Hpos. lia. }
  unfold upsert_batches, py_range.
  replace ((len kept - 0 + 100 - 1) / 100) with 1.
  2:{ apply Z.div_unique with (r := len kept - 1); lia. }
  change (Z.to_nat 1) with 1%nat. cbn [seq map].
  change (0 + Z.of_nat 0 * 100) with 0.
  f_equal. rewrite (py_slice_window A kept 0 100) by lia.
  change (Z.to_nat 0) with 0%nat. cbn [skipn].
  apply firstn_all2. unfold len in *. lia.
Qed.

End IndexerFacts.

(* ================================================================== *)
(** * Further properties of the retrieval engine *)
(* ================================================================== *)

Module EndpointsMore.
Import VectorService AccessControl Retrieval.
Open Scope Q_scope.

(** Outcome of an endpoint: a body or an HTTP error status. *)
Inductive http (A : Type) : Type :=
| Ok (body : A)
| HttpError (status : Z).

Arguments Ok {A} body.
Arguments HttpError {A} status.

(** [request.score_threshold or 0.5] *)
Definition threshold_or_default (t : Q) : Q := if Qeq_bool t 0 then 0.5 else t.

(** The results listed by the search endpoints: entries without a
    document id are skipped. *)
Definition listed (results : list DocumentSearchResult)
  : list DocumentSearchResult :=
  filter (fun r => negb (document_id r =? 0)%Z) results.

Section Endpoint.

Variable Vector : Type.
Variable get_embeddings : pstr -> option Vector.
Variable ann_candidates : Vector -> Filters -> res (list Hit).
Variable isalnum : pchar -> bool.

(** [POST /search/section]: the results it lists, or the error it
    raises. *)
Definition search_documents_by_section_endpoint
  (request : DocumentSearchRequest) (token_is_valid : bool)
  (token_access_level : option pstr) : http (list DocumentSearchResult) :=
  if negb token_is_valid then HttpError 401
  else
    match sr_section request with
    | Some s =>
      if negb (opt_truthy (sr_section request)) then HttpError 400
      else if negb (match token_access_level with
                    | Some level => check_section_access level s (py "read_only")
                    | None => false
                    end)
      then HttpError 403
      else
        Ok (listed
              (search_documents_internal Vector get_embeddings ann_candidates
                 isalnum (sr_query request) (sr_section request)
                 (opt_or (sr_access_level request) token_access_level)
                 (sr_limit request)
                 (threshold_or_default (sr_score_threshold request))
                 [s] true))
    | None => HttpError 400
    end.

(** [POST /search]: the results it lists, or the error it raises. *)
Definition search_documents_endpoint
  (request : DocumentSearchRequest) (token_is_valid : bool)
  (token_access_level : option pstr) : http (list DocumentSearchResult) :=
  if negb token_is_valid then HttpError 401
  else Ok (listed (search_documents Vector get_embeddings ann_candidates
                     isalnum request token_access_level)).

End Endpoint.

End EndpointsMore.

Module EngineMore.
Import VectorService AccessControl Retrieval ChunkerFacts RetrievalFacts
       MemoryFacts EndpointsMore.
Open Scope Q_scope.

(** *** Length *)

Lemma py_take_length : forall (A : Type) (l : list A) n,
  (0 <= n)%Z -> (len (py_take l n) <= n)%Z.
Proof.
  intros A l n Hn. unfold py_take.
  pose proof (ChunkerMore.py_slice_length _ l 0 n ltac:(lia) Hn). lia.
Qed.

(** X8: the engine never returns more results than the limit asked
    for. *)
Theorem search_internal_at_most_limit :
  forall V ge ann isalnum q sec al limit t us strict,
  (0 <= limit)%Z ->
  (len (search_documents_internal V ge ann isalnum q sec al limit t us strict)
     <= limit)%Z.
Proof.
  intros V ge ann isalnum q sec al limit t us strict Hl.
  assert (N : (len (@nil DocumentSearchResult) <= limit)%Z) by (unfold len; simpl; lia).
  assert (F : forall s0 sr,
    (len (fallback_and_merge V ge ann isalnum q s0 sr al limit t us strict)
       <= limit)%Z).
  { intros s0 sr. unfold fallback_and_merge.
    destruct (negb strict && truthy us); [now apply py_take_length|].
    match goal with |- context [if ?c then _ else _] => destruct c end;
      [exact N|now apply py_take_length]. }
  unfold search_documents_internal.
  destruct sec as [s|]; [|apply F].
  destruct (opt_truthy (Some s)); [|apply F].
  destruct (str_in s us).
  - destruct (negb (truthy (_perform_section_search V ge ann isalnum q s al limit t))).
    + destruct strict; [exact N|apply F].
    + destruct strict; [now apply py_take_length|].
      destruct (any_good t (_perform_section_search V ge ann isalnum q s al limit t));
        [now apply py_take_length|apply F].
  - destruct strict; [exact N|apply F].
Qed.

Lemma search_internal_at_most_limit_witness :
  (len (search_documents_internal unit demo_embed mixed_index ascii_isalnum
          (py "closing routine") None (Some kitchen_management) 1 0.6
          chat_user_sections false) <= 1)%Z.
Proof.
  apply search_internal_at_most_limit. vm_compute. discriminate.
Defined.

(** *** Order *)

(** Largest key first. *)
Fixpoint descending {A : Type} (key : A -> Q) (l : list A) : Prop :=
  match l with
  | [] => True
  | x :: r => (forall y, In y r -> key y <= key x) /\ descending key r
  end.

Lemma insert_desc_descending : forall (A : Type) (key : A -> Q) x l,
  descending key l -> descending key (insert_desc key x l).
Proof.
  intros A key x l. induction l as [|y r IH]; simpl; intros H.
  - split; [intros ? []|exact I].
  - destruct H as [Hy Hr].
    destruct (Qltb (key x) (key y)) eqn:E.
    + simpl. split; [|now apply IH].
      intros z Hz. apply in_insert_desc in Hz. destruct Hz as [->|Hz].
      * apply Qltb_true_lt in E. now apply Qlt_le_weak.
      * now apply Hy.
    + apply Qltb_false_iff in E. simpl. split; [|split; assumption].
      intros z [<-|Hz]; [exact E|].
      eapply Qle_trans; [apply Hy, Hz|exact E].
Qed.

Lemma sorted_desc_descending : forall (A : Type) (key : A -> Q) l,
  descending key (sorted_desc key l).
Proof.
  intros A key l. induction l as [|x r IH]; simpl; [exact I|].
  now apply insert_desc_descending.
Qed.

Lemma descending_firstn : forall (A : Type) (key : A -> Q) n l,
  descending key l -> descending key (firstn n l).
Proof.
  intros A key n. induction n as [|n IH]; intros [|x r] H; simpl; auto.
  destruct H as [Hx Hr]. split; [|now apply IH].
  intros y Hy. apply Hx. now apply in_firstn in Hy.
Qed.

Lemma descending_skipn : forall (A : Type) (key : A -> Q) n l,
  descending key l -> descending key (skipn n l).
Proof.
  intros A key n. induction n as [|n IH]; intros [|x r] H; simpl; auto.
  destruct H as [_ Hr]. now apply IH.
Qed.

Lemma descending_py_take : forall (A : Type) (key : A -> Q) l n,
  descending key l -> descending key (py_take l n).
Proof.
  intros A key l n H. unfold py_take, py_slice.
  now apply descending_firstn, descending_skipn.
Qed.

Lemma section_search_descending : forall V ge ann isalnum q s al limit t,
  descending score (_perform_section_search V ge ann isalnum q s al limit t).
Proof.
  intros. unfold _perform_section_search.
  destruct (embed V ge q) as [qv| |]; simpl; try exact I.
  match goal with |- context [search_similar ?a ?b ?c ?d ?e ?f ?g] =>
    destruct (search_similar a b c d e f g) as [raw| |]
  end; simpl; try exact I.
  apply descending_py_take, sorted_desc_descending.
Qed.

(** X9: whatever path the engine takes, the results come back ordered
    by score, best first. *)
Theorem search_internal_descending :
  forall V ge ann isalnum q sec al limit t us strict,
  descending score
    (search_documents_internal V ge ann isalnum q sec al limit t us strict).
Proof.
  intros V ge ann isalnum q sec al limit t us strict.
  assert (F : forall s0 sr,
    descending score
      (fallback_and_merge V ge ann isalnum q s0 sr al limit t us strict)).
  { intros s0 sr. unfold fallback_and_merge.
    destruct (negb strict && truthy us);
      [apply descending_py_take, sorted_desc_descending|].
    match goal with |- context [if ?c then _ else _] => destruct c end;
      [exact I|apply descending_py_take, sorted_desc_descending]. }
  unfold search_documents_internal.
  destruct sec as [s|]; [|apply F].
  destruct (opt_truthy (Some s)); [|apply F].
  destruct (str_in s us).
  - destruct (negb (truthy (_perform_section_search V ge ann isalnum q s al limit t))).
    + destruct strict; [exact I|apply F].
    + destruct strict;
        [apply descending_py_take, section_search_descending|].
      destruct (any_good t (_perform_section_search V ge ann isalnum q s al limit t));
        [apply descending_py_take, section_search_descending|apply F].
  - destruct strict; [exact I|apply F].
Qed.

(** *** Scores *)






(** *** De-duplication *)

Definition result_key (r : DocumentSearchResult) : Z * pstr :=
  (document_id r, chunk_id r).

Lemma same_key_true : forall a b,
  same_key a b = true -> result_key a = result_key b.
Proof.
  intros a b H. unfold same_key in H. apply andb_true_iff in H.
  destruct H as [H1 H2]. apply Z.eqb_eq in H1. apply pstr_eqb_true in H2.
  unfold result_key. congruence.
Qed.

Lemma same_key_false : forall a b,
  same_key a b = false -> result_key a <> result_key b.
Proof.
  intros a b H E. unfold result_key in E. injection E as E1 E2.
  unfold same_key in H. rewrite E1, E2, Z.eqb_refl, pstr_eqb_refl in H.
  discriminate.
Qed.

Lemma unique_add_keys : forall r u k,
  In k (map result_key (unique_add r u)) ->
  k = result_key r \/ In k (map result_key u).
Proof.
  intros r u k H. apply in_map_iff in H. destruct H as [x [<- Hx]].
  revert Hx. induction u as [|v rest IH]; simpl; intros Hx.
  - destruct Hx as [<-|[]]. now left.
  - destruct (same_key v r) eqn:E.
    + apply same_key_true in E.
      destruct (Qltb (score v) (score r)); simpl in Hx;
        destruct Hx as [<-|Hx]; auto.
      * right. right. now apply in_map.
      * right. right. now apply in_map.
    + simpl in Hx. destruct Hx as [<-|Hx]; [auto|].
      destruct (IH Hx); auto.
Qed.

Lemma unique_add_nodup : forall r u,
  NoDup (map result_key u) -> NoDup (map result_key (unique_add r u)).
Proof.
  intros r u. induction u as [|v rest IH]; simpl; intros H.
  - constructor; [intros []|constructor].
  - inversion H as [|? ? Hnot Hrest]; subst.
    destruct (same_key v r) eqn:E.
    + apply same_key_true in E.
      destruct (Qltb (score v) (score r)); simpl; [|exact H].
      rewrite <- E. exact H.
    + apply same_key_false in E. simpl. constructor; [|now apply IH].
      intros Hin. apply unique_add_keys in Hin.
      destruct Hin as [Hin|Hin]; [contradiction|contradiction].
Qed.

(** After [unique_add], every earlier entry and the new one are
    represented by an entry of the same key whose score is not lower. *)
Definition represented (r : DocumentSearchResult)
  (u : list DocumentSearchResult) : Prop :=
  exists x, In x u /\ result_key x = result_key r /\ score r <= score x.

Lemma unique_add_represents_new : forall r u, represented r (unique_add r u).
Proof.
  intros r u. induction u as [|v rest IH]; simpl.
  - exists r. split; [now left|]. split; [reflexivity|apply Qle_refl].
  - destruct (same_key v r) eqn:E.
    + apply same_key_true in E.
      destruct (Qltb (score v) (score r)) eqn:L.
      * exists r. split; [now left|]. split; [reflexivity|apply Qle_refl].
      * apply Qltb_false_iff in L. exists v. split; [now left|]. now split.
    + destruct IH as [x [Hx Hk]]. exists x. split; [now right|assumption].
Qed.

Lemma unique_add_represents_old : forall r u y,
  represented y u -> represented y (unique_add r u).
Proof.
  intros r u y [x [Hx [Hk Hs]]]. induction u as [|v rest IH]; [destruct Hx|].
  simpl. destruct (same_key v r) eqn:E.
  - destruct Hx as [->|Hx].
    + apply same_key_true in E.
      destruct (Qltb (score x) (score r)) eqn:L.
      * apply Qltb_true_lt in L. exists r. split; [now left|].
        split; [congruence|]. eapply Qle_trans; [exact Hs|now apply Qlt_le_weak].
      * exists x. split; [now left|]. now split.
    + destruct (Qltb (score v) (score r)); exists x; (split; [now right|now split]).
  - destruct Hx as [->|Hx].
    + exists x. split; [now left|]. now split.
    + destruct (IH Hx) as [x' [Hx' Hk']]. exists x'. split; [now right|assumption].
Qed.

Lemma fold_unique_add_spec : forall l acc,
  NoDup (map result_key acc) ->
  NoDup (map result_key (fold_left (fun u r => unique_add r u) l acc)) /\
  (forall y, represented y acc \/ In y l ->
     represented y (fold_left (fun u r => unique_add r u) l acc)).
Proof.
  induction l as [|r l IH]; intros acc H; simpl.
  - split; [assumption|]. intros y [Hy|[]]. assumption.
  - destruct (IH (unique_add r acc) (unique_add_nodup r acc H)) as [N R].
    split; [exact N|]. intros y [Hy|[->|Hy]].
    + apply R. left. now apply unique_add_represents_old.
    + apply R. left. apply unique_add_represents_new.
    + apply R. now right.
Qed.

Lemma insert_desc_perm : forall (A : Type) (key : A -> Q) x l,
  Permutation (insert_desc key x l) (x :: l).
Proof.
  intros A key x l. induction l as [|y r IH]; simpl; [reflexivity|].
  destruct (Qltb (key x) (key y)); [|reflexivity].
  rewrite IH. apply perm_swap.
Qed.

Lemma sorted_desc_perm : forall (A : Type) (key : A -> Q) l,
  Permutation (sorted_desc key l) l.
Proof.
  intros A key l. induction l as [|x r IH]; simpl; [reflexivity|].
  rewrite insert_desc_perm. now constructor.
Qed.

Lemma nodup_sublist_firstn : forall (A : Type) n (l : list A),
  NoDup l -> NoDup (firstn n l).
Proof.
  intros A n l H. rewrite <- (firstn_skipn n l) in H.
  now apply NoDup_app_remove_r in H.
Qed.

Lemma nodup_sublist_skipn : forall (A : Type) n (l : list A),
  NoDup l -> NoDup (skipn n l).
Proof.
  intros A n l H. rewrite <- (firstn_skipn n l) in H.
  now apply NoDup_app_remove_l in H.
Qed.

Lemma merge_nodup : forall all_results limit,
  NoDup (map result_key
           (py_take (sorted_desc score (deduplicate all_results)) limit)).
Proof.
  intros all_results limit. unfold py_take, py_slice.
  rewrite <- firstn_map, <- skipn_map.
  apply nodup_sublist_firstn, nodup_sublist_skipn.
  eapply Permutation_NoDup.
  - apply Permutation_map. symmetry. apply sorted_desc_perm.
  - unfold deduplicate. apply fold_unique_add_spec. constructor.
Qed.

(** X11: merging removes duplicates and keeps the better copy: the
    merged list never holds two results with the same document id and
    chunk id, every result that went in is represented by a result of
    the same key whose score is not lower, and a search without target
    section therefore never lists the same chunk twice. *)
Theorem merge_has_no_duplicates :
  forall V ge ann isalnum q al limit t us strict all_results,
  NoDup (map result_key (deduplicate all_results)) /\
  (forall y, In y all_results -> represented y (deduplicate all_results)) /\
  NoDup (map result_key
           (search_documents_internal V ge ann isalnum q None al limit t us
              strict)).
Proof.
  intros V ge ann isalnum q al limit t us strict all_results.
  split; [|split].
  - unfold deduplicate. apply fold_unique_add_spec. constructor.
  - intros y Hy. unfold deduplicate.
    apply fold_unique_add_spec; [constructor|now right].
  - unfold search_documents_internal, fallback_and_merge.
    destruct (negb strict && truthy us); [apply merge_nodup|].
    match goal with |- context [if ?c then _ else _] => destruct c end;
      [constructor|apply merge_nodup].
Qed.

(** *** Strictness at the endpoints *)

Lemma strict_results_in_section : forall V ge ann isalnum q s al limit t us r,
  In r (search_documents_internal V ge ann isalnum q (Some s) al limit t us true) ->
  section r = s /\ str_in s us = true.
Proof.
  intros V ge ann isalnum q s al limit t us r H.
  unfold search_documents_internal in H.
  destruct (opt_truthy (Some s)) eqn:T.
  - destruct (str_in s us); [|destruct H].
    destruct (negb (truthy (_perform_section_search V ge ann isalnum q s al limit t)));
      [destruct H|].
    apply in_py_take in H. split; [|reflexivity].
    eapply section_search_section; eauto.
  - unfold fallback_and_merge in H. cbn [negb andb] in H.
    match type of H with context [if ?c then _ else _] => destruct c end;
      [destruct H|rewrite merge_nil in H; destruct H].
Qed.

Lemma search_documents_strict : forall V ge ann isalnum request level s,
  sr_section request = Some s -> opt_truthy (Some s) = true ->
  search_documents V ge ann isalnum request level =
  search_documents_internal V ge ann isalnum (sr_query request) (Some s)
    (opt_or (sr_access_level request) level) (sr_limit request)
    (sr_score_threshold request)
    (match level with Some l => get_user_sections l | None => [] end) true.
Proof.
  intros V ge ann isalnum request level s H T. unfold search_documents.
  rewrite H, T, orb_true_r. reflexivity.
Qed.

Lemma search_documents_endpoint_ok :
  forall V ge ann isalnum request level results,
  search_documents_endpoint V ge ann isalnum request true level = Ok results ->
  results = listed (search_documents V ge ann isalnum request level).
Proof.
  intros V ge ann isalnum request level results H.
  unfold search_documents_endpoint in H. cbn [negb] in H. congruence.
Qed.

(** X12: on [POST /search] a target section switches strictness on even
    when the request leaves the flag off: every listed result then
    belongs to that section, and the section is one of those configured
    for the access level of the token. *)
Theorem search_endpoint_section_implies_strict :
  forall V ge ann isalnum request s level results,
  sr_section request = Some s -> opt_truthy (Some s) = true ->
  search_documents_endpoint V ge ann isalnum request true (Some level)
    = Ok results ->
  Forall (fun r => section r = s /\ In s (get_user_sections level)) results.
Proof.
  intros V ge ann isalnum request s level results S T H.
  apply search_documents_endpoint_ok in H.
  rewrite (search_documents_strict V ge ann isalnum request (Some level) s S T)
    in H.
  apply Forall_forall. intros r Hr. rewrite H in Hr.
  unfold listed in Hr. apply filter_In in Hr. destruct Hr as [Hr _].
  apply strict_results_in_section in Hr. destruct Hr as [E1 I].
  split; [exact E1|now apply str_in_In].
Qed.

(** A request for the procedures section that leaves the strictness
    flag off. *)
Definition procedures_request : DocumentSearchRequest :=
  {| sr_query := py "milk"; sr_section := Some procedures;
     sr_access_level := None; sr_limit := 10; sr_score_threshold := 0.5;
     sr_strict_section_search := false |}.

Lemma search_endpoint_section_implies_strict_witness :
  Forall (fun r => section r = procedures /\
                   In procedures (get_user_sections kitchen_management))
         [to_search_result storage_rules].
Proof.
  refine (search_endpoint_section_implies_strict unit demo_embed mixed_index
            ascii_isalnum procedures_request procedures kitchen_management
            [to_search_result storage_rules] _ _ _).
  - reflexivity.
  - reflexivity.
  - vm_compute. reflexivity.
Defined.

(** [check_section_access(token.access_level, section, "read_only")] for
    a token whose access level may be missing. *)
Definition read_allowed (level : option pstr) (s : pstr) : bool :=
  match level with
  | Some l => check_section_access l s (py "read_only")
  | None => false
  end.

(** X13: [POST /search/section] answers 401 for every invalid token;
    for a valid token it answers 400 whenever the section is missing or
    empty, 403 whenever the detailed rights of the token's access level
    do not allow reading the section, and otherwise it answers with
    results, every one of which belongs to the section. *)
Theorem section_endpoint_checks_rights :
  forall V ge ann isalnum request level,
  search_documents_by_section_endpoint V ge ann isalnum request false level
    = HttpError 401 /\
  (opt_truthy (sr_section request) = false ->
   search_documents_by_section_endpoint V ge ann isalnum request true level
     = HttpError 400) /\
  (forall s, sr_section request = Some s -> s <> [] ->
     read_allowed level s = false ->
     search_documents_by_section_endpoint V ge ann isalnum request true level
       = HttpError 403) /\
  (forall s, sr_section request = Some s -> s <> [] ->
     read_allowed level s = true ->
     exists results,
       search_documents_by_section_endpoint V ge ann isalnum request true level
         = Ok results /\
       Forall (fun r => section r = s) results).
Proof.
  intros V ge ann isalnum request level.
  unfold search_documents_by_section_endpoint, read_allowed. cbn [negb].
  split; [reflexivity|]. split; [|split].
  - intros T. destruct (sr_section request) as [s|]; [|reflexivity].
    now rewrite T.
  - intros s S Hs R. rewrite S.
    destruct s as [|c cs]; [contradiction|]. cbn [opt_truthy negb].
    now rewrite R.
  - intros s S Hs R. rewrite S.
    destruct s as [|c cs]; [contradiction|]. cbn [opt_truthy negb].
    rewrite R. cbn [negb]. eexists. split; [reflexivity|].
    apply Forall_forall. intros r Hr. unfold listed in Hr.
    apply filter_In in Hr. destruct Hr as [Hr _].
    now apply strict_results_in_section in Hr.
Qed.

Lemma section_endpoint_checks_rights_witness :
  search_documents_by_section_endpoint unit demo_embed demo_index
    ascii_isalnum procedures_request true (Some kitchen_management)
    = Ok [to_search_result storage_rules] /\
  exists results,
    search_documents_by_section_endpoint unit demo_embed demo_index
      ascii_isalnum procedures_request true (Some kitchen_management)
      = Ok results /\
    Forall (fun r => section r = procedures) results.
Proof.
  split; [vm_compute; reflexivity|].
  refine (proj2 (proj2 (proj2 (section_endpoint_checks_rights unit demo_embed
            demo_index ascii_isalnum procedures_request
            (Some kitchen_management)))) procedures _ _ _).
  - reflexivity.
  - discriminate.
  - vm_compute. reflexivity.
Defined.

End EngineMore.

(* ================================================================== *)
(** * Section rights ([services/access_control_service.py]) *)
(* ================================================================== *)

Module AccessMore.
Import AccessControl RetrievalFacts.

(** [can_upload_to_section], [can_delete_from_section] and
    [can_edit_section] are the same call. *)
Definition can_upload_to_section (subscription_type section : pstr) : bool :=
  check_section_access subscription_type section (py "full").

Definition can_delete_from_section (subscription_type section : pstr) : bool :=
  check_section_access subscription_type section (py "full").

Definition can_edit_section (subscription_type section : pstr) : bool :=
  check_section_access subscription_type section (py "full").

(** The (subscription, section) pairs with write rights, and those with
    read rights. *)
Definition writers : list (pstr * pstr) :=
  [ (restaurant_management, restaurant_ops);
    (kitchen_management, standards); (kitchen_management, procedures);
    (concepts_recipes, procedures) ].

Definition readers : list (pstr * pstr) :=
  writers ++
  [ (restaurant_management, standards); (restaurant_management, procedures);
    (concepts_recipes, standards) ].

Lemma lookup_In : forall (V : Type) key (d : list (pstr * V)) v,
  lookup key d = Some v -> In (key, v) d.
Proof.
  intros V key d. induction d as [|[k w] rest IH]; simpl; intros v H;
    [discriminate|].
  destruct (pstr_eqb k key) eqn:E.
  - apply pstr_eqb_true in E. injection H as <-. left. now rewrite E.
  - right. now apply IH.
Qed.

(** The keys of the rights table under which a request can be granted. *)
Lemma granted_keys : forall subscription_type section required_access,
  check_section_access subscription_type section required_access = true ->
  (subscription_type = restaurant_management
   \/ subscription_type = kitchen_management
   \/ subscription_type = concepts_recipes) /\
  (section = restaurant_ops \/ section = standards \/ section = procedures).
Proof.
  intros sub sec req. unfold check_section_access.
  destruct (lookup sub detailed_access_levels) as [ua|] eqn:U; [|discriminate].
  destruct (lookup sec ua) as [sa|] eqn:S; [|discriminate].
  intros _. apply lookup_In in U. apply lookup_In in S.
  unfold detailed_access_levels in U. cbn [In] in U. split.
  - destruct U as [U|[U|[U|[]]]]; injection U as U1 _; symmetry in U1;
      [left|right; left|right; right]; exact U1.
  - destruct U as [U|[U|[U|[]]]]; injection U as _ U2; rewrite <- U2 in S;
      cbn [In] in S;
      (destruct S as [S|[S|[S|[]]]]; injection S as S1 _; symmetry in S1;
       [left|right; left|right; right]; exact S1).
Qed.

(** X14: whatever kind of access is asked for, a granted request implies
    that reading is granted too; and a section that may be read under
    the detailed rights is one of the sections configured for the
    subscription. *)
Theorem granted_access_implies_read :
  forall subscription_type section required_access,
  check_section_access subscription_type section required_access = true ->
  check_section_access subscription_type section (py "read_only") = true /\
  In section (get_user_sections subscription_type).
Proof.
  intros sub sec req H. split.
  - revert H. unfold check_section_access.
    destruct (lookup sub detailed_access_levels) as [ua|]; [|discriminate].
    destruct (lookup sec ua) as [sa|]; [|discriminate].
    destruct (pstr_eqb sa (py "none")); [discriminate|].
    destruct (pstr_eqb sa (py "full")); [reflexivity|].
    destruct (pstr_eqb sa (py "read_only")); [|discriminate].
    intros _. now rewrite pstr_eqb_refl.
  - destruct (granted_keys sub sec req H) as [[A|[A|A]] [B|[B|B]]]; subst;
      vm_compute; tauto.
Qed.

Lemma granted_access_implies_read_witness :
  check_section_access kitchen_management standards (py "read_only") = true /\
  In standards (get_user_sections kitchen_management).
Proof.
  apply (granted_access_implies_read kitchen_management standards (py "full")).
  vm_compute. reflexivity.
Defined.

(** X15: uploading, deleting and editing are allowed for exactly four
    (subscription, section) pairs and reading for exactly seven; every
    other pair of strings is refused. *)
Theorem rights_tables : forall subscription_type section,
  (can_upload_to_section subscription_type section = true <->
   In (subscription_type, section) writers) /\
  (check_section_access subscription_type section (py "read_only") = true <->
   In (subscription_type, section) readers) /\
  can_delete_from_section subscription_type section
    = can_upload_to_section subscription_type section /\
  can_edit_section subscription_type section
    = can_upload_to_section subscription_type section.
Proof.
  intros sub sec.
  unfold can_delete_from_section, can_edit_section, can_upload_to_section.
  split; [|split; [|split; exact eq_refl]].
  - split.
    + intros H.
      destruct (granted_keys _ _ _ H) as [[A|[A|A]] [B|[B|B]]]; subst;
        revert H; vm_compute; intros H; try discriminate; tauto.
    + unfold writers. cbn [In].
      intros [E|[E|[E|[E|[]]]]]; injection E as <- <-; vm_compute; reflexivity.
  - split.
    + intros H.
      destruct (granted_keys _ _ _ H) as [[A|[A|A]] [B|[B|B]]]; subst;
        revert H; vm_compute; intros H; try discriminate; tauto.
    + unfold readers, writers. cbn [In app].
      intros [E|[E|[E|[E|[E|[E|[E|[]]]]]]]]; injection E as <- <-; vm_compute; reflexivity.
Qed.

End AccessMore.

(* ================================================================== *)
(** * Further properties of the memory policy
      ([services/session_context_service.py]) *)
(* ================================================================== *)

Module MemoryMore.
Import Memory MemoryFacts.
Open Scope Q_scope.

(** X16: the three components of the policy's answer always agree.  With
    the flag off, no documents are handed back and the strategy is a new
    search.  With the flag on, the documents are the stored document
    context, which is not empty, the session has at least two messages
    and a non-empty last user message; the strategy is hybrid only for a
    query that is not clarifying and whose similarity lies in
    (0.3, threshold], and reuse only for a clarifying query or a
    similarity above the threshold. *)
Theorem policy_outcomes :
  forall (Doc Vector : Type) (ge : pstr -> option Vector) dot norm clar
         (ctx : ConversationContext Doc) (q : pstr) (t : Q),
  match should_use_existing_context ge dot norm clar ctx q t with
  | (false, docs, strategy) => docs = [] /\ strategy = new_search
  | (true, docs, strategy) =>
    docs = document_context ctx /\ docs <> [] /\
    (2 <= len (messages ctx))%Z /\
    exists q', last_user_message (messages ctx) = Some q' /\ q' <> [] /\
      match strategy with
      | context_reuse =>
        clar q q' = true \/ t < _calculate_query_similarity ge dot norm q' q
      | hybrid_context =>
        clar q q' = false /\
        0.3 < _calculate_query_similarity ge dot norm q' q /\
        _calculate_query_similarity ge dot norm q' q <= t
      | new_search => False
      end
  end.
Proof.
  intros Doc Vector ge dot norm clar ctx q t.
  unfold should_use_existing_context.
  destruct (document_context ctx) as [|d ds] eqn:D; cbn [truthy negb];
    [now split|].
  destruct (len (messages ctx) <? 2)%Z eqn:L; [now split|].
  apply Z.ltb_ge in L.
  destruct (last_user_message (messages ctx)) as [[|c cs]|] eqn:U;
    cbn [truthy negb]; try now split.
  destruct (clar q (c :: cs)) eqn:C.
  - repeat split; try discriminate; try assumption.
    exists (c :: cs). repeat split; try discriminate. now left.
  - cbv zeta.
    destruct (Qltb t (_calculate_query_similarity ge dot norm (c :: cs) q))
      eqn:T.
    + apply Qltb_true_lt in T.
      repeat split; try discriminate; try assumption.
      exists (c :: cs). repeat split; try discriminate. now right.
    + apply Qltb_false_iff in T.
      destruct (Qltb 0.3 (_calculate_query_similarity ge dot norm (c :: cs) q))
        eqn:H; [|now split].
      apply Qltb_true_lt in H.
      repeat split; try discriminate; try assumption.
      exists (c :: cs). repeat split; try discriminate; assumption.
Qed.

(** X17: when the embedding of the new query cannot be computed and the
    query is not recognised as clarifying, the policy asks for a new
    search, for every non-negative threshold: the failed similarity
    counts as 0. *)
Theorem embedding_failure_new_search :
  forall (Doc Vector : Type) (ge : pstr -> option Vector) dot norm clar
         (ctx : ConversationContext Doc) (q : pstr) (t : Q),
  ge q = None ->
  (forall q', clar q q' = false) ->
  0 <= t ->
  should_use_existing_context ge dot norm clar ctx q t = (false, [], new_search).
Proof.
  intros Doc Vector ge dot norm clar ctx q t G C T.
  assert (S0 : forall q', _calculate_query_similarity ge dot norm q' q = 0).
  { intros q'. unfold _calculate_query_similarity.
    destruct (ge q'); [now rewrite G|reflexivity]. }
  unfold should_use_existing_context.
  destruct (negb (truthy (document_context ctx))); [reflexivity|].
  destruct (len (messages ctx) <? 2)%Z; [reflexivity|].
  destruct (last_user_message (messages ctx)) as [q'|]; [|reflexivity].
  destruct (negb (truthy q')); [reflexivity|].
  rewrite C. cbv zeta. rewrite S0.
  replace (Qltb t 0) with false by (symmetry; now apply Qltb_false_iff).
  reflexivity.
Qed.

Lemma embedding_failure_new_search_witness :
  should_use_existing_context (fun _ : pstr => @None Q) demo_dot demo_norm
    never_clarifying demo_context (py "wash fruit") 0.6
  = (false, [], new_search).
Proof.
  apply (embedding_failure_new_search unit Q (fun _ => None) demo_dot demo_norm
           never_clarifying demo_context (py "wash fruit") 0.6).
  - reflexivity.
  - intros q'. reflexivity.
  - discriminate.
Defined.

End MemoryMore.

(* ================================================================== *)
(** * Text cleaning before storage
      ([services/session_context_service.py]) *)
(* ================================================================== *)

Module Cleaner.

(** [s.replace(ch, '')] for a one-character [ch]. *)
Definition replace_char (ch : pchar) (s : pstr) : pstr :=
  filter (fun c => negb (c =? ch)%N) s.

(** U+0000 .. U+001F, in the order of the [replace] calls. *)
Definition control_chars : list pchar := map N.of_nat (seq 0 32).

(** [ord(char) < 0x7F or ord(char) > 0x9F] *)
Definition keep_char (c : pchar) : bool := ((c <? 127) || (159 <? c))%N.

(** [re.sub(r'\s+', ' ', s)]: every maximal run of whitespace becomes
    one blank; [in_run] tells that the previous character was part of a
    run already replaced. *)
Fixpoint sub_whitespace (in_run : bool) (s : pstr) : pstr :=
  match s with
  | [] => []
  | c :: r =>
    if isspace c
    then (if in_run then sub_whitespace true r
          else 32%N :: sub_whitespace true r)
    else c :: sub_whitespace false r
  end.

Definition _clean_text_for_database (text : pstr) : pstr :=
  if negb (truthy text) then text
  else
    let cleaned := fold_left (fun acc ch => replace_char ch acc)
                             control_chars text in
    let cleaned := filter keep_char cleaned in
    let cleaned := sub_whitespace false cleaned in
    strip cleaned.

(** No two whitespace characters next to each other. *)
Fixpoint single_spaced (s : pstr) : bool :=
  match s with
  | [] => true
  | c :: r =>
    match r with
    | [] => true
    | d :: _ => negb (isspace c && isspace d) && single_spaced r
    end
  end.

(** A character the cleaner lets through unchanged. *)
Definition plain_char (c : pchar) : bool :=
  ((32 <=? c) && keep_char c && (negb (isspace c) || (c =? 32)))%N.

End Cleaner.

Module CleanerFacts.
Import Cleaner ChunkerMore.

Lemma fold_replace_filter : forall chars s,
  fold_left (fun acc ch => replace_char ch acc) chars s
  = filter (fun c => negb (existsb (N.eqb c) chars)) s.
Proof.
  induction chars as [|ch chars IH]; intros s; simpl.
  - induction s as [|c r IHs]; simpl; [reflexivity|now f_equal].
  - rewrite IH. unfold replace_char.
    induction s as [|c r IHs]; simpl; [reflexivity|].
    destruct (c =? ch)%N; simpl; [assumption|].
    destruct (existsb (N.eqb c) chars); simpl; [assumption|now f_equal].
Qed.

Lemma control_chars_spec : forall c,
  existsb (N.eqb c) control_chars = (c <? 32)%N.
Proof.
  intros c. destruct (c <? 32)%N eqn:L.
  - apply N.ltb_lt in L. apply existsb_exists. exists c.
    split; [|apply N.eqb_refl].
    unfold control_chars. apply in_map_iff. exists (N.to_nat c).
    split; [apply N2Nat.id|]. apply in_seq. lia.
  - apply N.ltb_ge in L.
    destruct (existsb (N.eqb c) control_chars) eqn:E; [|reflexivity].
    apply existsb_exists in E. destruct E as [x [Hx Hc]].
    apply N.eqb_eq in Hc. subst x.
    unfold control_chars in Hx. apply in_map_iff in Hx.
    destruct Hx as [k [Hk Hin]]. apply in_seq in Hin. lia.
Qed.

Lemma sub_whitespace_chars : forall s b c,
  In c (sub_whitespace b s) -> c = 32%N \/ (In c s /\ isspace c = false).
Proof.
  induction s as [|x r IH]; intros b c H; simpl in H; [destruct H|].
  destruct (isspace x) eqn:E.
  - destruct b.
    + destruct (IH _ _ H) as [K|[K1 K2]]; [now left|right; split; [now right|assumption]].
    + destruct H as [<-|H]; [now left|].
      destruct (IH _ _ H) as [K|[K1 K2]]; [now left|right; split; [now right|assumption]].
  - destruct H as [<-|H]; [right; split; [now left|assumption]|].
    destruct (IH _ _ H) as [K|[K1 K2]]; [now left|right; split; [now right|assumption]].
Qed.

Lemma sub_whitespace_single : forall s b,
  single_spaced (sub_whitespace b s) = true /\
  (b = true -> starts_clean (sub_whitespace b s) = true).
Proof.
  induction s as [|x r IH]; intros b; [split; reflexivity|].
  cbn [sub_whitespace]. destruct (isspace x) eqn:E.
  - destruct b.
    + apply IH.
    + split; [|discriminate].
      destruct (IH true) as [S1 S2]. specialize (S2 eq_refl).
      cbn [single_spaced].
      destruct (sub_whitespace true r) as [|d r'] eqn:R; [reflexivity|].
      cbn [starts_clean] in S2. apply negb_true_iff in S2.
      rewrite S2, andb_false_r. exact S1.
  - split.
    + destruct (IH false) as [S1 _]. cbn [single_spaced].
      destruct (sub_whitespace false r) as [|d r'] eqn:R; [reflexivity|].
      rewrite E. exact S1.
    + intros _. cbn [starts_clean]. now rewrite E.
Qed.

Lemma sub_whitespace_length : forall s b,
  (length (sub_whitespace b s) <= length s)%nat.
Proof.
  induction s as [|x r IH]; intros b; simpl; [lia|].
  destruct (isspace x); [destruct b|]; simpl;
    try (pose proof (IH true)); try (pose proof (IH false)); lia.
Qed.

Lemma single_spaced_app : forall a b,
  single_spaced (a ++ b) = true ->
  single_spaced a = true /\ single_spaced b = true.
Proof.
  induction a as [|x r IH]; intros b H; [now split|].
  destruct r as [|y r'].
  - split; [reflexivity|]. simpl in H.
    destruct b as [|d b']; [reflexivity|].
    apply andb_true_iff in H. tauto.
  - change ((x :: y :: r') ++ b) with (x :: y :: (r' ++ b)) in H.
    cbn [single_spaced] in H. apply andb_true_iff in H. destruct H as [H1 H2].
    destruct (IH b H2) as [I1 I2]. split; [|assumption].
    cbn [single_spaced]. cbn [single_spaced] in I1. now rewrite H1.
Qed.

(** [strip] returns a contiguous part of its argument. *)
Lemma strip_split : forall s,
  exists pre post, s = pre ++ strip s ++ post.
Proof.
  intros s. destruct (lstrip_split s) as [pre [E1 _]].
  destruct (rstrip_split (lstrip s)) as [post [E2 _]].
  exists pre, post. unfold strip. now rewrite <- E2.
Qed.

Lemma strip_fixed : forall s, trimmed s = true -> strip s = s.
Proof.
  intros s H. unfold trimmed in H. apply andb_true_iff in H.
  destruct H as [H1 H2]. unfold strip, rstrip.
  rewrite (lstrip_fixed s H1), (lstrip_fixed (rev s) H2).
  apply rev_involutive.
Qed.

(** A clean text is a fixed point of the substitution. *)
Lemma sub_whitespace_fixed : forall s,
  forallb plain_char s = true -> single_spaced s = true ->
  sub_whitespace false s = s /\
  (starts_clean s = true -> sub_whitespace true s = s).
Proof.
  induction s as [|x r IH]; intros P S; [split; reflexivity|].
  cbn [forallb] in P. apply andb_true_iff in P. destruct P as [Px Pr].
  assert (Sr : single_spaced r = true).
  { destruct r as [|y r']; [reflexivity|].
    cbn [single_spaced] in S. apply andb_true_iff in S. tauto. }
  destruct (IH Pr Sr) as [I1 I2].
  cbn [sub_whitespace]. destruct (isspace x) eqn:E.
  - assert (X : x = 32%N).
    { unfold plain_char in Px. rewrite E in Px. cbn [negb orb] in Px.
      apply andb_true_iff in Px. destruct Px as [_ Px].
      now apply N.eqb_eq in Px. }
    split.
    + rewrite X. f_equal. apply I2.
      destruct r as [|y r']; [reflexivity|].
      cbn [single_spaced] in S. apply andb_true_iff in S. destruct S as [S _].
      rewrite E in S. cbn [andb] in S. exact S.
    + cbn [starts_clean]. rewrite E. discriminate.
  - split; [now rewrite I1|]. intros _. now rewrite I1.
Qed.

Lemma filter_fixed : forall (A : Type) (f : A -> bool) l,
  forallb f l = true -> filter f l = l.
Proof.
  intros A f l. induction l as [|x r IH]; simpl; [reflexivity|].
  intros H. apply andb_true_iff in H. destruct H as [H1 H2].
  rewrite H1. f_equal. now apply IH.
Qed.

(** Any contiguous part of a substituted text whose characters passed
    both filters. *)
Lemma sub_whitespace_part : forall kept pre core post,
  (forall c, In c kept -> (32 <= c)%N /\ keep_char c = true) ->
  sub_whitespace false kept = pre ++ core ++ post ->
  forallb plain_char core = true /\ single_spaced core = true.
Proof.
  intros kept pre core post K E. split.
  - apply forallb_forall. intros c Hc.
    assert (Hs : In c (sub_whitespace false kept)).
    { rewrite E. apply in_or_app. right. apply in_or_app. left. exact Hc. }
    apply sub_whitespace_chars in Hs. destruct Hs as [->|[Hk Hw]].
    + vm_compute. reflexivity.
    + destruct (K c Hk) as [K1 K2]. unfold plain_char. rewrite K2, Hw.
      apply N.leb_le in K1. rewrite K1. reflexivity.
  - pose proof (proj1 (sub_whitespace_single kept false)) as S.
    rewrite E in S. apply single_spaced_app in S. destruct S as [_ S].
    now apply single_spaced_app in S.
Qed.

Lemma kept_chars : forall text c,
  In c (filter keep_char
          (fold_left (fun acc ch => replace_char ch acc) control_chars text)) ->
  (32 <= c)%N /\ keep_char c = true.
Proof.
  intros text c H. apply filter_In in H. destruct H as [H K].
  rewrite fold_replace_filter in H. apply filter_In in H.
  destruct H as [_ H]. rewrite control_chars_spec in H.
  apply negb_true_iff, N.ltb_ge in H. now split.
Qed.

Lemma kept_length : forall l,
  (length (strip (sub_whitespace false (filter keep_char l))) <= length l)%nat.
Proof.
  intros l.
  pose proof (filter_length_le keep_char l) as L2.
  pose proof (sub_whitespace_length (filter keep_char l) false) as L3.
  pose proof (RetrievalFacts.strip_length
                (sub_whitespace false (filter keep_char l))) as L4.
  unfold len in L4. lia.
Qed.

(** What the cleaner returns. *)
Lemma clean_form : forall text,
  forallb plain_char (_clean_text_for_database text) = true /\
  single_spaced (_clean_text_for_database text) = true /\
  trimmed (_clean_text_for_database text) = true.
Proof.
  intros text. unfold _clean_text_for_database.
  destruct text as [|c0 r0]; [repeat split|].
  cbn [truthy negb].
  generalize (kept_chars (c0 :: r0)).
  generalize (filter keep_char
                (fold_left (fun acc ch => replace_char ch acc) control_chars
                   (c0 :: r0))).
  intros kept K.
  destruct (strip_split (sub_whitespace false kept)) as [pre [post E]].
  destruct (sub_whitespace_part kept pre _ post K E) as [P S].
  split; [exact P|]. split; [exact S|apply strip_trimmed].
Qed.

(** X18: the cleaned text holds no control character (U+0000..U+001F,
    U+007F..U+009F), its only whitespace is the blank, it has no two
    blanks in a row and no blank at either end, and it is not longer
    than the text; cleaning a cleaned text changes nothing. *)
Theorem clean_text_normal_form : forall text,
  let cleaned := _clean_text_for_database text in
  Forall (fun c => (32 <= c)%N /\ ~ (127 <= c <= 159)%N /\
                   (isspace c = true -> c = 32%N)) cleaned /\
  single_spaced cleaned = true /\ trimmed cleaned = true /\
  (length cleaned <= length text)%nat /\
  _clean_text_for_database cleaned = cleaned.
Proof.
  intros text. cbv zeta.
  destruct (clean_form text) as [P [S T]].
  assert (L : (length (_clean_text_for_database text) <= length text)%nat).
  { unfold _clean_text_for_database.
    destruct text as [|c0 r0]; [simpl; lia|]. cbn [truthy negb].
    rewrite fold_replace_filter.
    eapply Nat.le_trans; [apply kept_length|apply filter_length_le]. }
  generalize dependent (_clean_text_for_database text).
  intros cleaned P S T L.
  split; [|split; [|split; [|split]]]; try assumption.
  - apply Forall_forall. intros c Hc.
    rewrite forallb_forall in P. specialize (P c Hc).
    unfold plain_char, keep_char in P.
    apply andb_true_iff in P. destruct P as [P P3].
    apply andb_true_iff in P. destruct P as [P1 P2].
    apply N.leb_le in P1. split; [assumption|]. split.
    + apply orb_true_iff in P2. destruct P2 as [P2|P2];
        [apply N.ltb_lt in P2|apply N.ltb_lt in P2]; lia.
    + intros W. rewrite W in P3. cbn [negb orb] in P3. now apply N.eqb_eq.
  - unfold _clean_text_for_database.
    destruct cleaned as [|c r]; [reflexivity|]. cbn [truthy negb].
    rewrite fold_replace_filter.
    rewrite (filter_fixed _ _ (c :: r)).
    2:{ apply forallb_forall. intros x Hx.
        rewrite forallb_forall in P. specialize (P x Hx).
        unfold plain_char in P. rewrite control_chars_spec.
        apply andb_true_iff in P. destruct P as [P _].
        apply andb_true_iff in P. destruct P as [P _].
        apply N.leb_le in P. apply negb_true_iff, N.ltb_ge. exact P. }
    rewrite (filter_fixed _ keep_char (c :: r)).
    2:{ apply forallb_forall. intros x Hx.
        rewrite forallb_forall in P. specialize (P x Hx).
        unfold plain_char in P.
        apply andb_true_iff in P. destruct P as [P _].
        apply andb_true_iff in P. tauto. }
    rewrite (proj1 (sub_whitespace_fixed (c :: r) P S)).
    now apply strip_fixed.
Qed.

End CleanerFacts.

(* ================================================================== *)
(** * Where the results of the engine come from ([main.py],
      [services/vector_service.py]) *)
(* ================================================================== *)

Module EngineOrigin.
Import VectorService AccessControl Retrieval ChunkerFacts RetrievalFacts
       MemoryFacts EngineMore.
Open Scope Q_scope.

Section Origin.

Variable V : Type.
Variable ge : pstr -> option V.
Variable ann : V -> Filters -> res (list Hit).
Variable isalnum : pchar -> bool.

(** [r] is a chunk proposed by the store for a query filtered on the
    access level [al] (when it is truthy), kept by the smart filter run
    with threshold [t']. *)
Definition came_from (al : option pstr) (t' : Q) (r : DocumentSearchResult)
  : Prop :=
  exists h flt qv cands,
    r = to_search_result h /\ ann qv flt = Ret cands /\ In h cands /\
    matches flt h = true /\ keep_result isalnum t' h = true /\
    f_access_level flt = f_access_level (with_access_level al no_filters).

Lemma in_search_similar_cands : forall qv limit t flt hits x,
  search_similar V ann isalnum qv limit t flt = Ret hits ->
  In x hits ->
  exists cands, ann qv flt = Ret cands /\ In x cands /\
                matches flt x = true /\ keep_result isalnum t x = true.
Proof.
  intros qv limit t flt hits x H Hx.
  unfold search_similar, client_search in H.
  destruct (ann qv flt) as [cands| |] eqn:A; simpl in H; try discriminate.
  injection H as <-.
  apply in_smart_filter in Hx. destruct Hx as [Hx Hk].
  apply in_firstn in Hx. apply filter_In in Hx. destruct Hx as [Hc Hm].
  apply andb_true_iff in Hm. exists cands. tauto.
Qed.

Lemma section_filter_access_level : forall al s,
  f_access_level (with_access_level al (with_section s no_filters))
  = f_access_level (with_access_level al no_filters).
Proof. intros al s. unfold with_access_level. now destruct (opt_truthy al). Qed.

Lemma section_search_origin : forall q s al limit t r,
  In r (_perform_section_search V ge ann isalnum q s al limit t) ->
  came_from al (py_max t 0.6) r.
Proof.
  intros q s al limit t r H.
  unfold _perform_section_search, embed in H.
  destruct (ge q) as [qv|]; simpl in H; [|destruct H].
  match type of H with context [search_similar ?a ?b ?c ?d ?e ?f ?g] =>
    destruct (search_similar a b c d e f g) as [raw| |] eqn:S
  end; simpl in H; try destruct H.
  apply in_py_take, in_sorted_desc, in_map_iff in H.
  destruct H as [h [<- Hh]].
  destruct (in_search_similar_cands _ _ _ _ _ h S Hh) as [cands [A [C [M K]]]].
  exists h, (with_access_level al (with_section s no_filters)), qv, cands.
  repeat split; auto. apply section_filter_access_level.
Qed.

Lemma fallback_one_origin : forall qv al lim t s r,
  In r (fallback_one V ann isalnum qv (with_access_level al no_filters) lim t s) ->
  came_from al t r.
Proof.
  intros qv al lim t s r H. unfold fallback_one in H.
  match type of H with context [search_similar ?a ?b ?c ?d ?e ?f ?g] =>
    destruct (search_similar a b c d e f g) as [raw| |] eqn:S
  end; simpl in H; try destruct H.
  apply in_map_iff in H. destruct H as [h [<- Hh]].
  destruct (in_search_similar_cands _ _ _ _ _ h S Hh) as [cands [A [C [M K]]]].
  exists h, (with_section s (with_access_level al no_filters)), qv, cands.
  repeat split; auto.
Qed.

Lemma fallback_search_origin : forall q al limit t us r,
  In r (_perform_fallback_search V ge ann isalnum q al limit t us) ->
  came_from al t r.
Proof.
  intros q al limit t us r H.
  unfold _perform_fallback_search, embed in H.
  destruct (ge q) as [qv|]; simpl in H; [|destruct H].
  destruct (truthy us).
  - simpl in H. apply in_py_take, in_sorted_desc, in_flat_map in H.
    destruct H as [s [_ Hr]]. eapply fallback_one_origin; eauto.
  - match type of H with context [search_similar ?a ?b ?c ?d ?e ?f ?g] =>
      destruct (search_similar a b c d e f g) as [raw| |] eqn:S
    end; simpl in H; try destruct H.
    apply in_map_iff in H. destruct H as [h [<- Hh]].
    destruct (in_search_similar_cands _ _ _ _ _ h S Hh) as [cands [A [C [M K]]]].
    exists h, (with_access_level al no_filters), qv, cands.
    repeat split; auto.
Qed.

(** Every result of the engine comes from the section pass, run with
    threshold [max(t, 0.6)], or from the fallback pass, run with
    threshold [0.6 * t]. *)
Lemma engine_origin : forall q sec al limit t us strict r,
  In r (search_documents_internal V ge ann isalnum q sec al limit t us strict) ->
  came_from al (py_max t 0.6) r \/ came_from al (t * 0.6) r.
Proof.
  intros q sec al limit t us strict r H.
  assert (S1 : forall s x,
    In x (_perform_section_search V ge ann isalnum q s al limit t) ->
    came_from al (py_max t 0.6) x \/ came_from al (t * 0.6) x).
  { intros s x Hx. left. eapply section_search_origin; eauto. }
  assert (F : forall s0 sr,
    (forall x, In x sr ->
       came_from al (py_max t 0.6) x \/ came_from al (t * 0.6) x) ->
    In r (fallback_and_merge V ge ann isalnum q s0 sr al limit t us strict) ->
    came_from al (py_max t 0.6) r \/ came_from al (t * 0.6) r).
  { intros s0 sr Hsr Hin. unfold fallback_and_merge in Hin.
    destruct (negb strict && truthy us).
    - apply in_py_take, in_sorted_desc, in_deduplicate, in_app_or in Hin.
      destruct Hin as [Hin|Hin]; [now apply Hsr|].
      right. eapply fallback_search_origin; eauto.
    - match type of Hin with context [if ?c then _ else _] => destruct c end;
        [destruct Hin|].
      apply in_py_take, in_sorted_desc, in_deduplicate in Hin. now apply Hsr. }
  unfold search_documents_internal in H.
  destruct sec as [s|]; [|(eapply F; [|exact H]; intros x [])].
  destruct (opt_truthy (Some s)); [|(eapply F; [|exact H]; intros x [])].
  destruct (str_in s us).
  - destruct (negb (truthy (_perform_section_search V ge ann isalnum q s al limit t))).
    + destruct strict; [destruct H|].
      eapply F; [|exact H]. intros x Hx. now apply (S1 s x).
    + destruct strict; [apply in_py_take in H; now apply (S1 s r)|].
      destruct (any_good t (_perform_section_search V ge ann isalnum q s al limit t));
        [apply in_py_take in H; now apply (S1 s r)|].
      eapply F; [|exact H]. intros x Hx. now apply (S1 s x).
  - destruct strict; [destruct H|]. eapply F; [|exact H]. intros x [].
Qed.


Lemma came_from_access_level : forall level t' r,
  level <> [] -> came_from (Some level) t' r -> access_level r = level.
Proof.
  intros level t' r Hl [h [flt [qv [cands [-> [_ [_ [M [_ E]]]]]]]]].
  unfold with_access_level in E.
  destruct level as [|c cs]; [contradiction|]. cbn [opt_truthy] in E.
  cbn [f_access_level] in E.
  unfold matches in M. rewrite E in M. cbn [match_field] in M.
  apply andb_true_iff in M. destruct M as [_ M].
  apply pstr_eqb_true in M. cbn [access_level to_search_result]. now symmetry.
Qed.

End Origin.



End EngineOrigin.

(* ================================================================== *)
(** * Upload and the access level of indexed chunks ([main.py]) *)
(* ================================================================== *)

Module Upload.
Import VectorService AccessControl Retrieval EndpointsMore AccessMore.

(** The checks of [POST /documents/upload-smart], in the order of the
    source; on success, the section and the access level handed to the
    document processor, which stamps them on every chunk it indexes
    ([file_type_supported] and [file_size_ok] stand for the two tests
    on the uploaded file). *)
Definition upload_document_smart (token_is_valid : bool)
  (token_access_level : option pstr) (section : pstr)
  (file_type_supported file_size_ok : bool) : http (pstr * pstr) :=
  if negb token_is_valid then HttpError 401
  else
    match token_access_level with
    | None => HttpError 403
    | Some access_level =>
      if negb (can_upload_to_section access_level section) then HttpError 403
      else if negb file_type_supported then HttpError 400
      else if negb file_size_ok then HttpError 400
      else Ok (section, access_level)
    end.

(** A chunk whose section and access level are those of an accepted
    upload (reprocessing a document reuses the values stored at
    upload). *)
Definition written_by_upload (h : Hit) : Prop :=
  exists token_access_level file_type_supported file_size_ok,
    upload_document_smart true token_access_level (h_section h)
      file_type_supported file_size_ok
    = Ok (h_section h, h_access_level h).

(** The store only proposes chunks written by uploads. *)
Definition index_written_by_upload (V : Type)
  (ann : V -> Filters -> res (list Hit)) : Prop :=
  forall qv flt cands, ann qv flt = Ret cands -> Forall written_by_upload cands.

End Upload.

Module UploadFacts.
Import VectorService AccessControl Retrieval RetrievalFacts EndpointsMore
       AccessMore EngineOrigin Upload.

Lemma can_upload_to_section_eq : forall level s,
  can_upload_to_section level s = check_section_access level s (py "full").
Proof. intros level s. unfold can_upload_to_section. reflexivity. Qed.

Lemma upload_accepted : forall level s supported size_ok stamp,
  upload_document_smart true level s supported size_ok = Ok stamp ->
  exists l, level = Some l /\ stamp = (s, l) /\
            can_upload_to_section l s = true.
Proof.
  intros level s supported size_ok stamp.
  unfold upload_document_smart. cbn [negb].
  destruct level as [l|]; [|discriminate].
  destruct (can_upload_to_section l s) eqn:C; [|discriminate].
  destruct supported; [|discriminate]. destruct size_ok; [|discriminate].
  cbn [negb]. intros H. injection H as <-. exists l.
  split; [reflexivity|]. split; [reflexivity|exact C].
Qed.

Lemma written_by_upload_full : forall h,
  written_by_upload h ->
  check_section_access (h_access_level h) (h_section h) (py "full") = true.
Proof.
  intros h [level [supported [size_ok H]]].
  apply upload_accepted in H. destruct H as [l [_ [E C]]].
  injection E as ->. now rewrite <- can_upload_to_section_eq.
Qed.

Lemma full_implies_read : forall level s,
  check_section_access level s (py "full") = true ->
  check_section_access level s (py "read_only") = true.
Proof.
  intros level s. unfold check_section_access.
  destruct (lookup level detailed_access_levels) as [ua|]; [|discriminate].
  destruct (lookup s ua) as [sa|]; [|discriminate].
  destruct (pstr_eqb sa (py "none")); [discriminate|].
  destruct (pstr_eqb sa (py "full")); [reflexivity|].
  destruct (pstr_eqb sa (py "read_only")); [|discriminate].
  intros _. now rewrite pstr_eqb_refl.
Qed.

(** C1, as amended: on an index written by uploads, a principal with a
    non-empty access level that has no read right on [restaurant_ops]
    receives no [restaurant_ops] chunk from any engine call that filters
    on the principal's access level: every such call returns only
    chunks stamped with that level, and uploads never stamp a level on a
    section it has no full right on.  The chat endpoint always filters
    on the token's level, the search endpoint does so whenever the
    request sets no access level of its own.  The section list is not
    what excludes: it contains [restaurant_ops] on the chat path and for
    each of the three configured levels on the search path. *)
Theorem restaurant_ops_excluded_by_access_level :
  forall V ge ann isalnum (level : pstr),
  index_written_by_upload V ann ->
  level <> [] ->
  check_section_access level restaurant_ops (py "read_only") = false ->
  (forall q sec limit t us strict,
     Forall (fun r => access_level r = level /\ section r <> restaurant_ops)
       (search_documents_internal V ge ann isalnum q sec (Some level) limit t us
          strict)) /\
  (forall message request_section request_context,
     Forall (fun r => section r <> restaurant_ops)
       (chat_new_search V ge ann isalnum message request_section
          request_context (Some level))) /\
  (forall request,
     opt_truthy (sr_access_level request) = false ->
     Forall (fun r => section r <> restaurant_ops)
       (search_documents V ge ann isalnum request (Some level))) /\
  In restaurant_ops chat_user_sections /\
  (forall l, In l [restaurant_management; kitchen_management; concepts_recipes] ->
     In restaurant_ops (get_user_sections l)).
Proof.
  intros V ge ann isalnum level Hidx Hl Hno.
  assert (G : forall q sec limit t us strict,
    Forall (fun r => access_level r = level /\ section r <> restaurant_ops)
      (search_documents_internal V ge ann isalnum q sec (Some level) limit t us
         strict)).
  { intros q sec limit t us strict. apply Forall_forall. intros r Hr.
    apply engine_origin in Hr.
    assert (O : exists t', came_from V ann isalnum (Some level) t' r)
      by (destruct Hr as [Hr|Hr]; eauto).
    destruct O as [t' O].
    pose proof (came_from_access_level V ann isalnum level t' r Hl O) as A.
    split; [exact A|].
    destruct O as [h [flt [qv [cands [-> [Hann [Hin _]]]]]]].
    cbn [access_level section to_search_result] in *.
    intros E.
    pose proof (Hidx qv flt cands Hann) as W.
    rewrite Forall_forall in W. specialize (W h Hin).
    apply written_by_upload_full, full_implies_read in W.
    rewrite A, E in W. congruence. }
  split; [exact G|]. split; [|split; [|split]].
  - intros message request_section request_context.
    unfold chat_new_search.
    destruct (opt_truthy request_section);
      (eapply Forall_impl; [|apply G]); intros r [_ S]; exact S.
  - intros request Hreq. unfold search_documents, opt_or. rewrite Hreq.
    eapply Forall_impl; [|apply G]. intros r [_ S]. exact S.
  - unfold chat_user_sections. left. reflexivity.
  - intros l [<-|[<-|[<-|[]]]]; vm_compute; left; reflexivity.
Qed.

Lemma restaurant_ops_excluded_by_access_level_witness :
  chat_new_search unit demo_embed demo_index ascii_isalnum (py "milk storage")
    None None (Some kitchen_management)
  = [to_search_result storage_rules] /\
  Forall (fun r => section r <> restaurant_ops)
    (chat_new_search unit demo_embed demo_index ascii_isalnum
       (py "milk storage") None None (Some kitchen_management)).
Proof.
  split; [vm_compute; reflexivity|].
  refine (proj1 (proj2 (restaurant_ops_excluded_by_access_level unit demo_embed
                          demo_index ascii_isalnum kitchen_management _ _ _))
                (py "milk storage") None None).
  - intros qv flt cands H. unfold demo_index in H. injection H as <-.
    constructor; [|constructor; [|constructor]].
    + exists (Some restaurant_management), true, true. vm_compute. reflexivity.
    + exists (Some kitchen_management), true, true. vm_compute. reflexivity.
  - discriminate.
  - vm_compute. reflexivity.
Defined.

(** C1, counterexample: the index holds one chunk uploaded by a
    restaurant manager into [restaurant_ops] and one uploaded by a
    kitchen manager into [procedures].  A kitchen manager, whose
    detailed rights give no access to [restaurant_ops], sends a search
    request without target section and with strictness off that sets
    [access_level] to [restaurant_management], and receives the
    [restaurant_ops] chunk. *)
Lemma search_returns_restaurant_ops_chunk :
  index_written_by_upload unit demo_index /\
  check_section_access kitchen_management restaurant_ops (py "read_only") = false /\
  sr_section open_request = None /\
  sr_strict_section_search open_request = false /\
  exists r,
    In r (search_documents unit demo_embed demo_index ascii_isalnum
            open_request (Some kitchen_management)) /\
    section r = restaurant_ops.
Proof.
  split.
  { intros qv flt cands H. unfold demo_index in H. injection H as <-.
    constructor; [|constructor; [|constructor]].
    - exists (Some restaurant_management), true, true. vm_compute. reflexivity.
    - exists (Some kitchen_management), true, true. vm_compute. reflexivity. }
  split; [vm_compute; reflexivity|].
  split; [reflexivity|]. split; [reflexivity|].
  exists (to_search_result ops_manual). split; [|reflexivity].
  assert (E : search_documents unit demo_embed demo_index ascii_isalnum
                open_request (Some kitchen_management)
              = [to_search_result ops_manual]) by (vm_compute; reflexivity).
  rewrite E. now left.
Qed.

End UploadFacts.
